(** * braindumpsync: the extraction-dedup-sync pipeline

    A shallow embedding of [src/ingest.ts], [src/state.ts], [src/notion.ts],
    [src/runner-hourly.ts] and of the two classes of [src/log.ts] (the logger
    and, after it, the task extractor), and the properties of the chunker,
    the state store, the Notion client, the hourly runner, the redaction of
    logged data and the extractor.

    Conventions.  JavaScript strings are modelled as [string]; a character is
    one code unit in the range U+0000..U+00FF.  JavaScript numbers that the
    code only uses as integers (counters, millisecond time stamps, HTTP
    status codes) are [nat] or [Z].  Writing the log is not modelled: it
    does not influence any value computed here, except where evaluating the
    arguments of a logging call can throw (in [extractTasks]).  The calls
    that [batch.map] starts together and [Promise.all] waits for are
    interleaved, in an order that the environment gives. *)

From Stdlib Require Import ZArith Ascii Lia Bool DecimalString.
From stdpp Require Import base list strings gmap.
From Equations Require Import Equations.

Set Warnings "-abstract-large-number,-register-all".

Local Open Scope Z_scope.
Local Open Scope nat_scope.

(** ** JavaScript string primitives *)

Module JsString.

Definition newline : ascii := Ascii.ascii_of_nat 10.
Definition nl : string := String newline EmptyString.

(** Truthiness of a string: only the empty string is falsy. *)
Definition truthy (s : string) : bool :=
  match s with
  | EmptyString => false
  | String _ _ => true
  end.

(** [s.split("\n")]: never returns the empty array. *)
Fixpoint split_lines (s : string) : list string :=
  match s with
  | EmptyString => [EmptyString]
  | String c r =>
      if Ascii.eqb c newline then EmptyString :: split_lines r
      else match split_lines r with
           | [] => [String c EmptyString]
           | l :: ls => String c l :: ls
           end
  end.

(** [s.includes("\n")]. *)
Fixpoint has_newline (s : string) : bool :=
  match s with
  | EmptyString => false
  | String c r => Ascii.eqb c newline || has_newline r
  end.

(** [ls.join("\n")]. *)
Fixpoint join_lines (ls : list string) : string :=
  match ls with
  | [] => EmptyString
  | l :: ls' =>
      match ls' with
      | [] => l
      | _ :: _ => l +:+ nl +:+ join_lines ls'
      end
  end.

(** [ls.join(separator)]. *)
Fixpoint join_with (separator : string) (ls : list string) : string :=
  match ls with
  | [] => EmptyString
  | l :: ls' =>
      match ls' with
      | [] => l
      | _ :: _ => l +:+ separator +:+ join_with separator ls'
      end
  end.

(** [s.repeat(n)]. *)
Fixpoint repeat_string (s : string) (n : nat) : string :=
  match n with
  | O => EmptyString
  | S n' => s +:+ repeat_string s n'
  end.

(** ASCII and Latin-1 white space, as removed by [String.prototype.trim]:
    TAB, LF, VT, FF, CR, SPACE and NBSP. *)
Definition is_white_space (c : ascii) : bool :=
  let n := Ascii.nat_of_ascii c in
  ((9 <=? n) && (n <=? 13)) || (n =? 32) || (n =? 160).

Fixpoint trimStart (s : string) : string :=
  match s with
  | EmptyString => EmptyString
  | String c r => if is_white_space c then trimStart r else s
  end.

(** Removes trailing white space: a character is kept when it is not
    white space or when something is kept after it. *)
Fixpoint trimEnd (s : string) : string :=
  match s with
  | EmptyString => EmptyString
  | String c r =>
      match trimEnd r with
      | EmptyString => if is_white_space c then EmptyString else String c EmptyString
      | String _ _ as r' => String c r'
      end
  end.

Definition trim (s : string) : string := trimEnd (trimStart s).

(** [toLowerCase] on one code unit: A-Z, and the Latin-1 capitals
    U+00C0..U+00DE except the multiplication sign U+00D7. *)
Definition lower_char (c : ascii) : ascii :=
  let n := Ascii.nat_of_ascii c in
  if ((65 <=? n) && (n <=? 90)) || ((192 <=? n) && (n <=? 222) && negb (n =? 215))
  then Ascii.ascii_of_nat (n + 32)
  else c.

Fixpoint toLowerCase (s : string) : string :=
  match s with
  | EmptyString => EmptyString
  | String c r => String (lower_char c) (toLowerCase r)
  end.

(** [s.substring(0, n)] for [0 <= n]. *)
Fixpoint substring0 (n : nat) (s : string) : string :=
  match n, s with
  | O, _ => EmptyString
  | S _, EmptyString => EmptyString
  | S n', String c r => String c (substring0 n' r)
  end.

End JsString.
Import JsString.

(** ** [src/ingest.ts]: the chunker *)

Record FileContent := {
  fc_filePath : string;
  fc_content : string;
  fc_modifiedTime : Z;
  fc_isModified : bool
}.

Record FileChunk := {
  chunk_filePath : string;
  chunk_content : string;
  chunkIndex : nat;
  totalChunks : nat
}.

(** The [FileIngester] class has one field. *)
Record FileIngester := { maxChunkSize : nat }.

(** [export const fileIngester = new FileIngester()]. *)
Definition fileIngester : FileIngester := {| maxChunkSize := 8000 |}.

(** The variables of the loop of [chunkContent]. *)
Record ChunkLoop := {
  lp_chunks : list FileChunk;
  lp_currentChunk : string;
  lp_chunkIndex : nat
}.

(** One iteration of [for (let i = 0; i < lines.length; i++)]. *)
Definition chunk_step (self : FileIngester) (path : string)
    (st : ChunkLoop) (line : string) : ChunkLoop :=
  let newChunk :=
    if truthy (lp_currentChunk st)
    then lp_currentChunk st +:+ nl +:+ line
    else line in
  if (maxChunkSize self <? String.length newChunk) && truthy (lp_currentChunk st)
  then {| lp_chunks := lp_chunks st ++
            [ {| chunk_filePath := path;
                 chunk_content := lp_currentChunk st;
                 chunkIndex := lp_chunkIndex st;
                 totalChunks := 0 |} ];
          lp_currentChunk := line;
          lp_chunkIndex := S (lp_chunkIndex st) |}
  else {| lp_chunks := lp_chunks st;
          lp_currentChunk := newChunk;
          lp_chunkIndex := lp_chunkIndex st |}.

Definition chunk_loop (self : FileIngester) (path : string)
    (lines : list string) (st : ChunkLoop) : ChunkLoop :=
  fold_left (chunk_step self path) lines st.

(** "Add the last chunk if it has content". *)
Definition chunk_flush (path : string) (st : ChunkLoop) : list FileChunk :=
  if truthy (lp_currentChunk st)
  then lp_chunks st ++
         [ {| chunk_filePath := path;
              chunk_content := lp_currentChunk st;
              chunkIndex := lp_chunkIndex st;
              totalChunks := 0 |} ]
  else lp_chunks st.

(** [chunks.forEach(chunk => { chunk.totalChunks = totalChunks; })]. *)
Definition set_totalChunks (n : nat) (c : FileChunk) : FileChunk :=
  {| chunk_filePath := chunk_filePath c;
     chunk_content := chunk_content c;
     chunkIndex := chunkIndex c;
     totalChunks := n |}.

Definition chunkContent (self : FileIngester) (fileContent : FileContent)
    : list FileChunk :=
  if String.length (fc_content fileContent) <=? maxChunkSize self
  then [ {| chunk_filePath := fc_filePath fileContent;
            chunk_content := fc_content fileContent;
            chunkIndex := 0;
            totalChunks := 1 |} ]
  else
    let lines := split_lines (fc_content fileContent) in
    let st := chunk_loop self (fc_filePath fileContent) lines
                {| lp_chunks := []; lp_currentChunk := EmptyString; lp_chunkIndex := 0 |} in
    let chunks := chunk_flush (fc_filePath fileContent) st in
    map (set_totalChunks (length chunks)) chunks.

(** [chunks.map(c => c.content).join("\n")]. *)
Definition rejoin (chunks : list FileChunk) : string :=
  join_lines (map chunk_content chunks).


(** ** JSON values *)

(** Values produced by [JSON.parse] and consumed by [JSON.stringify].
    Numbers are integers; an object is the list of its entries, read with
    the first match. *)
Inductive Json : Type :=
| JNull
| JBool (b : bool)
| JNum (n : Z)
| JStr (s : string)
| JArr (items : list Json)
| JObj (fields : list (string * Json)).

Fixpoint assoc {A : Type} (k : string) (l : list (string * A)) : option A :=
  match l with
  | [] => None
  | (k', v) :: l' => if String.eqb k k' then Some v else assoc k l'
  end.

(** Property read [j.k] on a value that is not [null]: [None] is
    [undefined]. *)
Definition json_get (k : string) (j : Json) : option Json :=
  match j with
  | JObj fields => assoc k fields
  | _ => None
  end.

(** A property read at the declared type [string]. *)
Definition json_get_string (k : string) (j : Json) : option string :=
  match json_get k j with
  | Some (JStr s) => Some s
  | _ => None
  end.

(** [j.k || fallback] at the declared type [string]: an absent or empty
    value is falsy. *)
Definition json_get_truthy_string (k : string) (j : Json) : option string :=
  match json_get_string k j with
  | Some s => if truthy s then Some s else None
  | None => None
  end.

(** Decimal rendering of an integer, as in a template literal. *)
Definition string_of_Z (n : Z) : string :=
  DecimalString.NilZero.string_of_int (Z.to_int n).

(** Truthiness of a value. *)
Definition js_truthy (j : Json) : bool :=
  match j with
  | JNull => false
  | JBool b => b
  | JNum n => negb (n =? 0)%Z
  | JStr s => truthy s
  | JArr _ => true
  | JObj _ => true
  end.

(** [String(j)], which is also [`${j}`]: an array prints its items joined by
    commas, with nothing for [null]. *)
Fixpoint js_String (j : Json) : string :=
  match j with
  | JNull => "null"
  | JBool b => if b then "true" else "false"
  | JNum n => string_of_Z n
  | JStr s => s
  | JArr items =>
      (fix join (l : list Json) : string :=
         match l with
         | [] => ""
         | x :: rest =>
             match x with JNull => "" | _ => js_String x end
             +:+ match rest with [] => "" | _ :: _ => "," +:+ join rest end
         end) items
  | JObj _ => "[object Object]"
  end.

(** [s.endsWith(suffix)], [s.startsWith(prefix)] and [s.slice(n)]. *)
Definition endsWith (suffix s : string) : bool :=
  String.prefix (String.rev suffix) (String.rev s).

Definition startsWith (prefix s : string) : bool := String.prefix prefix s.

Fixpoint slice_from (n : nat) (s : string) : string :=
  match n, s with
  | O, _ => s
  | S _, EmptyString => EmptyString
  | S n', String _ r => slice_from n' r
  end.

(** ** The Node.js runtime *)

(** Library functions the sources call and whose code is not part of the
    repository. *)
Class Runtime := {
  (** [crypto.createHash("sha256").update(s).digest("hex")] *)
  sha256_hex : string -> string;
  path_resolve : string -> string;
  path_join : string -> string -> string;
  os_homedir : string;
  (** [JSON.parse]; [None] when it throws a [SyntaxError] *)
  JSON_parse : string -> option Json;
  JSON_stringify : Json -> string;
  (** [JSON.stringify(v, null, 2)] *)
  JSON_stringify_indent : Json -> string;
  (** [Number(s) > 0], the comparison of a string with zero *)
  Number_positive : string -> bool
}.

(** ** Tasks ([src/state.ts], interfaces) *)

Record ExtractedTask := {
  title : string;
  due : option string;
  tags : option (list string)
}.

Record TaskWithMeta := {
  task : ExtractedTask;
  hash : string;
  task_filePath : string;
  lineIndex : nat;
  extractedAt : string
}.

(** [processedTasks] is a [Set<string>]: a duplicate-free list in insertion
    order.  [lastModifiedTimes] is an object used as a map. *)
Record AppState := {
  lastRun : option string;
  processedTasks : list string;
  lastModifiedTimes : gmap string Z
}.

(** ** The world the program runs in *)

(** A request of [fetch]: the url, the method, the bearer token and the
    body, kept as the value that [JSON.stringify] is applied to.  The other
    headers are constants. *)
Record Request := {
  req_url : string;
  req_method : string;
  req_token : string;
  req_body : option Json
}.

(** An HTTP response: its status, what [text()] gives and what [json()]
    gives ([None] when [json()] rejects). *)
Record Response := {
  status : Z;
  resp_text : string;
  resp_json : option Json
}.

(** [response.ok]: the status is in the range 200-299. *)
Definition ok (r : Response) : bool :=
  (200 <=? status r)%Z && (status r <=? 299)%Z.

Inductive FetchOutcome :=
| Rejected (reason : string)
| Resolved (response : Response).

Record ExtractionResult := {
  er_chunk : FileChunk;
  er_tasks : list ExtractedTask
}.

(** What a run does, in order: the requests it sends with their outcomes,
    its pauses, the hand-off of chunks to the extractor, the saves of the
    state file, and the two calls of the state manager that the properties
    below speak about ([updateFileModifiedTime] and [markTaskProcessed]). *)
Inductive Event :=
| EvFetch (req : Request) (out : FetchOutcome)
| EvSleep (ms : Z)
| EvWatermark (path : string) (mtime : Z)
| EvMarkProcessed (h : string)
| EvExtract (chunks : list FileChunk)
| EvSave (content : string).

(** The result of a computation that may throw. *)
Inductive Result (A : Type) :=
| Ok (a : A)
| Throw (message : string).
Arguments Ok {A} a.
Arguments Throw {A} message.

Record Stats := { mtimeMs : Z; isDirectory : bool }.

(** The environment of a run: the inbox directory as the [fs] module sees
    it ([None] is a thrown error), the two network services, the clock.  The
    network services and the clock may answer differently as the run goes on:
    they see the events so far.  [extractTasksFromChunks] and
    [extractor_healthCheck] stand for [taskExtractor] of [./extractor] as the
    runner sees it; the extractor itself is embedded in [TaskExtractor]
    below.  [settle_order] is the order in which the event loop resumes the
    calls that a [Promise.all] waits for: the positions, in the array of
    promises, of the calls that go on one step, one after the other; it
    depends on when the responses arrive, which the program does not
    control. *)
Class Env := {
  existsSync : string -> bool;
  statSync : string -> option Stats;
  readdirSync : string -> option (list string);
  readFileSync : string -> option string;
  stateFile_writable : bool;
  server : list Event -> Request -> FetchOutcome;
  extractTasksFromChunks :
    list Event -> list FileChunk -> string -> string -> Result (list ExtractionResult);
  extractor_healthCheck : list Event -> string -> string -> Result (bool * string);
  Date_now : list Event -> Z;
  Date_toISOString : list Event -> string;
  settle_order : list Event -> list nat
}.

(** The file [state.json]: absent, present but failing to be read, or
    present with a content. *)
Inductive DiskFile :=
| Missing
| Unreadable
| Content (s : string).

(** What a run can change: the state manager's [state] field, the state file
    and the events so far. *)
Record World := {
  w_state : AppState;
  w_ledger : DiskFile;
  w_trace : list Event
}.

(** ** Computations: state and exceptions *)

Definition M (A : Type) : Type := World -> Result A * World.

Definition ret {A : Type} (a : A) : M A := fun w => (Ok a, w).

Definition throw {A : Type} (message : string) : M A := fun w => (Throw message, w).

Definition bind {A B : Type} (m : M A) (k : A -> M B) : M B :=
  fun w =>
    match m w with
    | (Ok a, w') => k a w'
    | (Throw e, w') => (Throw e, w')
    end.

(** [try { m } catch (error) { handler(getErrorMessage(error)) }]: what [m]
    did before it threw stays done. *)
Definition try_catch {A : Type} (m : M A) (handler : string -> M A) : M A :=
  fun w =>
    match m w with
    | (Ok a, w') => (Ok a, w')
    | (Throw e, w') => handler e w'
    end.

Notation "'let*' x ':=' m 'in' k" := (bind m (fun x => k))
  (at level 10, x name, m at level 100, k at level 200).
Notation "m ';;' k" := (bind m (fun _ => k))
  (at level 100, k at level 200, right associativity).

Definition gets {A : Type} (f : World -> A) : M A := fun w => (Ok (f w), w).

Definition modify_state (f : AppState -> AppState) : M unit :=
  fun w => (Ok tt, {| w_state := f (w_state w);
                      w_ledger := w_ledger w;
                      w_trace := w_trace w |}).

Definition emit (e : Event) : M unit :=
  fun w => (Ok tt, {| w_state := w_state w;
                      w_ledger := w_ledger w;
                      w_trace := w_trace w ++ [e] |}).

Definition write_ledger (content : string) : M unit :=
  fun w => (Ok tt, {| w_state := w_state w;
                      w_ledger := Content content;
                      w_trace := w_trace w |}).

(** [await new Promise(resolve => setTimeout(resolve, ms))]. *)
Definition sleep (ms : Z) : M unit := emit (EvSleep ms).

(** ** Calls that run together *)

(** An [async] function whose effects are requests, pauses and readings of
    the clock, as the tree of what it awaits: it has a result, or it waits
    for the outcome of a request, or for a pause to end, or it reads the
    clock and goes on.  Between two such points nothing else runs; at each
    of them another call may go on first. *)
Inductive Async (A : Type) : Type :=
| Resolve (a : A)
| Fetch (req : Request) (k : FetchOutcome -> Async A)
| Pause (ms : Z) (k : Async A)
| Now (k : list Event -> Async A).
Arguments Resolve {A} a.
Arguments Fetch {A} req k.
Arguments Pause {A} ms k.
Arguments Now {A} k.

Fixpoint async_bind {A B : Type} (t : Async A) (f : A -> Async B) : Async B :=
  match t with
  | Resolve a => f a
  | Fetch req k => Fetch req (fun out => async_bind (k out) f)
  | Pause ms k => Pause ms (async_bind k f)
  | Now k => Now (fun trace => async_bind (k trace) f)
  end.

(** A call whose result may be an exception: the rest of a [try] block
    after an [await], and its [catch]. *)
Definition async_try {A B : Type} (t : Async (Result A))
    (f : A -> Async (Result B)) : Async (Result B) :=
  async_bind t (fun r => match r with
                         | Ok a => f a
                         | Throw e => Resolve (Throw e)
                         end).

Definition async_catch {A : Type} (t : Async (Result A)) (handler : string -> Async A)
    : Async A :=
  async_bind t (fun r => match r with
                         | Ok a => Resolve a
                         | Throw e => handler e
                         end).

Section Scheduling.

Context {env : Env}.

(** The part of a call that runs at once, up to the next point where it
    waits: reading the clock does not suspend it. *)
Fixpoint resume {A : Type} (t : Async A) (trace : list Event) : Async A :=
  match t with
  | Now k => resume (k trace) trace
  | _ => t
  end.

(** One step of a call that waits: what it waits for happens, and the call
    goes on up to the next point where it waits. *)
Definition advance {A : Type} (t : Async A) : World -> Async A * World :=
  fun w =>
    match t with
    | Resolve a => (Resolve a, w)
    | Fetch req k =>
        let out := server (w_trace w) req in
        let trace := w_trace w ++ [EvFetch req out] in
        (resume (k out) trace,
         {| w_state := w_state w; w_ledger := w_ledger w; w_trace := trace |})
    | Pause ms k =>
        let trace := w_trace w ++ [EvSleep ms] in
        (resume k trace,
         {| w_state := w_state w; w_ledger := w_ledger w; w_trace := trace |})
    | Now k => (resume (k (w_trace w)) (w_trace w), w)
    end.

(** [await t], when nothing else is running: the call goes on to its
    end. *)
Fixpoint await {A : Type} (t : Async A) (w : World) : A * World :=
  match t with
  | Resolve a => (a, w)
  | Fetch req k =>
      let out := server (w_trace w) req in
      await (k out) {| w_state := w_state w;
                       w_ledger := w_ledger w;
                       w_trace := w_trace w ++ [EvFetch req out] |}
  | Pause ms k =>
      await k {| w_state := w_state w;
                 w_ledger := w_ledger w;
                 w_trace := w_trace w ++ [EvSleep ms] |}
  | Now k => await (k (w_trace w)) w
  end.

Fixpoint await_each {A : Type} (pending : list (Async A)) (w : World)
    : list A * World :=
  match pending with
  | [] => ([], w)
  | t :: rest =>
      let (a, w1) := await t w in
      let (others, w2) := await_each rest w1 in
      (a :: others, w2)
  end.

(** The calls of [pending] have all been started, and wait.  They go on one
    step at a time in the given order, a position counting modulo the number
    of calls; at the end of the order, those that are not finished are
    finished one after the other.  The results are in the order of
    [pending]. *)
Fixpoint settle {A : Type} (order : list nat) (pending : list (Async A))
    (w : World) : list A * World :=
  match order with
  | [] => await_each pending w
  | i :: order' =>
      let position := i mod length pending in
      match pending !! position with
      | Some t =>
          let (t', w') := advance t w in
          settle order' (<[position := t']> pending) w'
      | None => settle order' pending w
      end
  end.

(** [await Promise.all(calls.map(start))], for calls that never reject:
    every call is started and runs up to the first point where it waits,
    before any of them goes on. *)
Definition Promise_all {A : Type} (calls : list (Async A)) : M (list A) :=
  fun w =>
    let pending := map (fun t => resume t (w_trace w)) calls in
    let (results, w') := settle (settle_order (w_trace w)) pending w in
    (Ok results, w').

End Scheduling.

(** ** [src/state.ts]: the state manager *)

Section StateManager.

Context {rt : Runtime} {env : Env}.

(** [new Set<string>(array)] and [set.add(x)]. *)
Definition set_add (x : string) (s : list string) : list string :=
  if bool_decide (x ∈ s) then s else s ++ [x].

Definition new_Set (items : list string) : list string :=
  fold_left (fun s x => set_add x s) items [].

(** The state used when nothing can be loaded. *)
Definition default_state : AppState :=
  {| lastRun := None; processedTasks := []; lastModifiedTimes := ∅ |}.

(** The entries of a parsed array, read at the declared type [string]. *)
Definition json_strings (items : list Json) : list string :=
  omap (fun j => match j with JStr s => Some s | _ => None end) items.

(** The entries of a parsed object, read at the declared type [number]. *)
Definition json_numbers (fields : list (string * Json)) : gmap string Z :=
  list_to_map
    (omap (fun kv => match snd kv with JNum n => Some (fst kv, n) | _ => None end)
       fields).

(** [loadState]: every failure inside the [try] block (the file cannot be
    read, [JSON.parse] throws, the parsed value is [null]) ends in the
    default state.  The fields of the parsed value are read at the types that
    [AppState] declares; an entry of another type is left out. *)
Definition loadState (file : DiskFile) : AppState :=
  match file with
  | Missing => default_state
  | Unreadable => default_state
  | Content content =>
      match JSON_parse content with
      | None => default_state
      | Some JNull => default_state
      | Some parsed =>
          {| lastRun := json_get_truthy_string "lastRun" parsed;
             processedTasks :=
               match json_get "processedTasks" parsed with
               | Some (JArr items) => new_Set (json_strings items)
               | _ => []
               end;
             lastModifiedTimes :=
               match json_get "lastModifiedTimes" parsed with
               | Some (JObj fields) => json_numbers fields
               | _ => ∅
               end |}
      end
  end.

(** [new StateManager()]: the constructor loads the state file. *)
Definition new_StateManager (file : DiskFile) (trace : list Event) : World :=
  {| w_state := loadState file; w_ledger := file; w_trace := trace |}.

Definition serialisableState (s : AppState) : Json :=
  JObj [ ("lastRun", match lastRun s with Some t => JStr t | None => JNull end);
         ("processedTasks", JArr (map JStr (processedTasks s)));
         ("lastModifiedTimes",
          JObj (map (fun kv => (fst kv, JNum (snd kv)))
                  (map_to_list (lastModifiedTimes s)))) ].

(** [saveState]: rewrites the whole file, or throws. *)
Definition saveState : M unit :=
  if stateFile_writable then
    let* s := gets w_state in
    let content := JSON_stringify_indent (serialisableState s) in
    write_ledger content ;;
    emit (EvSave content)
  else throw "Failed to save state".

Definition generateTaskHash (t : ExtractedTask) (filePath : string)
    (lineIndex : nat) : string :=
  let hashInput :=
    JSON_stringify
      (JObj [ ("title", JStr (toLowerCase (trim (title t))));
              ("filePath", JStr (path_resolve filePath));
              ("lineIndex", JNum (Z.of_nat lineIndex)) ]) in
  substring0 16 (sha256_hex hashInput).

Definition isTaskProcessed (s : AppState) (h : string) : bool :=
  bool_decide (h ∈ processedTasks s).

Definition markTaskProcessed (h : string) : M unit :=
  emit (EvMarkProcessed h) ;;
  modify_state (fun s =>
    {| lastRun := lastRun s;
       processedTasks := set_add h (processedTasks s);
       lastModifiedTimes := lastModifiedTimes s |}).

(** [isFileModified]: [!lastMtime] holds for a missing entry and for 0. *)
Definition isFileModified (s : AppState) (filePath : string) : bool :=
  match statSync filePath with
  | None => true
  | Some stats =>
      match lastModifiedTimes s !! filePath with
      | None => true
      | Some lastMtime =>
          if (lastMtime =? 0)%Z then true
          else (lastMtime <? mtimeMs stats)%Z
      end
  end.

Definition updateFileModifiedTime (filePath : string) : M unit :=
  match statSync filePath with
  | None => ret tt
  | Some stats =>
      emit (EvWatermark filePath (mtimeMs stats)) ;;
      modify_state (fun s =>
        {| lastRun := lastRun s;
           processedTasks := processedTasks s;
           lastModifiedTimes := <[filePath := mtimeMs stats]> (lastModifiedTimes s) |})
  end.

Definition getLastRun (s : AppState) : option string := lastRun s.

Definition updateLastRun : M unit :=
  let* now := gets (fun w => Date_toISOString (w_trace w)) in
  modify_state (fun s =>
    {| lastRun := Some now;
       processedTasks := processedTasks s;
       lastModifiedTimes := lastModifiedTimes s |}) ;;
  saveState.

Definition getProcessedTaskCount (s : AppState) : nat :=
  length (processedTasks s).

(** [array.slice(start)] for an integer [start]: a negative [start] counts
    from the end, and [-0] is [0]. *)
Definition slice {A : Type} (start : Z) (l : list A) : list A :=
  let len := Z.of_nat (length l) in
  let k := if (start <? 0)%Z then Z.max (len + start) 0 else Z.min start len in
  drop (Z.to_nat k) l.

(** [Math.floor(maxEntries * 0.8)] for an integer [maxEntries] (the double
    product rounds to the same integer for every count below 2^50). *)
Definition keep_count (maxEntries : Z) : Z := (4 * maxEntries / 5)%Z.

Definition thirtyDays : Z := 30 * 24 * 60 * 60 * 1000.

(** The entries of [lastModifiedTimes] that [cleanup] deletes. *)
Definition is_stale (thirtyDaysAgo : Z) (kv : string * Z) : Prop :=
  (snd kv < thirtyDaysAgo)%Z.

#[local] Instance is_stale_dec (cutoff : Z) (kv : string * Z) :
  Decision (is_stale cutoff kv).
Proof. unfold is_stale. apply _. Defined.

Definition cleanup (maxEntries : Z) : M unit :=
  let* s := gets w_state in
  let trim_tasks := (maxEntries <? Z.of_nat (length (processedTasks s)))%Z in
  let keepTasks :=
    if trim_tasks
    then new_Set (slice (- keep_count maxEntries) (processedTasks s))
    else processedTasks s in
  let* now := gets (fun w => Date_now (w_trace w)) in
  let thirtyDaysAgo := (now - thirtyDays)%Z in
  let filesToRemove := filter (is_stale thirtyDaysAgo) (lastModifiedTimes s) in
  modify_state (fun s =>
    {| lastRun := lastRun s;
       processedTasks := keepTasks;
       lastModifiedTimes :=
         filter (fun kv => ~ is_stale thirtyDaysAgo kv) (lastModifiedTimes s) |}) ;;
  let needsSave := trim_tasks || negb (bool_decide (filesToRemove = ∅)) in
  if needsSave then saveState else ret tt.

(** [cleanup()] with its default argument. *)
Definition cleanup_default : M unit := cleanup 10000.

End StateManager.

(** ** [src/ingest.ts]: reading the inbox *)

Section Ingest.

Context {rt : Runtime} {env : Env}.

Definition expandPath (filePath : string) : string :=
  if startsWith "~/" filePath
  then path_join os_homedir (slice_from 2 filePath)
  else filePath.

(** [scanDirectory]: the errors are logged and thrown again. *)
Definition scanDirectory (dirPath : string) : M (list string) :=
  let expandedPath := expandPath dirPath in
  if negb (existsSync expandedPath)
  then throw ("Directory does not exist: " +:+ expandedPath)
  else
    match statSync expandedPath with
    | None => throw "statSync failed"
    | Some stats =>
        if negb (isDirectory stats)
        then throw ("Path is not a directory: " +:+ expandedPath)
        else
          match readdirSync expandedPath with
          | None => throw "readdirSync failed"
          | Some files =>
              ret (map (path_join expandedPath)
                     (List.filter (endsWith ".md") files))
          end
    end.

(** One iteration of the loop of [readFiles]: a file that cannot be
    stat'ed or read is skipped, and so is an unmodified one. *)
Definition readFile (s : AppState) (filePath : string) : option FileContent :=
  match statSync filePath with
  | None => None
  | Some stats =>
      if negb (isFileModified s filePath) then None
      else
        match readFileSync filePath with
        | None => None
        | Some content =>
            Some {| fc_filePath := filePath;
                    fc_content := content;
                    fc_modifiedTime := mtimeMs stats;
                    fc_isModified := true |}
        end
  end.

Definition readFiles (filePaths : list string) : M (list FileContent) :=
  let* s := gets w_state in
  ret (omap (readFile s) filePaths).

(** The loop of [ingestFiles]: chunk a file, then record its watermark. *)
Fixpoint ingest_loop (self : FileIngester) (fileContents : list FileContent)
    (allChunks : list FileChunk) : M (list FileChunk) :=
  match fileContents with
  | [] => ret allChunks
  | fileContent :: rest =>
      let chunks := chunkContent self fileContent in
      updateFileModifiedTime (fc_filePath fileContent) ;;
      ingest_loop self rest (allChunks ++ chunks)
  end.

Definition ingestFiles (self : FileIngester) (dirPath : string)
    : M (list FileChunk) :=
  let* filePaths := scanDirectory dirPath in
  if (length filePaths =? 0) then ret []
  else
    let* fileContents := readFiles filePaths in
    if (length fileContents =? 0) then ret []
    else ingest_loop self fileContents [].

(** [healthCheck] of the ingester: the pair (healthy, message). *)
Definition ingest_healthCheck (dirPath : string) : bool * string :=
  let expandedPath := expandPath dirPath in
  if negb (existsSync expandedPath)
  then (false, "Directory does not exist: " +:+ expandedPath)
  else
    match statSync expandedPath with
    | None => (false, "Directory access error")
    | Some stats =>
        if negb (isDirectory stats)
        then (false, "Path is not a directory: " +:+ expandedPath)
        else
          match readdirSync expandedPath with
          | None => (false, "Directory access error")
          | Some _ => (true, "Directory accessible: " +:+ expandedPath)
          end
    end.

End Ingest.

(** ** [src/notion.ts]: the Notion client *)

Record NotionSyncResult := {
  success : bool;
  pageId : option string;
  pageUrl : option string;
  error : option string
}.

Section NotionClient.

Context {rt : Runtime} {env : Env}.

Definition baseUrl : string := "https://api.notion.com/v1".

Definition createRichText (content : string) : Json :=
  JObj [ ("rich_text",
          JArr [ JObj [ ("text", JObj [ ("content", JStr (substring0 2000 content)) ]) ] ]) ].

Definition createTitle (content : string) : Json :=
  JObj [ ("title",
          JArr [ JObj [ ("text", JObj [ ("content", JStr (substring0 2000 content)) ]) ] ]) ].

Definition createDate (dateString : string) : Json :=
  JObj [ ("date", JObj [ ("start", JStr dateString) ]) ].

Definition createStatus (value : string) : Json :=
  JObj [ ("status", JObj [ ("name", JStr value) ]) ].

Definition createMultiSelect (values : list string) : Json :=
  JObj [ ("multi_select", JArr (map (fun v => JObj [ ("name", JStr v) ]) values)) ].

Definition buildPageProperties (t : TaskWithMeta) : Json :=
  JObj ([ ("Name", createTitle (title (task t)));
          ("Status", createStatus "Not started");
          ("Task ID", createRichText (hash t));
          ("Captured From", createRichText "Brain Dump") ]
        ++ match due (task t) with
           | Some d => if truthy d then [ ("Due Date", createDate d) ] else []
           | None => []
           end
        ++ match tags (task t) with
           | Some (tag :: more) => [ ("Tags", createMultiSelect (tag :: more)) ]
           | _ => []
           end).

(** [await fetch(url, ...)]: the request goes out, and a rejected promise
    throws. *)
Definition fetch (req : Request) : M Response :=
  fun w =>
    let out := server (w_trace w) req in
    let w' := {| w_state := w_state w;
                 w_ledger := w_ledger w;
                 w_trace := w_trace w ++ [EvFetch req out] |} in
    match out with
    | Rejected reason => (Throw reason, w')
    | Resolved response => (Ok response, w')
    end.

(** The message of the error thrown for a response that is not ok:
    [errorJson.message || errorMessage] when the body parses, printed by the
    template literal of the [throw]; [errorBody || errorMessage] when
    [JSON.parse] throws, or when reading [message] does (the body is
    [null]). *)
Definition errorMessage (response : Response) : string :=
  let http := "HTTP " +:+ string_of_Z (status response) in
  let errorBody := resp_text response in
  let fallback := if truthy errorBody then errorBody else http in
  match JSON_parse errorBody with
  | None => fallback
  | Some JNull => fallback
  | Some errorJson =>
      match json_get "message" errorJson with
      | Some message => if js_truthy message then js_String message else http
      | None => http
      end
  end.

Definition notion_request (token endpoint method : string) (body : option Json)
    : Request :=
  {| req_url := baseUrl +:+ endpoint;
     req_method := method;
     req_token := token;
     req_body := body |}.

(** [callNotion]: one request, repeated after a pause on a 429 while
    [attempt <= 3] and on a status of 500 or more while [attempt <= 2]. *)
Equations? callNotion (token endpoint method : string) (body : option Json)
    (attempt : nat) (w : World) : Result Json * World by wf (4 - attempt) lt :=
callNotion token endpoint method body attempt w
  with fetch (notion_request token endpoint method body) w => {
  | (Throw e, w1) => (Throw e, w1);
  | (Ok response, w1) with ok response => {
    | true with resp_json response => {
      | Some j => (Ok j, w1);
      | None => (Throw "response.json() failed", w1) };
    | false with decide (status response = 429%Z /\ attempt <= 3) => {
      | left _ with sleep (2 ^ Z.of_nat attempt * 1000) w1 => {
        | (_, w2) => callNotion token endpoint method body (S attempt) w2 };
      | right _ with decide ((500 <= status response)%Z /\ attempt <= 2) => {
        | left _ with sleep (Z.of_nat attempt * 2000) w1 => {
          | (_, w2) => callNotion token endpoint method body (S attempt) w2 };
        | right _ => (Throw ("Notion API error: " +:+ errorMessage response), w1) } } } }.
Proof. all: lia. Qed.

Definition query_endpoint (databaseId : string) : string :=
  "/databases/" +:+ databaseId +:+ "/query".

Definition searchBody (taskHash : string) : Json :=
  JObj [ ("filter",
          JObj [ ("property", JStr "Task ID");
                 ("rich_text", JObj [ ("equals", JStr taskHash) ]) ]) ].

(** [v > 0] for a value [v]: the value as a number, compared with zero; an
    array is compared as the string it prints to, and [undefined] ([None])
    and an object are not numbers. *)
Definition js_positive (v : option Json) : bool :=
  match v with
  | None => false
  | Some JNull => false
  | Some (JBool b) => b
  | Some (JNum n) => (0 <? n)%Z
  | Some (JStr s) => Number_positive s
  | Some (JArr items) => Number_positive (js_String (JArr items))
  | Some (JObj _) => false
  end.

(** [v.length], for a value [v] that is neither [null] nor [undefined]. *)
Definition js_length (v : Json) : option Json :=
  match v with
  | JStr s => Some (JNum (Z.of_nat (String.length s)))
  | JArr items => Some (JNum (Z.of_nat (length items)))
  | JObj fields => assoc "length" fields
  | _ => None
  end.

(** [response.results && response.results.length > 0], as a condition:
    reading [results] of [null] throws. *)
Definition results_found (response : Json) : Result bool :=
  match response with
  | JNull => Throw "Cannot read properties of null"
  | _ =>
      match json_get "results" response with
      | Some results =>
          if js_truthy results then Ok (js_positive (js_length results))
          else Ok false
      | None => Ok false
      end
  end.

Definition has_results (response : Json) : M bool :=
  fun w => (results_found response, w).

Definition taskExists (token databaseId taskHash : string) : M bool :=
  try_catch
    (let* response :=
       callNotion token (query_endpoint databaseId) "POST"
         (Some (searchBody taskHash)) 1 in
     has_results response)
    (fun _ => ret false).

Definition pageData (databaseId : string) (t : TaskWithMeta) : Json :=
  JObj [ ("parent", JObj [ ("database_id", JStr databaseId) ]);
         ("properties", buildPageProperties t) ].

(** The result returned for a task that is already in the database. *)
Definition existing : NotionSyncResult :=
  {| success := true;
     pageId := Some "existing";
     pageUrl := Some "existing";
     error := None |}.

Definition createTask (token databaseId : string) (t : TaskWithMeta)
    : M NotionSyncResult :=
  try_catch
    (let* exists_ := taskExists token databaseId (hash t) in
     if exists_ then ret existing
     else
       let* response :=
         callNotion token "/pages" "POST" (Some (pageData databaseId t)) 1 in
       match response with
       | JNull => throw "Cannot read properties of null"
       | _ =>
           ret {| success := true;
                  pageId := json_get_string "id" response;
                  pageUrl := json_get_string "url" response;
                  error := None |}
       end)
    (fun e =>
       ret {| success := false; pageId := None; pageUrl := None; error := Some e |}).

(** *** The calls of one batch *)

(** [callNotion], [taskExists] and [createTask] as calls that can be
    suspended: the same code, with its [await]s kept as the points where
    other calls may go on.  A request and its outcome are one step; the order
    of these steps among the calls of a batch is the order in which the
    service answers.  A call that runs alone is the function above
    ([callNotion_alone], [taskExists_alone] and [createTask_alone]
    below). *)
Equations? callNotion_async (token endpoint method : string) (body : option Json)
    (attempt : nat) : Async (Result Json) by wf (4 - attempt) lt :=
callNotion_async token endpoint method body attempt :=
  Fetch (notion_request token endpoint method body)
    (fun out =>
       match out with
       | Rejected reason => Resolve (Throw reason)
       | Resolved response =>
           if ok response
           then Resolve (match resp_json response with
                         | Some j => Ok j
                         | None => Throw "response.json() failed"
                         end)
           else
             match decide (status response = 429%Z /\ attempt <= 3) with
             | left _ =>
                 Pause (2 ^ Z.of_nat attempt * 1000)
                   (callNotion_async token endpoint method body (S attempt))
             | right _ =>
                 match decide ((500 <= status response)%Z /\ attempt <= 2) with
                 | left _ =>
                     Pause (Z.of_nat attempt * 2000)
                       (callNotion_async token endpoint method body (S attempt))
                 | right _ =>
                     Resolve (Throw ("Notion API error: " +:+ errorMessage response))
                 end
             end
       end).
Proof. all: lia. Qed.

Definition taskExists_async (token databaseId taskHash : string) : Async bool :=
  async_bind
    (callNotion_async token (query_endpoint databaseId) "POST"
       (Some (searchBody taskHash)) 1)
    (fun response =>
       Resolve (match response with
                | Ok response =>
                    match results_found response with
                    | Ok found => found
                    | Throw _ => false
                    end
                | Throw _ => false
                end)).

Definition createTask_async (token databaseId : string) (t : TaskWithMeta)
    : Async NotionSyncResult :=
  async_bind (taskExists_async token databaseId (hash t))
    (fun exists_ =>
       if exists_ then Resolve existing
       else
         async_bind
           (callNotion_async token "/pages" "POST" (Some (pageData databaseId t)) 1)
           (fun response =>
              Resolve
                (match response with
                 | Ok JNull =>
                     {| success := false; pageId := None; pageUrl := None;
                        error := Some "Cannot read properties of null" |}
                 | Ok response =>
                     {| success := true;
                        pageId := json_get_string "id" response;
                        pageUrl := json_get_string "url" response;
                        error := None |}
                 | Throw e =>
                     {| success := false; pageId := None; pageUrl := None;
                        error := Some e |}
                 end))).

(** [batch.map(task => this.createTask(...))] and [Promise.all]: the calls of
    one batch are started together, and go on as the responses arrive. *)
Definition createTasks (token databaseId : string) (batch : list TaskWithMeta)
    : M (list NotionSyncResult) :=
  Promise_all (map (createTask_async token databaseId) batch).

(** The loop of [syncTasks]; [tasks] is what is left from index [i] on.
    [maxConcurrency] is positive: with 0 the loop of the source never
    ends. *)
Equations? syncTasks_loop (token databaseId : string) (maxConcurrency : positive)
    (tasks : list TaskWithMeta) (results : list NotionSyncResult) (w : World)
    : Result (list NotionSyncResult) * World by wf (length tasks) lt :=
syncTasks_loop token databaseId maxConcurrency [] results w := (Ok results, w);
syncTasks_loop token databaseId maxConcurrency (t :: ts) results w
  with createTasks token databaseId (take (Pos.to_nat maxConcurrency) (t :: ts)) w => {
  | (Throw e, w1) => (Throw e, w1);
  | (Ok batchResults, w1)
      with drop (Pos.to_nat maxConcurrency) (t :: ts) => {
    | [] => (Ok (results ++ batchResults), w1);
    | t' :: ts' with sleep 1000 w1 => {
      | (_, w2) =>
          syncTasks_loop token databaseId maxConcurrency
            (drop (Pos.to_nat maxConcurrency) (t :: ts)) (results ++ batchResults) w2 } } }.
Proof.
  rewrite length_drop. simpl. lia.
Qed.

Definition syncTasks (token databaseId : string) (tasks : list TaskWithMeta)
    (maxConcurrency : positive) : M (list NotionSyncResult) :=
  syncTasks_loop token databaseId maxConcurrency tasks [].

Definition requiredProperties : list string :=
  [ "Name"; "Status"; "Due Date"; "Tags"; "Task ID"; "Captured From" ].

(** [healthCheck] of the client: the pair (healthy, message). *)
Definition notion_healthCheck (token databaseId : string) : M (bool * string) :=
  try_catch
    (let* database := callNotion token ("/databases/" +:+ databaseId) "GET" None 1 in
     match database with
     | JNull => throw "Cannot read properties of null"
     | _ =>
         let existingProperties :=
           match json_get "properties" database with
           | Some (JObj fields) => map fst fields
           | _ => []
           end in
         let missingProperties :=
           List.filter (fun p => negb (bool_decide (p ∈ existingProperties)))
             requiredProperties in
         if negb (length missingProperties =? 0)
         then ret (false,
                   "Missing required database properties: "
                   +:+ join_with ", " missingProperties
                   +:+ ". Please ensure your Notion database has these columns: "
                   +:+ "Name (title), Status (select), Due Date (date), "
                   +:+ "Tags (multi-select), Task ID (rich text), "
                   +:+ "Captured From (rich text)")
         else
           callNotion token (query_endpoint databaseId) "POST"
             (Some (JObj [ ("page_size", JNum 1) ])) 1 ;;
           ret (true, "Notion database accessible with required properties")
     end)
    (fun e => ret (false, "Notion API error: " +:+ e)).

End NotionClient.

(** ** [src/runner-hourly.ts]: the hourly run *)

Record Preferences := {
  inboxDir : string;
  openaiKey : string;
  openaiModel : string;
  notionToken : string;
  notionDbId : string;
  enableScheduled : bool
}.

Section Runner.

Context {rt : Runtime} {env : Env}.

(** [taskExtractor.extractTasksFromChunks(chunks, key, model)]: the chunks
    are handed to the extractor. *)
Definition extract (chunks : list FileChunk) (key model : string)
    : M (list ExtractionResult) :=
  emit (EvExtract chunks) ;;
  fun w => (extractTasksFromChunks (w_trace w) chunks key model, w).

Definition configuration_issues (preferences : Preferences) : list string :=
  (if truthy (inboxDir preferences) then [] else ["Inbox directory not configured"])
  ++ (if truthy (openaiKey preferences) then [] else ["OpenAI API key not configured"])
  ++ (if truthy (openaiModel preferences) then [] else ["OpenAI model not configured"])
  ++ (if truthy (notionToken preferences) then [] else ["Notion token not configured"])
  ++ (if truthy (notionDbId preferences) then [] else ["Notion database ID not configured"]).

(** [performHealthChecks]: the pair (allHealthy, issues). *)
Definition performHealthChecks (preferences : Preferences) : M (bool * list string) :=
  let issues := configuration_issues preferences in
  if negb (length issues =? 0) then ret (false, issues)
  else
    let fileSystemCheck := ingest_healthCheck (inboxDir preferences) in
    let issues1 :=
      if fst fileSystemCheck then []
      else ["File system: " +:+ snd fileSystemCheck] in
    let* issues2 :=
      gets (fun w =>
        match extractor_healthCheck (w_trace w)
                (openaiKey preferences) (openaiModel preferences) with
        | Ok (true, _) => []
        | Ok (false, message) => ["OpenAI: " +:+ message]
        | Throw e => ["OpenAI: " +:+ e]
        end) in
    let* issues3 :=
      try_catch
        (let* notionCheck :=
           notion_healthCheck (notionToken preferences) (notionDbId preferences) in
         ret (if fst notionCheck then [] else ["Notion: " +:+ snd notionCheck]))
        (fun e => ret ["Notion: " +:+ e]) in
    let all := issues1 ++ issues2 ++ issues3 in
    ret (length all =? 0, all).

(** The inner loop of "Flatten and deduplicate tasks", for one extraction
    result, from index [i] on. *)
Fixpoint collect_tasks (s : AppState) (now : string) (filePath : string)
    (tasks : list ExtractedTask) (i : nat) : list TaskWithMeta :=
  match tasks with
  | [] => []
  | t :: rest =>
      let h := generateTaskHash t filePath i in
      if isTaskProcessed s h then collect_tasks s now filePath rest (S i)
      else {| task := t; hash := h; task_filePath := filePath;
              lineIndex := i; extractedAt := now |}
           :: collect_tasks s now filePath rest (S i)
  end.

Definition collect_all (s : AppState) (now : string)
    (extractionResults : list ExtractionResult) : list TaskWithMeta :=
  concat (map (fun result =>
                 collect_tasks s now (chunk_filePath (er_chunk result))
                   (er_tasks result) 0)
            extractionResults).

(** "Mark successfully synced tasks as processed": the loop over
    [syncResults], from index [i] on. *)
Fixpoint mark_synced (allTasks : list TaskWithMeta)
    (syncResults : list NotionSyncResult) (i : nat) : M unit :=
  match syncResults with
  | [] => ret tt
  | result :: rest =>
      (if success result
       then match allTasks !! i with
            | Some t => markTaskProcessed (hash t)
            | None => throw "Cannot read properties of undefined"
            end
       else ret tt) ;;
      mark_synced allTasks rest (S i)
  end.

(** The part of [Command] that follows the extraction. *)
Definition sync_extracted (preferences : Preferences)
    (extractionResults : list ExtractionResult) : M unit :=
  let* s := gets w_state in
  let* now := gets (fun w => Date_toISOString (w_trace w)) in
  let allTasks := collect_all s now extractionResults in
  if (length allTasks =? 0) then updateLastRun
  else
    let* syncResults :=
      syncTasks (notionToken preferences) (notionDbId preferences) allTasks 3 in
    mark_synced allTasks syncResults 0 ;;
    cleanup_default ;;
    updateLastRun.

(** The part of [Command] that follows the health checks. *)
Definition run_sync (preferences : Preferences) : M unit :=
  let* chunks := ingestFiles fileIngester (inboxDir preferences) in
  if (length chunks =? 0) then updateLastRun
  else
    let* extractionResults :=
      extract chunks (openaiKey preferences) (openaiModel preferences) in
    sync_extracted preferences extractionResults.

(** [Command]: the preferences are its input; [clearSearchBar] does not
    touch anything modelled here. *)
Definition Command (preferences : Preferences) : M unit :=
  try_catch
    (if negb (enableScheduled preferences) then ret tt
     else
       let* healthResults := performHealthChecks preferences in
       if negb (fst healthResults) then ret tt
       else run_sync preferences)
    (fun _ => ret tt).

End Runner.

(** ** Test doubles

    Stand-ins for the runtime and the environment, in the manner of the
    mocks of [__tests__]: the examples below are evaluated with them. *)

Module Mock.

Definition dquote : string := String (Ascii.ascii_of_nat 34) EmptyString.

Definition quote (s : string) : string := dquote +:+ s +:+ dquote.

(** A compact [JSON.stringify] for values whose strings need no escape. *)
Fixpoint stringify (j : Json) : string :=
  match j with
  | JNull => "null"
  | JBool b => if b then "true" else "false"
  | JNum n => string_of_Z n
  | JStr s => quote s
  | JArr items =>
      "[" +:+ (fix go (l : list Json) : string :=
                 match l with
                 | [] => ""
                 | x :: l' =>
                     stringify x +:+ match l' with [] => "" | _ :: _ => "," +:+ go l' end
                 end) items +:+ "]"
  | JObj fields =>
      "{" +:+ (fix go (l : list (string * Json)) : string :=
                 match l with
                 | [] => ""
                 | (k, v) :: l' =>
                     quote k +:+ ":" +:+ stringify v
                     +:+ match l' with [] => "" | _ :: _ => "," +:+ go l' end
                 end) fields +:+ "}"
  end.

(** A ledger and an error body, as values. *)
Definition ledger_json : Json :=
  JObj [ ("lastRun", JStr "2025-08-15T10:00:00Z");
         ("processedTasks", JArr [JStr "a"; JStr "b"]) ].

Definition rate_limit_error : Json :=
  JObj [ ("object", JStr "error"); ("status", JNum 429);
         ("message", JStr "Rate limited") ].

(** A parser that knows the texts of these two values, the empty object
    and [null], and rejects everything else. *)
Definition parse (s : string) : option Json :=
  if String.eqb s "{}" then Some (JObj [])
  else if String.eqb s "null" then Some JNull
  else if String.eqb s (stringify ledger_json) then Some ledger_json
  else if String.eqb s (stringify rate_limit_error) then Some rate_limit_error
  else None.

(** [Number(s) > 0] for the strings that are decimal integers. *)
Definition positive_number (s : string) : bool :=
  match DecimalString.NilZero.int_of_string s with
  | Some i => (0 <? Z.of_int i)%Z
  | None => false
  end.

#[export] Instance runtime : Runtime := {|
  sha256_hex := String.rev;
  path_resolve := fun p => p;
  path_join := fun a b => a +:+ "/" +:+ b;
  os_homedir := "/Users/test";
  JSON_parse := parse;
  JSON_stringify := stringify;
  JSON_stringify_indent := stringify;
  Number_positive := positive_number
|}.

Definition fetch_count (trace : list Event) : nat :=
  length (List.filter (fun e => match e with EvFetch _ _ => true | _ => false end) trace).

(** [mockResolvedValueOnce], several times: the n-th request gets the n-th
    outcome of the script. *)
Definition scripted (script : list FetchOutcome) (trace : list Event)
    (req : Request) : FetchOutcome :=
  nth (fetch_count trace) script (Rejected "no mocked response left").

Definition respond (code : Z) (body : string) (value : option Json) : FetchOutcome :=
  Resolved {| status := code; resp_text := body; resp_json := value |}.

(** An inbox with one file, [/inbox/a.md], last modified half an hour before the run. *)
Definition inbox_env (script : list FetchOutcome)
    (extraction : list FileChunk -> Result (list ExtractionResult)) : Env := {|
  existsSync := fun p => String.eqb p "/inbox";
  statSync := fun p =>
    if String.eqb p "/inbox" then Some {| mtimeMs := 500; isDirectory := true |}
    else if String.eqb p "/inbox/a.md" then Some {| mtimeMs := 1755250000000; isDirectory := false |}
    else None;
  readdirSync := fun p => if String.eqb p "/inbox" then Some ["a.md"; "notes.txt"] else None;
  readFileSync := fun p => if String.eqb p "/inbox/a.md" then Some "- [ ] Buy milk" else None;
  stateFile_writable := true;
  server := scripted script;
  extractTasksFromChunks := fun _ chunks _ _ => extraction chunks;
  extractor_healthCheck := fun _ _ _ => Ok (true, "OpenAI API accessible");
  Date_now := fun _ => 1755252000000%Z;
  Date_toISOString := fun _ => "2025-08-15T10:00:00.000Z";
  settle_order := fun _ => []
|}.

Definition preferences : Preferences := {|
  inboxDir := "/inbox";
  openaiKey := "test-openai-key";
  openaiModel := "test-model";
  notionToken := "test-notion-token";
  notionDbId := "test-database-id";
  enableScheduled := true
|}.

Definition empty_world : World :=
  {| w_state := {| lastRun := None; processedTasks := []; lastModifiedTimes := ∅ |};
     w_ledger := Missing;
     w_trace := [] |}.

Definition buy_milk : ExtractedTask :=
  {| title := "Buy milk"; due := None; tags := None |}.

Definition buy_milk_task : TaskWithMeta :=
  {| task := buy_milk; hash := "test-hash-123";
     task_filePath := "/inbox/a.md"; lineIndex := 0;
     extractedAt := "2025-08-15T10:00:00Z" |}.

(** The responses of the tests of the client. *)
Definition query_empty : Response :=
  {| status := 200; resp_text := ""; resp_json := Some (JObj [ ("results", JArr []) ]) |}.

Definition query_found : Response :=
  {| status := 200; resp_text := "";
     resp_json := Some (JObj [ ("results", JArr [ JObj [ ("id", JStr "existing-page-id") ] ]) ]) |}.

Definition page_json : Json :=
  JObj [ ("id", JStr "page-id-123"); ("url", JStr "https://notion.so/page-id-123") ].

Definition page_created : Response :=
  {| status := 200; resp_text := ""; resp_json := Some page_json |}.

Definition rate_limited : Response :=
  {| status := 429;
     resp_text := stringify rate_limit_error;
     resp_json := None |}.

Definition bad_request : Response :=
  {| status := 400; resp_text := "Bad request"; resp_json := None |}.

Definition server_down : Response :=
  {| status := 500; resp_text := "Internal server error"; resp_json := None |}.

Definition database_ok : Response :=
  {| status := 200; resp_text := "";
     resp_json :=
       Some (JObj [ ("properties",
                     JObj [ ("Name", JObj []); ("Status", JObj []); ("Due Date", JObj []);
                            ("Tags", JObj []); ("Task ID", JObj []);
                            ("Captured From", JObj []) ]) ]) |}.

(** An environment whose store passes the health check and whose extractor
    fails. *)
Definition failing_extractor : Env :=
  inbox_env (map Resolved [database_ok; query_empty])
    (fun _ => Throw "OpenAI API error").

(** An environment whose store passes the health check, reports the task
    as absent and accepts the page, and whose extractor finds one task in
    every chunk. *)
Definition healthy : Env :=
  inbox_env (map Resolved [database_ok; query_empty; query_empty; page_created])
    (fun chunks => Ok (map (fun c => {| er_chunk := c; er_tasks := [buy_milk] |}) chunks)).

(** An environment whose store answers by a script and whose extractor
    finds nothing. *)
Definition store (script : list Response) : Env :=
  inbox_env (map Resolved script) (fun _ => Ok []).

End Mock.

(** ** [src/state.ts]: the two remaining methods of the state manager *)

Section StateManagerMore.

Context {rt : Runtime} {env : Env}.

(** [save]: "Force save current state". *)
Definition save : M unit := saveState.

(** [reset]: the state is loaded again from the state file, then saved. *)
Definition reset : M unit :=
  (fun w => (Ok tt, {| w_state := loadState (w_ledger w);
                       w_ledger := w_ledger w;
                       w_trace := w_trace w |})) ;;
  saveState.

End StateManagerMore.

(** ** [src/log.ts]: what the logger writes for the data of an entry *)

(** [typeof j === "object"]: [null], arrays and objects. *)
Definition is_object (j : Json) : bool :=
  match j with
  | JNull | JArr _ | JObj _ => true
  | _ => false
  end.

(** [s.includes(sub)]. *)
Fixpoint includes (sub s : string) : bool :=
  String.prefix sub s ||
  match s with
  | EmptyString => false
  | String _ r => includes sub r
  end.

Definition sensitiveKeys : list string :=
  [ "password"; "token"; "key"; "secret"; "auth" ].

(** [sensitiveKeys.some((sensitive) => key.toLowerCase().includes(sensitive))]. *)
Definition is_sensitive (key : string) : bool :=
  existsb (fun sensitive => includes sensitive (toLowerCase key)) sensitiveKeys.

(** The assignment [result[key] = value] on an object literal: for the key
    [__proto__] it sets no property of the object. *)
Definition assignable (key : string) : bool := negb (String.eqb key "__proto__").

(** [sanitiseObject], the local function of [sanitiseData]; the entries of
    an object are listed in the order of [Object.entries]. *)
Fixpoint sanitiseObject (obj : Json) : Json :=
  match obj with
  | JArr items => JArr (map sanitiseObject items)
  | JObj fields =>
      JObj ((fix entries (l : list (string * Json)) : list (string * Json) :=
               match l with
               | [] => []
               | (key, value) :: rest =>
                   let sanitised :=
                     if is_sensitive key then JStr "[REDACTED]"
                     else if is_object value then sanitiseObject value
                     else value in
                   if assignable key then (key, sanitised) :: entries rest
                   else entries rest
               end) fields)
  | _ => obj
  end.

(** [{ ...data }] for a value that is an object: the entries of an array are
    its items under their indices. *)
Definition spread (data : Json) : Json :=
  match data with
  | JArr items => JObj (imap (fun i item => (string_of_Z (Z.of_nat i), item)) items)
  | _ => data
  end.

Definition sanitiseData (data : Json) : Json :=
  match data with
  | JArr _ | JObj _ => sanitiseObject (spread data)
  | _ => data
  end.

(** The field [data] of the entry that [log] writes: [None] is
    [undefined]. *)
Definition entry_data (data : option Json) : option Json :=
  match data with
  | Some d => if js_truthy d then Some (sanitiseData d) else None
  | None => None
  end.

(** ** The task extractor ([./extractor], the class [TaskExtractor]) *)

(** The two readings of the local clock that the extractor makes, beside
    those of [Env]. *)
Class Clock := {
  Date_getFullYear : list Event -> Z;
  (** [toLocaleTimeString(undefined, { hour: '2-digit', minute: '2-digit' })] *)
  Date_toLocaleTimeString : list Event -> string
}.

(** The tasks that [validateAndCleanTasks] returns.  The field [due] is
    declared [string | null]; it holds what [normaliseDate] returned. *)
Record CleanedTask := {
  ct_title : string;
  ct_due : Json;
  ct_tags : option (list string)
}.

(** [ExtractionResult] of the extractor. *)
Record Extraction := {
  ex_tasks : list CleanedTask;
  ex_chunk : FileChunk
}.

Module TaskExtractor.

Definition quote_mark : string := String (Ascii.ascii_of_nat 34) EmptyString.

(** *** Values *)

(** The property read [v.k], for a name [k] that no prototype defines:
    it throws on [undefined] ([None]) and on [null], and gives [undefined]
    on every value that is not an object with this entry. *)
Definition js_get (k : string) (v : option Json) : Result (option Json) :=
  match v with
  | None => Throw "Cannot read properties of undefined"
  | Some JNull => Throw "Cannot read properties of null"
  | Some (JObj fields) => Ok (assoc k fields)
  | Some _ => Ok None
  end.

(** [!v] for a value that may be [undefined]. *)
Definition falsy (v : option Json) : bool :=
  match v with
  | None => true
  | Some j => negb (js_truthy j)
  end.

(** [v.length === 0]. *)
Definition length_is_zero (v : Json) : bool :=
  match v with
  | JArr items => length items =? 0
  | JStr s => String.length s =? 0
  | JObj fields =>
      match assoc "length" fields with
      | Some (JNum n) => (n =? 0)%Z
      | _ => false
      end
  | _ => false
  end.

(** [v[0]]. *)
Definition first_item (v : Json) : option Json :=
  match v with
  | JArr items => head items
  | JStr (String c _) => Some (JStr (String c EmptyString))
  | JObj fields => assoc "0" fields
  | _ => None
  end.

(** [JSON.parse(v)] for a value that need not be a string: the text parsed
    is [String(v)], and [undefined] is no JSON text. *)
Definition JSON_parse_value {rt : Runtime} (v : option Json) : option Json :=
  match v with
  | None => None
  | Some j => JSON_parse (js_String j)
  end.

(** *** Dates *)

Definition is_digit (c : ascii) : bool :=
  let n := Ascii.nat_of_ascii c in (48 <=? n) && (n <=? 57).

Definition is_char (expected : string) (c : ascii) : bool :=
  String.eqb expected (String c EmptyString).

(** [/^\d{4}-\d{2}-\d{2}$/.test(s)]. *)
Definition is_iso_date (s : string) : bool :=
  match String.list_ascii_of_string s with
  | [y1; y2; y3; y4; dash1; m1; m2; dash2; d1; d2] =>
      is_digit y1 && is_digit y2 && is_digit y3 && is_digit y4 &&
      is_char "-" dash1 && is_digit m1 && is_digit m2 &&
      is_char "-" dash2 && is_digit d1 && is_digit d2
  | _ => false
  end.

(** The text before the first occurrence of a character, and the text
    after it. *)
Fixpoint split_at (sep : string) (s : string) : option (string * string) :=
  match s with
  | EmptyString => None
  | String c r =>
      if is_char sep c then Some (EmptyString, r)
      else match split_at sep r with
           | Some (before, rest) => Some (String c before, rest)
           | None => None
           end
  end.

(** [\d{1,2}] on a whole string. *)
Definition one_or_two_digits (s : string) : bool :=
  match s with
  | String a EmptyString => is_digit a
  | String a (String b EmptyString) => is_digit a && is_digit b
  | _ => false
  end.

(** [s.match(/^(\d{1,2})\/(\d{1,2})$/)]: the two groups. *)
Definition ddmmMatch (s : string) : option (string * string) :=
  match split_at "/" s with
  | Some (day, month) =>
      if one_or_two_digits day && one_or_two_digits month
      then Some (day, month)
      else None
  | None => None
  end.

(** [s.padStart(2, '0')]. *)
Definition padStart2 (s : string) : string :=
  repeat_string "0" (2 - String.length s) +:+ s.

(** [normaliseDate], on whatever the response holds as [due]; [test]
    converts its argument to a string, and [match] is a method of strings
    only. *)
Definition normaliseDate (currentYear : Z) (dateStr : Json) : Result Json :=
  if negb (js_truthy dateStr) then Ok JNull
  else if is_iso_date (js_String dateStr) then Ok dateStr
  else
    match dateStr with
    | JStr s =>
        match ddmmMatch s with
        | Some (day, month) =>
            Ok (JStr (string_of_Z currentYear +:+ "-" +:+ padStart2 month
                      +:+ "-" +:+ padStart2 day))
        | None => Ok JNull
        end
    | _ => Throw "dateStr.match is not a function"
    end.

(** *** Validation *)

(** The test of the [filter] of [validateAndCleanTasks]. *)
Definition is_valid_task (task : Json) : bool :=
  match task with
  | JObj fields =>
      match assoc "title" fields with
      | Some (JStr t) => 0 <? String.length (trim t)
      | _ => false
      end
  | _ => false
  end.

(** The function of its [map], on a task that passed the test. *)
Definition clean_task (currentYear : Z) (task : Json) : Result CleanedTask :=
  let title_ := match json_get "title" task with
                | Some (JStr t) => trim t
                | _ => EmptyString
                end in
  let tags_ := match json_get "tags" task with
               | Some (JArr items) => Some (json_strings items)
               | _ => None
               end in
  let due_ := match json_get "due" task with
              | Some d => if js_truthy d then normaliseDate currentYear d else Ok JNull
              | None => Ok JNull
              end in
  match due_ with
  | Ok d => Ok {| ct_title := title_; ct_due := d; ct_tags := tags_ |}
  | Throw e => Throw e
  end.

Fixpoint clean_tasks (currentYear : Z) (tasks : list Json) : Result (list CleanedTask) :=
  match tasks with
  | [] => Ok []
  | task :: rest =>
      match clean_task currentYear task with
      | Throw e => Throw e
      | Ok cleaned =>
          match clean_tasks currentYear rest with
          | Throw e => Throw e
          | Ok others => Ok (cleaned :: others)
          end
      end
  end.

Definition validateAndCleanTasks (currentYear : Z) (rawTasks : Json)
    : Result (list CleanedTask) :=
  match rawTasks with
  | JArr items => clean_tasks currentYear (List.filter is_valid_task items)
  | _ => Ok []
  end.

Section Requests.

Context {rt : Runtime} {env : Env} {clock : Clock}.

(** *** Prompts *)

(** [s.split('T')[0]]. *)
Definition before_T (s : string) : string :=
  match split_at "T" s with
  | Some (before, _) => before
  | None => s
  end.

(** [buildSystemPrompt]; [trace] stands for the time of the call. *)
Definition buildSystemPrompt (trace : list Event) : string :=
  let q := quote_mark in
  join_lines
    [ "Extract actionable tasks from timestamped braindump notes. Return only JSON.";
      "";
      "<source_format>";
      "Daily markdown files (YYYY-MM-DD.md) with timestamped entries:";
      "## HH:MM:SS";
      "- Random thoughts, todos, feelings, reminders, etc.";
      "</source_format>";
      "";
      "<what_to_extract>";
      "Extract only actionable items:";
      "- Tasks, todos, action items, reminders with action required";
      "- Ignore: completed tasks, thoughts, feelings, observations";
      "- Preserve context and proper names";
      "- Use imperative titles";
      "- Current year: " +:+ string_of_Z (Date_getFullYear trace);
      "</what_to_extract>";
      "";
      "<due_date_extraction_rules>";
      "- Extract specific times when mentioned (e.g., " +:+ q +:+ "call at 3pm" +:+ q +:+ ", " +:+ q +:+ "meeting at 9:30am" +:+ q +:+ ")";
      "- For " +:+ q +:+ "tomorrow" +:+ q +:+ ", " +:+ q +:+ "today" +:+ q +:+ ", " +:+ q +:+ "Friday" +:+ q +:+ " etc., add a specific time if context suggests one";
      "- Default to 09:00 for morning tasks, 14:00 for afternoon tasks, 17:00 for end-of-day";
      "- Use entry timestamp as context for timing (early entries = morning tasks)";
      "- Format: " +:+ q +:+ "YYYY-MM-DDTHH:MM" +:+ q +:+ " in 24-hour format";
      "</due_date_extraction_rules>";
      "";
      "<return_format>";
      "{";
      "  " +:+ q +:+ "tasks" +:+ q +:+ ": [";
      "    {";
      "      " +:+ q +:+ "title" +:+ q +:+ ": " +:+ q +:+ "string" +:+ q +:+ ",";
      "      " +:+ q +:+ "due" +:+ q +:+ ": " +:+ q +:+ "YYYY-MM-DDTHH:MM" +:+ q +:+ " | " +:+ q +:+ "YYYY-MM-DD" +:+ q +:+ " | null,";
      "      " +:+ q +:+ "tags" +:+ q +:+ ": [" +:+ q +:+ "string" +:+ q +:+ "] | null";
      "    }";
      "  ]";
      "}";
      "</return_format>";
      "" ].

(** [buildUserPrompt]; characters outside ASCII are written as their UTF-8
    bytes. *)
Definition buildUserPrompt (trace : list Event) (chunk : FileChunk) : string :=
  let q := quote_mark in
  let chunkInfo :=
    if 1 <? totalChunks chunk
    then " (chunk " +:+ string_of_Z (Z.of_nat (chunkIndex chunk + 1)) +:+ "/"
         +:+ string_of_Z (Z.of_nat (totalChunks chunk)) +:+ ")"
    else "" in
  join_lines
    [ "Extract from braindump" +:+ chunkInfo +:+ ":";
      "";
      "<braindump>";
      chunk_content chunk;
      "</braindump>";
      "";
      "<current_datetime>";
      "Important: Use this for reference when extracting due dates.";
      "Date: " +:+ before_T (Date_toISOString trace);
      "Time: " +:+ Date_toLocaleTimeString trace;
      "</current_datetime>";
      "";
      "<examples>";
      "Extract actionable tasks like:";
      "✓ - [ ] Buy milk";
      "✓ - call John tomorrow at 2pm";
      "✓ TODO: send invoice due:16/08 9am";
      "✓ remind Sarah about meeting at 10:30";
      "✓ need to review proposal by end of day";
      "✓ dentist appointment Friday 3pm";
      "✓ follow up call at 9am";
      "";
      "Ignore non-actionable:";
      "✗ - [x] completed tasks";
      "✗ feeling tired today";
      "✗ random observation";
      "";
      "Time extraction examples:";
      q +:+ "call at 3pm" +:+ q +:+ " → " +:+ q +:+ "2025-01-15T15:00" +:+ q;
      q +:+ "meeting tomorrow 9:30am" +:+ q +:+ " → " +:+ q +:+ "2025-01-16T09:30" +:+ q;
      q +:+ "deadline Friday" +:+ q +:+ " → " +:+ q +:+ "2025-01-17T17:00" +:+ q;
      q +:+ "follow up today" +:+ q +:+ " → " +:+ q +:+ "2025-01-15T14:00" +:+ q +:+ " (use entry time context)";
      "</examples>";
      "";
      "JSON only:" ].

Definition strictPrompt : string :=
  let q := quote_mark in
  join_lines
    [ "The previous response was not valid JSON. Return ONLY a JSON object with this exact structure:";
      "{";
      "  " +:+ q +:+ "tasks" +:+ q +:+ ": [";
      "    {";
      "      " +:+ q +:+ "title" +:+ q +:+ ": " +:+ q +:+ "string" +:+ q +:+ ",";
      "      " +:+ q +:+ "due" +:+ q +:+ ": " +:+ q +:+ "YYYY-MM-DD" +:+ q +:+ " | null,";
      "      " +:+ q +:+ "tags" +:+ q +:+ ": [" +:+ q +:+ "string" +:+ q +:+ "] | null";
      "    }";
      "  ]";
      "}";
      "";
      "Do not include any text before or after the JSON object." ].

(** *** Requests *)

Definition baseUrl : string := "https://api.openai.com/v1/chat/completions".

(** The body of the request, as the value that [JSON.stringify] is applied
    to. *)
Definition chat_body (model systemPrompt userPrompt : string) : Json :=
  JObj [ ("model", JStr model);
         ("messages",
          JArr [ JObj [ ("role", JStr "system"); ("content", JStr systemPrompt) ];
                 JObj [ ("role", JStr "user"); ("content", JStr userPrompt) ] ]);
         ("max_completion_tokens", JNum 1500);
         ("text", JObj [ ("format", JObj [ ("type", JStr "json_object") ]);
                         ("verbosity", JStr "medium") ]);
         ("reasoning", JObj [ ("effort", JStr "medium"); ("summary", JStr "auto") ]) ].

Definition openai_request (apiKey model systemPrompt userPrompt : string) : Request :=
  {| req_url := baseUrl;
     req_method := "POST";
     req_token := apiKey;
     req_body := Some (chat_body model systemPrompt userPrompt) |}.

(** The message of the error thrown for a response that is not ok. *)
Definition errorMessage (response : Response) : string :=
  let http := "HTTP " +:+ string_of_Z (status response) in
  let errorBody := resp_text response in
  let fallback := if truthy errorBody then errorBody else http in
  match JSON_parse errorBody with
  | None => fallback
  | Some JNull => fallback
  | Some errorJson =>
      match json_get "error" errorJson with
      | Some (JObj fields) =>
          match assoc "message" fields with
          | Some message => if js_truthy message then js_String message else http
          | None => http
          end
      | _ => http
      end
  end.

(** What [callOpenAI] does with the body of an ok response: [None] is what
    [response.json()] gives when it rejects, and the content returned may
    be [undefined]. *)
Definition choice_content (body : option Json) : Result (option Json) :=
  match body with
  | None => Throw "response.json() failed"
  | Some data =>
      match js_get "choices" (Some data) with
      | Throw e => Throw e
      | Ok choices =>
          if falsy choices then Throw "No response from OpenAI API"
          else
            match choices with
            | None => Throw "No response from OpenAI API"
            | Some c =>
                if length_is_zero c then Throw "No response from OpenAI API"
                else
                  match js_get "message" (first_item c) with
                  | Throw e => Throw e
                  | Ok message => js_get "content" message
                  end
            end
      end
  end.

(** [callOpenAI]: one request, repeated after a pause on a 429 while
    [attempt <= 3]. *)
Equations? callOpenAI (apiKey model systemPrompt userPrompt : string)
    (attempt : nat) (w : World) : Result (option Json) * World by wf (4 - attempt) lt :=
callOpenAI apiKey model systemPrompt userPrompt attempt w
  with fetch (openai_request apiKey model systemPrompt userPrompt) w => {
  | (Throw e, w1) => (Throw e, w1);
  | (Ok response, w1) with ok response => {
    | true => (choice_content (resp_json response), w1);
    | false with decide (status response = 429%Z /\ attempt <= 3) => {
      | left _ with sleep (2 ^ Z.of_nat attempt * 1000) w1 => {
        | (_, w2) => callOpenAI apiKey model systemPrompt userPrompt (S attempt) w2 };
      | right _ => (Throw ("OpenAI API error: " +:+ errorMessage response), w1) } } }.
Proof. lia. Qed.

(** *** Extraction *)

(** The value returned when the response cannot be parsed. *)
Definition no_tasks : Json := JObj [ ("tasks", JArr []) ].

(** [parseJsonResponse]: its argument is a string. *)
Definition parseJsonResponse (content apiKey model : string) (chunk : FileChunk)
    : M Json :=
  match JSON_parse content with
  | Some parsed => ret parsed
  | None =>
      try_catch
        (let* retryContent :=
           callOpenAI apiKey model strictPrompt
             ("Extract tasks from: " +:+ substring0 1000 (chunk_content chunk)) 1 in
         match JSON_parse_value retryContent with
         | Some parsed => ret parsed
         | None => throw "Unexpected token in JSON"
         end)
        (fun _ => ret no_tasks)
  end.

(** A result that is not a computation, as a computation. *)
Definition lift {A : Type} (r : Result A) : M A := fun w => (r, w).

(** [extractTasks]: the logging between the request and the parsing reads
    [responseContent.length] and calls [responseContent.substring], which
    throws unless the content is a string. *)
Definition extractTasks (chunk : FileChunk) (apiKey model : string) : M Extraction :=
  try_catch
    (let* systemPrompt := gets (fun w => buildSystemPrompt (w_trace w)) in
     let* userPrompt := gets (fun w => buildUserPrompt (w_trace w) chunk) in
     let* responseContent := callOpenAI apiKey model systemPrompt userPrompt 1 in
     match responseContent with
     | Some (JStr content) =>
         let* parsedResponse := parseJsonResponse content apiKey model chunk in
         let* tasks_ := lift (js_get "tasks" (Some parsedResponse)) in
         let rawTasks := if falsy tasks_ then JArr [] else default (JArr []) tasks_ in
         let* currentYear := gets (fun w => Date_getFullYear (w_trace w)) in
         let* validTasks := lift (validateAndCleanTasks currentYear rawTasks) in
         ret {| ex_tasks := validTasks; ex_chunk := chunk |}
     | _ => throw "responseContent.substring is not a function"
     end)
    (fun _ => ret {| ex_tasks := []; ex_chunk := chunk |}).

(** *** The calls of one batch *)

(** [callOpenAI], [parseJsonResponse] and [extractTasks] as calls that can
    be suspended: the same code, with its [await]s kept as the points where
    other calls may go on.  A call that runs alone is the function above
    ([callOpenAI_alone], [parseJsonResponse_alone] and [extractTasks_alone]
    below). *)
Equations? callOpenAI_async (apiKey model systemPrompt userPrompt : string)
    (attempt : nat) : Async (Result (option Json)) by wf (4 - attempt) lt :=
callOpenAI_async apiKey model systemPrompt userPrompt attempt :=
  Fetch (openai_request apiKey model systemPrompt userPrompt)
    (fun out =>
       match out with
       | Rejected reason => Resolve (Throw reason)
       | Resolved response =>
           if ok response
           then Resolve (choice_content (resp_json response))
           else
             match decide (status response = 429%Z /\ attempt <= 3) with
             | left _ =>
                 Pause (2 ^ Z.of_nat attempt * 1000)
                   (callOpenAI_async apiKey model systemPrompt userPrompt (S attempt))
             | right _ =>
                 Resolve (Throw ("OpenAI API error: " +:+ errorMessage response))
             end
       end).
Proof. lia. Qed.

Definition parseJsonResponse_async (content apiKey model : string) (chunk : FileChunk)
    : Async Json :=
  match JSON_parse content with
  | Some parsed => Resolve parsed
  | None =>
      async_catch
        (async_try
           (callOpenAI_async apiKey model strictPrompt
              ("Extract tasks from: " +:+ substring0 1000 (chunk_content chunk)) 1)
           (fun retryContent =>
              Resolve (match JSON_parse_value retryContent with
                       | Some parsed => Ok parsed
                       | None => Throw "Unexpected token in JSON"
                       end)))
        (fun _ => Resolve no_tasks)
  end.

Definition extractTasks_async (chunk : FileChunk) (apiKey model : string)
    : Async Extraction :=
  async_catch
    (Now (fun trace =>
       let systemPrompt := buildSystemPrompt trace in
       let userPrompt := buildUserPrompt trace chunk in
       async_try (callOpenAI_async apiKey model systemPrompt userPrompt 1)
         (fun responseContent =>
            match responseContent with
            | Some (JStr content) =>
                async_bind (parseJsonResponse_async content apiKey model chunk)
                  (fun parsedResponse =>
                     match js_get "tasks" (Some parsedResponse) with
                     | Throw e => Resolve (Throw e)
                     | Ok tasks_ =>
                         let rawTasks :=
                           if falsy tasks_ then JArr [] else default (JArr []) tasks_ in
                         Now (fun trace' =>
                           let currentYear := Date_getFullYear trace' in
                           Resolve
                             (match validateAndCleanTasks currentYear rawTasks with
                              | Ok validTasks =>
                                  Ok {| ex_tasks := validTasks; ex_chunk := chunk |}
                              | Throw e => Throw e
                              end))
                     end)
            | _ => Resolve (Throw "responseContent.substring is not a function")
            end)))
    (fun _ => Resolve {| ex_tasks := []; ex_chunk := chunk |}).

(** [batch.map(chunk => this.extractTasks(...))] and [Promise.all]: the
    calls of one batch are started together, and go on as the responses
    arrive. *)
Definition extractBatch (batch : list FileChunk) (apiKey model : string)
    : M (list Extraction) :=
  Promise_all (map (fun chunk => extractTasks_async chunk apiKey model) batch).

(** The loop of [extractTasksFromChunks]; [chunks] is what is left from
    index [i] on. *)
Equations? extractTasksFromChunks_loop (apiKey model : string) (maxConcurrency : positive)
    (chunks : list FileChunk) (results : list Extraction) (w : World)
    : Result (list Extraction) * World by wf (length chunks) lt :=
extractTasksFromChunks_loop apiKey model maxConcurrency [] results w := (Ok results, w);
extractTasksFromChunks_loop apiKey model maxConcurrency (c :: cs) results w
  with extractBatch (take (Pos.to_nat maxConcurrency) (c :: cs)) apiKey model w => {
  | (Throw e, w1) => (Throw e, w1);
  | (Ok batchResults, w1)
      with drop (Pos.to_nat maxConcurrency) (c :: cs) => {
    | [] => (Ok (results ++ batchResults), w1);
    | c' :: cs' with sleep 500 w1 => {
      | (_, w2) =>
          extractTasksFromChunks_loop apiKey model maxConcurrency
            (drop (Pos.to_nat maxConcurrency) (c :: cs)) (results ++ batchResults) w2 } } }.
Proof.
  rewrite length_drop. simpl. lia.
Qed.

Definition extractTasksFromChunks (chunks : list FileChunk) (apiKey model : string)
    (maxConcurrency : positive) : M (list Extraction) :=
  extractTasksFromChunks_loop apiKey model maxConcurrency chunks [].

Definition testPrompt : string :=
  "Return only this JSON: {" +:+ quote_mark +:+ "test" +:+ quote_mark +:+ ": true}".

(** [healthCheck] of the extractor: the pair (healthy, message). *)
Definition healthCheck (apiKey model : string) : M (bool * string) :=
  try_catch
    (let* response :=
       callOpenAI apiKey model
         "You are a test assistant. Return only the requested JSON." testPrompt 1 in
     match JSON_parse_value response with
     | None => throw "Unexpected token in JSON"
     | Some parsed =>
         let* test := lift (js_get "test" (Some parsed)) in
         match test with
         | Some (JBool true) => ret (true, "OpenAI API connection successful")
         | _ => ret (false, "OpenAI API returned unexpected response")
         end
     end)
    (fun e => ret (false, "OpenAI API error: " +:+ e)).

End Requests.

End TaskExtractor.

(** ** More test doubles *)

Module Sample.

(** A state with a last run, two processed hashes and one watermark. *)
Definition state : AppState :=
  {| lastRun := Some "2025-08-15T10:00:00.000Z";
     processedTasks := ["3f2a9c"; "77b0e1"];
     lastModifiedTimes := {[ "/inbox/a.md" := 1755250000000%Z ]} |}.

(** The runtime of the mocks, with a parser that also knows the text of
    one more value. *)
Definition runtime_knowing (j : Json) : Runtime := {|
  sha256_hex := String.rev;
  path_resolve := fun p => p;
  path_join := fun a b => a +:+ "/" +:+ b;
  os_homedir := "/Users/test";
  JSON_parse := fun s => if String.eqb s (Mock.stringify j) then Some j else Mock.parse s;
  JSON_stringify := Mock.stringify;
  JSON_stringify_indent := Mock.stringify;
  Number_positive := Mock.positive_number
|}.

(** The inbox of the mocks, with a server that gives every request the
    same outcome. *)
Definition always (out : FetchOutcome) : Env := {|
  existsSync := fun p => String.eqb p "/inbox";
  statSync := fun p =>
    if String.eqb p "/inbox" then Some {| mtimeMs := 500; isDirectory := true |}
    else if String.eqb p "/inbox/a.md"
    then Some {| mtimeMs := 1755250000000; isDirectory := false |}
    else None;
  readdirSync := fun p => if String.eqb p "/inbox" then Some ["a.md"; "notes.txt"] else None;
  readFileSync := fun p => if String.eqb p "/inbox/a.md" then Some "- [ ] Buy milk" else None;
  stateFile_writable := true;
  server := fun _ _ => out;
  extractTasksFromChunks := fun _ _ _ _ => Ok [];
  extractor_healthCheck := fun _ _ _ => Ok (true, "OpenAI API accessible");
  Date_now := fun _ => 1755252000000%Z;
  Date_toISOString := fun _ => "2025-08-15T10:00:00.000Z";
  settle_order := fun _ => []
|}.

(** The same inbox, seen forty days after the file was last modified. *)
Definition forty_days_later : Env := {|
  existsSync := fun p => String.eqb p "/inbox";
  statSync := fun p =>
    if String.eqb p "/inbox" then Some {| mtimeMs := 500; isDirectory := true |}
    else if String.eqb p "/inbox/a.md"
    then Some {| mtimeMs := 1755250000000; isDirectory := false |}
    else None;
  readdirSync := fun p => if String.eqb p "/inbox" then Some ["a.md"; "notes.txt"] else None;
  readFileSync := fun p => if String.eqb p "/inbox/a.md" then Some "- [ ] Buy milk" else None;
  stateFile_writable := true;
  server := fun _ _ => Rejected "offline";
  extractTasksFromChunks := fun _ _ _ _ => Ok [];
  extractor_healthCheck := fun _ _ _ => Ok (true, "OpenAI API accessible");
  Date_now := fun _ => (1755250000000 + 40 * 24 * 60 * 60 * 1000)%Z;
  Date_toISOString := fun _ => "2025-09-24T09:26:40.000Z";
  settle_order := fun _ => []
|}.

Definition clock : Clock := {|
  Date_getFullYear := fun _ => 2025%Z;
  Date_toLocaleTimeString := fun _ => "10:00 AM"
|}.

(** A response of the chat API whose first choice has the given content. *)
Definition chat_response (content : Json) : Response :=
  {| status := 200;
     resp_text := "";
     resp_json :=
       Some (JObj [ ("id", JStr "chatcmpl-1");
                    ("choices",
                     JArr [ JObj [ ("index", JNum 0);
                                   ("message", JObj [ ("role", JStr "assistant");
                                                      ("content", content) ]) ] ]) ]) |}.

(** Extracted tasks, the second with a number as its due date. *)
Definition tasks_with_numeric_due : Json :=
  JObj [ ("tasks",
          JArr [ JObj [ ("title", JStr "Buy milk"); ("due", JNull) ];
                 JObj [ ("title", JStr "Pay rent"); ("due", JNum 20250816) ] ]) ].

Definition unauthorized : Response :=
  {| status := 401; resp_text := "Unauthorized"; resp_json := None |}.


Definition world (s : AppState) : World :=
  {| w_state := s; w_ledger := Missing; w_trace := [] |}.

(** An environment in which the calls of a batch go on in the given
    order. *)
Definition with_order (order : list nat) (e : Env) : Env := {|
  existsSync := @existsSync e;
  statSync := @statSync e;
  readdirSync := @readdirSync e;
  readFileSync := @readFileSync e;
  stateFile_writable := @stateFile_writable e;
  server := @server e;
  extractTasksFromChunks := @extractTasksFromChunks e;
  extractor_healthCheck := @extractor_healthCheck e;
  Date_now := @Date_now e;
  Date_toISOString := @Date_toISOString e;
  settle_order := fun _ => order
|}.

Definition call_mum : ExtractedTask :=
  {| title := "Call mum"; due := None; tags := None |}.

(** The extractor finds two tasks in every chunk; the store passes the
    health check, accepts the page of the first task and refuses that of the
    second. *)
Definition one_refused : Env :=
  Mock.inbox_env
    (map Resolved [Mock.database_ok; Mock.query_empty;
                   Mock.query_empty; Mock.page_created;
                   Mock.query_empty; Mock.bad_request])
    (fun chunks =>
       Ok (map (fun c => {| er_chunk := c; er_tasks := [Mock.buy_milk; call_mum] |})
             chunks)).

End Sample.

(** ** Vocabulary for the chunker's loop *)

Definition contents (st : ChunkLoop) : list string :=
  map chunk_content (lp_chunks st).

Definition init_loop : ChunkLoop :=
  {| lp_chunks := []; lp_currentChunk := EmptyString; lp_chunkIndex := 0 |}.

(** Indices are handed out in order. *)
Definition indexed (st : ChunkLoop) : Prop :=
  lp_chunkIndex st = length (lp_chunks st) /\
  map chunkIndex (lp_chunks st) = seq 0 (length (lp_chunks st)).

(** The lines held by the loop: those of the closed chunks, then those of
    the chunk being filled. *)
Definition held_lines (st : ChunkLoop) : list string :=
  concat (map split_lines (contents st)) ++ split_lines (lp_currentChunk st).

(** When no line is empty, nothing is lost: the closed chunks and the
    chunk being filled rejoin to the lines read so far; and as long as no
    chunk was closed, two or more lines fit the size bound. *)
Definition lossless (self : FileIngester) (st : ChunkLoop)
    (processed : list string) : Prop :=
  match processed with
  | [] => lp_chunks st = [] /\ lp_currentChunk st = EmptyString
  | _ :: _ =>
      truthy (lp_currentChunk st) = true /\
      join_lines (contents st ++ [lp_currentChunk st]) = join_lines processed /\
      (lp_chunks st = [] -> 2 <= length processed ->
       String.length (lp_currentChunk st) <= maxChunkSize self)
  end.

(** The non-empty lines of a list of chunks, in order. *)
Definition chunk_lines (chunks : list FileChunk) : list string :=
  List.filter truthy (concat (map split_lines (map chunk_content chunks))).

(** ** Vocabulary for the runner *)

(** The calls of [markTaskProcessed] that one synced item gives rise to. *)
Definition mark_calls (t : TaskWithMeta) (r : NotionSyncResult) : list Event :=
  if success r then [EvMarkProcessed (hash t)] else [].

(** The hashes of the items whose sync succeeded, in order. *)
Definition synced_hashes (allTasks : list TaskWithMeta)
    (syncResults : list NotionSyncResult) : list string :=
  concat (zip_with (fun t r => if success r then [hash t] else []) allTasks syncResults).

(** ** Vocabulary for the Notion client *)

(** The world after more events, everything else unchanged. *)
Definition after (w : World) (delta : list Event) : World :=
  {| w_state := w_state w; w_ledger := w_ledger w; w_trace := w_trace w ++ delta |}.

(** A retry after a rate-limit response: the attempt that got it and the
    pause before the next one. *)
Definition rate_limit_retry (attempt : nat) (response : Response) (ms : Z) : Prop :=
  ok response = false /\ status response = 429%Z /\ attempt <= 3 /\
  ms = (2 ^ Z.of_nat attempt * 1000)%Z.

(** A retry after a server error. *)
Definition server_error_retry (attempt : nat) (response : Response) (ms : Z) : Prop :=
  ok response = false /\ (500 <= status response)%Z /\ attempt <= 2 /\
  ms = (Z.of_nat attempt * 2000)%Z.

(** An outcome after which [callNotion] makes no further attempt: a
    rejected request, an ok response, or a response that is not ok and
    meets neither retry condition. *)
Definition settles (attempt : nat) (out : FetchOutcome) : Prop :=
  match out with
  | Rejected _ => True
  | Resolved response =>
      ok response = true \/
      (~ (status response = 429%Z /\ attempt <= 3) /\
       ~ ((500 <= status response)%Z /\ attempt <= 2))
  end.

(** The events of a call of [callNotion] that starts at [attempt]: requests
    for [req], each but the last followed by the pause of a retry, the last
    one settling the call. *)
Fixpoint retry_schedule (req : Request) (attempt : nat) (delta : list Event) : Prop :=
  match delta with
  | [EvFetch r out] => r = req /\ settles attempt out
  | EvFetch r (Resolved response) :: EvSleep ms :: rest =>
      r = req /\
      (rate_limit_retry attempt response ms \/ server_error_retry attempt response ms) /\
      retry_schedule req (S attempt) rest
  | _ => False
  end.

Definition is_rate_limit (response : Response) : bool := (status response =? 429)%Z.

Definition is_server_error (response : Response) : bool := (500 <=? status response)%Z.

(** The number of retries that follow a response of a given kind. *)
Fixpoint retries (kind : Response -> bool) (delta : list Event) : nat :=
  match delta with
  | [] => 0
  | EvFetch _ (Resolved response) :: ((EvSleep _ :: _) as rest) =>
      (if kind response then 1 else 0) + retries kind rest
  | _ :: rest => retries kind rest
  end.

(** The number of requests sent. *)
Definition requests (delta : list Event) : nat :=
  length (List.filter (fun e => match e with EvFetch _ _ => true | _ => false end) delta).

(** A request to create a page, and the number of pages created: the create
    requests that were answered with an ok response. *)
Definition is_create (req : Request) : bool :=
  String.eqb (req_url req) (baseUrl +:+ "/pages") && String.eqb (req_method req) "POST".

Definition created_records (delta : list Event) : nat :=
  length (List.filter
            (fun e => match e with
                      | EvFetch req (Resolved response) => is_create req && ok response
                      | _ => false
                      end) delta).

(** Events of the network only, with every request equal to [req]. *)
Definition only_requests (req : Request) (delta : list Event) : Prop :=
  Forall (fun e => match e with
                   | EvFetch r _ => r = req
                   | EvSleep _ => True
                   | _ => False
                   end) delta.

(** The two requests of [createTask]. *)
Definition exists_request (token databaseId taskHash : string) : Request :=
  notion_request token (query_endpoint databaseId) "POST" (Some (searchBody taskHash)).

Definition create_request (token databaseId : string) (t : TaskWithMeta)
    : Request :=
  notion_request token "/pages" "POST" (Some (pageData databaseId t)).

(** What the store answers to an existence query: an ok response whose
    [results] hold no page, or at least one page. *)
Definition reports_absent (response : Response) : Prop :=
  ok response = true /\
  exists listing,
    resp_json response = Some listing /\ json_get "results" listing = Some (JArr []).

Definition reports_existing (response : Response) : Prop :=
  ok response = true /\
  exists listing item items,
    resp_json response = Some listing /\
    json_get "results" listing = Some (JArr (item :: items)).

(** The store accepts a create request: an ok response with the page. *)
Definition accepts_page (response : Response) (page : Json) : Prop :=
  ok response = true /\ resp_json response = Some page.

(** ** Vocabulary for a run *)

Definition is_save (e : Event) : bool :=
  match e with EvSave _ => true | _ => false end.

Definition is_extract (e : Event) : bool :=
  match e with EvExtract _ => true | _ => false end.

Definition is_watermark (e : Event) : bool :=
  match e with EvWatermark _ _ => true | _ => false end.

Definition is_mark (e : Event) : bool :=
  match e with EvMarkProcessed _ => true | _ => false end.

(** The state file after the events [delta]: every save rewrites it, and
    nothing else touches it. *)
Definition replay_ledger (delta : list Event) (file : DiskFile) : DiskFile :=
  fold_left (fun f e => match e with EvSave content => Content content | _ => f end)
    delta file.

(** A computation keeps track when, from every world, it only adds events
    to the trace, the events it adds are of the kind [Q], and the state file
    it leaves is the one its events account for. *)
Definition tracks {A : Type} (Q : Event -> Prop) (m : M A) : Prop :=
  forall w, exists delta,
    w_trace (snd (m w)) = w_trace w ++ delta /\
    w_ledger (snd (m w)) = replay_ledger delta (w_ledger w) /\
    Forall Q delta.

(** A computation that leaves the state manager and the state file alone. *)
Definition network_only {A : Type} (m : M A) : Prop :=
  forall w, exists delta, snd (m w) = after w delta.

(** Kinds of events. *)
Definition network_event (e : Event) : Prop :=
  match e with EvFetch _ _ | EvSleep _ => True | _ => False end.

(** What may happen before the chunks are handed to the extractor, and
    after. *)
Definition before_handoff (e : Event) : Prop :=
  match e with EvFetch _ _ | EvSleep _ | EvWatermark _ _ => True | _ => False end.

Definition after_handoff (e : Event) : Prop :=
  match e with
  | EvFetch _ _ | EvSleep _ | EvMarkProcessed _ | EvSave _ => True
  | _ => False
  end.

(** A run reaches the sync: it is enabled, the health checks pass, the
    ingestion returns chunks and the extractor returns results for them;
    [w3] is the world at that point. *)
Definition reaches_sync {rt : Runtime} {env : Env} (preferences : Preferences)
    (w : World) (extractionResults : list ExtractionResult) (w3 : World) : Prop :=
  enableScheduled preferences = true /\
  exists issues w1 chunks w2,
    performHealthChecks preferences w = (Ok (true, issues), w1) /\
    ingestFiles fileIngester (inboxDir preferences) w1 = (Ok chunks, w2) /\
    chunks <> [] /\
    extract chunks (openaiKey preferences) (openaiModel preferences) w2 =
      (Ok extractionResults, w3).

(** ** Vocabulary for the further properties *)

(** A chunk content that respects the size limit, or is a single line. *)
Definition within_limit (self : FileIngester) (s : string) : Prop :=
  String.length s <= maxChunkSize self \/ has_newline s = false.

(** The loop of the chunker cuts well: the closed chunks are non-empty and
    respect the limit, and so does the chunk being filled when it is not
    empty. *)
Definition well_cut (self : FileIngester) (st : ChunkLoop) : Prop :=
  Forall (fun s => s <> EmptyString /\ within_limit self s) (contents st) /\
  within_limit self (lp_currentChunk st).

(** The time spent in pauses, in milliseconds. *)
Definition total_sleep (delta : list Event) : Z :=
  fold_right (fun e acc => match e with EvSleep ms => (ms + acc)%Z | _ => acc end)
    0%Z delta.

(** ** Vocabulary for the logger *)

(** The entry [key: value] occurs in a value, at any depth. *)
Inductive occurs (key : string) (value : Json) : Json -> Prop :=
| occurs_here (fields : list (string * Json)) :
    In (key, value) fields -> occurs key value (JObj fields)
| occurs_in_field (k : string) (j : Json) (fields : list (string * Json)) :
    In (k, j) fields -> occurs key value j -> occurs key value (JObj fields)
| occurs_in_item (j : Json) (items : list Json) :
    In j items -> occurs key value j -> occurs key value (JArr items).

(** A value in which no key is sensitive and no key is [__proto__]. *)
Definition plain (data : Json) : Prop :=
  forall key value, occurs key value data ->
    is_sensitive key = false /\ assignable key = true.

(** The value that [sanitiseObject] stores under a key, and its loop over
    the entries of an object. *)
Definition sanitise_value (key : string) (value : Json) : Json :=
  if is_sensitive key then JStr "[REDACTED]"
  else if is_object value then sanitiseObject value
  else value.

Fixpoint sanitise_entries (l : list (string * Json)) : list (string * Json) :=
  match l with
  | [] => []
  | (key, value) :: rest =>
      if assignable key then (key, sanitise_value key value) :: sanitise_entries rest
      else sanitise_entries rest
  end.

(** ** Vocabulary for the extractor *)

(** A string of exactly four digits. *)
Definition four_digits (s : string) : bool :=
  match s with
  | String a (String b (String c (String d EmptyString))) =>
      TaskExtractor.is_digit a && TaskExtractor.is_digit b &&
      TaskExtractor.is_digit c && TaskExtractor.is_digit d
  | _ => false
  end.

Definition two_digits (s : string) : bool :=
  match s with
  | String a (String b EmptyString) =>
      TaskExtractor.is_digit a && TaskExtractor.is_digit b
  | _ => false
  end.

(** A [due] as the prompts ask for it: absent, [null] or a string. *)
Definition due_well_typed (task : Json) : Prop :=
  match json_get "due" task with
  | None | Some JNull | Some (JStr _) => True
  | Some _ => False
  end.

(** A [due] that [normaliseDate] may return for a string: [null] or a
    string of the form YYYY-MM-DD. *)
Definition normalised (due_ : Json) : Prop :=
  due_ = JNull \/ exists d, due_ = JStr d /\ TaskExtractor.is_iso_date d = true.

(** A [due] on which [normaliseDate] throws: a number other than 0, [true]
    or an object. *)
Definition due_unusable (due_ : Json) : Prop :=
  match due_ with
  | JNum n => n <> 0%Z
  | JBool b => b = true
  | JObj _ => True
  | _ => False
  end.

(** The title of a task of the response, as it was written. *)
Definition raw_title (task : Json) : string :=
  match json_get "title" task with
  | Some (JStr t) => t
  | _ => EmptyString
  end.

(** ** Vocabulary for calls that run together *)

(** [yields t own a]: the call [t] ends with the result [a] after the
    events [own], when its requests have the outcomes recorded in [own]. *)
Inductive yields {A : Type} : Async A -> list Event -> A -> Prop :=
| yields_resolve (a : A) : yields (Resolve a) [] a
| yields_fetch (req : Request) (k : FetchOutcome -> Async A) (out : FetchOutcome)
    (own : list Event) (a : A) :
    yields (k out) own a -> yields (Fetch req k) (EvFetch req out :: own) a
| yields_pause (ms : Z) (k : Async A) (own : list Event) (a : A) :
    yields k own a -> yields (Pause ms k) (EvSleep ms :: own) a
| yields_now (k : list Event -> Async A) (trace own : list Event) (a : A) :
    yields (k trace) own a -> yields (Now k) own a.

(** The outcomes recorded in [delta] are those that the service gave, each
    for the events before it; [trace] is what came before [delta]. *)
Fixpoint served {env : Env} (trace delta : list Event) : Prop :=
  match delta with
  | [] => True
  | e :: rest =>
      match e with
      | EvFetch req out => out = server trace req
      | _ => True
      end /\ served (trace ++ [e]) rest
  end.

(** [merged owns delta]: [delta] is an interleaving of the lists [owns];
    each of its events is the next one of some list, and no list has
    anything left at the end. *)
Inductive merged {E : Type} : list (list E) -> list E -> Prop :=
| merged_nil (owns : list (list E)) :
    Forall (fun own => own = []) owns -> merged owns []
| merged_cons (i : nat) (e : E) (own : list E) (owns : list (list E))
    (delta : list E) :
    owns !! i = Some (e :: own) ->
    merged (<[i := own]> owns) delta ->
    merged owns (e :: delta).

(** The events of a batch of calls that [Promise.all] waited for, from the
    trace [trace] on: every call [t] of [pending] went through events of its
    own and ended with the result at its position in [results]; [delta]
    interleaves the events of the calls, and its outcomes are those of the
    service. *)
Definition settled {env : Env} {A : Type} (trace : list Event)
    (pending : list (Async A)) (results : list A) (delta : list Event) : Prop :=
  exists owns,
    Forall3 yields pending owns results /\
    merged owns delta /\
    served trace delta.

(** [batched n pause owns delta]: the calls went batch after batch, [n] at
    a time.  [delta] interleaves the events of the calls of the first batch
    and, when calls are left, goes on after a pause with those of the next
    batches. *)
Inductive batched (n : nat) (pause : Z) : list (list Event) -> list Event -> Prop :=
| batched_last (owns : list (list Event)) (delta : list Event) :
    length owns <= n -> merged owns delta -> batched n pause owns delta
| batched_more (owns1 owns2 : list (list Event)) (d1 d2 : list Event) :
    length owns1 = n -> owns2 <> [] ->
    merged owns1 d1 -> batched n pause owns2 d2 ->
    batched n pause (owns1 ++ owns2) (d1 ++ EvSleep pause :: d2).
(** ** Facts about the string primitives *)

Section StringFacts.

Lemma append_cons (c : ascii) (a b : string) :
  String c a +:+ b = String c (a +:+ b).
Proof. reflexivity. Qed.

Lemma length_append (a b : string) :
  String.length (a +:+ b) = String.length a + String.length b.
Proof.
  induction a as [|c a IH]; [reflexivity |].
  rewrite append_cons. simpl. now rewrite IH.
Qed.

Lemma append_empty_r (a : string) : a +:+ EmptyString = a.
Proof.
  induction a as [|c a IH]; [reflexivity |].
  now rewrite append_cons, IH.
Qed.

Lemma append_assoc (a b c : string) : (a +:+ b) +:+ c = a +:+ (b +:+ c).
Proof.
  induction a as [|x a IH]; [reflexivity |].
  now rewrite !append_cons, IH.
Qed.

Lemma truthy_true (s : string) : truthy s = true <-> s <> EmptyString.
Proof. destruct s; simpl; split; congruence. Qed.

Lemma truthy_false (s : string) : truthy s = false <-> s = EmptyString.
Proof. destruct s; simpl; split; congruence. Qed.

Lemma split_lines_not_nil (s : string) : split_lines s <> [].
Proof.
  induction s as [|c r IH]; simpl; [discriminate |].
  destruct (Ascii.eqb c newline); [discriminate |].
  destruct (split_lines r); [contradiction | discriminate].
Qed.

Lemma join_lines_cons (l : string) (ls : list string) :
  ls <> [] -> join_lines (l :: ls) = l +:+ nl +:+ join_lines ls.
Proof. destruct ls; [contradiction | reflexivity]. Qed.

(** Splitting on newlines and joining with newlines is the identity. *)
Lemma join_split_lines (s : string) : join_lines (split_lines s) = s.
Proof.
  induction s as [|c r IH]; [reflexivity |].
  simpl split_lines. destruct (Ascii.eqb_spec c newline) as [->|Hc].
  - rewrite join_lines_cons by apply split_lines_not_nil.
    rewrite IH. reflexivity.
  - pose proof (split_lines_not_nil r) as Hnil.
    destruct (split_lines r) as [|l ls]; [contradiction |].
    destruct ls as [|l' ls].
    + simpl in *. now rewrite IH.
    + rewrite join_lines_cons by discriminate.
      rewrite join_lines_cons in IH by discriminate.
      now rewrite append_cons, IH.
Qed.

Lemma split_lines_single (s : string) :
  has_newline s = false -> split_lines s = [s].
Proof.
  induction s as [|c r IH]; simpl; [reflexivity |].
  intros H. apply orb_false_iff in H as [Hc Hr].
  rewrite Hc, (IH Hr). reflexivity.
Qed.

Lemma split_lines_no_newline (s : string) :
  Forall (fun l => has_newline l = false) (split_lines s).
Proof.
  induction s as [|c r IH]; simpl.
  - constructor; [reflexivity | constructor].
  - destruct (Ascii.eqb c newline) eqn:Hc.
    + constructor; [reflexivity | exact IH].
    + destruct (split_lines r) as [|l ls]; [repeat constructor; simpl; now rewrite Hc |].
      inversion IH; subst. constructor; [simpl; now rewrite Hc | assumption].
Qed.

Lemma split_lines_app (a b : string) :
  split_lines (a +:+ nl +:+ b) = split_lines a ++ split_lines b.
Proof.
  induction a as [|c r IH]; [reflexivity |].
  rewrite append_cons. simpl split_lines. rewrite IH.
  destruct (Ascii.eqb c newline); [reflexivity |].
  pose proof (split_lines_not_nil r).
  destruct (split_lines r); [contradiction | reflexivity].
Qed.

End StringFacts.

(** ** The chunker: loop invariants *)

Section ChunkerFacts.

Variable self : FileIngester.
Variable path : string.

Local Abbreviation step := (chunk_step self path).

(** The two outcomes of one iteration. *)
Lemma chunk_step_cases (st : ChunkLoop) (line : string) :
  (truthy (lp_currentChunk st) = true /\
   maxChunkSize self < String.length (lp_currentChunk st +:+ nl +:+ line) /\
   contents (step st line) = contents st ++ [lp_currentChunk st] /\
   map chunkIndex (lp_chunks (step st line)) =
     map chunkIndex (lp_chunks st) ++ [lp_chunkIndex st] /\
   lp_currentChunk (step st line) = line /\
   lp_chunkIndex (step st line) = S (lp_chunkIndex st))
  \/
  (truthy (lp_currentChunk st) = true /\
   String.length (lp_currentChunk st +:+ nl +:+ line) <= maxChunkSize self /\
   lp_chunks (step st line) = lp_chunks st /\
   lp_currentChunk (step st line) = lp_currentChunk st +:+ nl +:+ line /\
   lp_chunkIndex (step st line) = lp_chunkIndex st)
  \/
  (lp_currentChunk st = EmptyString /\
   lp_chunks (step st line) = lp_chunks st /\
   lp_currentChunk (step st line) = line /\
   lp_chunkIndex (step st line) = lp_chunkIndex st).
Proof.
  unfold chunk_step, contents.
  destruct (truthy (lp_currentChunk st)) eqn:Hcur.
  - destruct (Nat.ltb_spec (maxChunkSize self)
                (String.length (lp_currentChunk st +:+ nl +:+ line))) as [Hlt|Hge].
    + left. simpl. rewrite !map_app. simpl. repeat split; auto.
    + right; left. simpl. repeat split; auto.
  - right; right. apply truthy_false in Hcur. rewrite andb_false_r. simpl.
    repeat split; auto.
Qed.

Lemma indexed_step (st : ChunkLoop) (line : string) :
  indexed st -> indexed (step st line).
Proof.
  intros [Hi Hs]. unfold indexed.
  destruct (chunk_step_cases st line)
    as [(_ & _ & Hc & Hm & _ & Hn) | [(_ & _ & Hc & _ & Hn) | (_ & Hc & _ & Hn)]].
  - assert (Hlen : length (lp_chunks (step st line)) = S (length (lp_chunks st))).
    { rewrite <- (length_map chunkIndex), Hm, length_app, length_map. simpl. lia. }
    rewrite Hlen, Hn, Hm, Hs, Hi. split; [reflexivity |].
    now rewrite seq_S.
  - now rewrite Hc, Hn.
  - now rewrite Hc, Hn.
Qed.

Lemma indexed_loop (lines : list string) (st : ChunkLoop) :
  indexed st -> indexed (chunk_loop self path lines st).
Proof.
  revert st. induction lines as [|l lines IH]; intros st H; [exact H |].
  simpl. apply IH, indexed_step, H.
Qed.

Lemma held_lines_step (st : ChunkLoop) (line : string) :
  has_newline line = false ->
  List.filter truthy (held_lines (step st line)) =
  List.filter truthy (held_lines st ++ [line]).
Proof.
  intros Hline. unfold held_lines.
  destruct (chunk_step_cases st line)
    as [(_ & _ & Hc & _ & Hcur & _) | [(_ & _ & Hc & Hcur & _) | (He & Hc & Hcur & _)]].
  - rewrite Hc, Hcur, map_app, concat_app. simpl. rewrite app_nil_r.
    rewrite (split_lines_single line Hline). now rewrite <- app_assoc.
  - unfold contents. rewrite Hc, Hcur, split_lines_app.
    rewrite (split_lines_single line Hline). now rewrite <- app_assoc.
  - unfold contents. rewrite Hc, Hcur, He.
    rewrite (split_lines_single line Hline). simpl.
    rewrite !List.filter_app. simpl. now rewrite app_nil_r.
Qed.

Lemma held_lines_loop (lines : list string) (st : ChunkLoop) :
  Forall (fun l => has_newline l = false) lines ->
  List.filter truthy (held_lines (chunk_loop self path lines st)) =
  List.filter truthy (held_lines st ++ lines).
Proof.
  revert st. induction lines as [|l lines IH]; intros st Hall.
  - now rewrite app_nil_r.
  - inversion Hall as [|? ? Hl Hrest]; subst. simpl.
    rewrite (IH _ Hrest). rewrite !List.filter_app.
    rewrite (held_lines_step st l Hl). rewrite List.filter_app.
    rewrite <- app_assoc. f_equal.
    change (l :: lines) with ([l] ++ lines). now rewrite List.filter_app.
Qed.

Lemma join_lines_snoc (ls : list string) (l : string) :
  ls <> [] -> join_lines (ls ++ [l]) = join_lines ls +:+ nl +:+ l.
Proof.
  induction ls as [|x ls IH]; [contradiction |]. intros _.
  destruct ls as [|y ls]; [reflexivity |].
  change ((x :: y :: ls) ++ [l]) with (x :: ((y :: ls) ++ [l])).
  rewrite join_lines_cons by (simpl; discriminate).
  rewrite IH by discriminate.
  rewrite (join_lines_cons x (y :: ls)) by discriminate.
  now rewrite !append_assoc.
Qed.

Lemma join_lines_snoc_append (ls : list string) (a b : string) :
  join_lines (ls ++ [a +:+ nl +:+ b]) = join_lines (ls ++ [a]) +:+ nl +:+ b.
Proof.
  destruct ls as [|x ls]; [reflexivity |].
  rewrite !join_lines_snoc by discriminate.
  now rewrite !append_assoc.
Qed.

Lemma lossless_step (st : ChunkLoop) (processed : list string) (line : string) :
  truthy line = true ->
  lossless self st processed -> lossless self (step st line) (processed ++ [line]).
Proof.
  intros Hline Hinv.
  destruct processed as [|p ps].
  - destruct Hinv as [Hch Hcur]. simpl.
    destruct (chunk_step_cases st line)
      as [(Ht & _) | [(Ht & _) | (_ & Hc & Hcur' & _)]];
      try (rewrite Hcur in Ht; discriminate).
    unfold contents. rewrite Hc, Hcur', Hch. simpl.
    repeat split; auto. intros _ Hlen. lia.
  - destruct Hinv as (Ht & Hjoin & Hsmall).
    change ((p :: ps) ++ [line]) with (p :: (ps ++ [line])).
    change (p :: (ps ++ [line])) with ((p :: ps) ++ [line]).
    unfold lossless. simpl app.
    destruct (chunk_step_cases st line)
      as [(_ & _ & Hc & Hm & Hcur & _) | [(_ & Hle & Hc & Hcur & _) | (He & _)]].
    + split; [now rewrite Hcur |]. split.
      * rewrite Hc, Hcur. rewrite join_lines_snoc by (destruct (contents st); discriminate).
        rewrite Hjoin. symmetry. apply (join_lines_snoc (p :: ps)). discriminate.
      * intros Hnil. apply (f_equal (map chunkIndex)) in Hnil. rewrite Hm in Hnil.
        destruct (map chunkIndex (lp_chunks st)); discriminate.
    + split; [rewrite Hcur; destruct (lp_currentChunk st); [discriminate | reflexivity] |].
      split.
      * unfold contents. rewrite Hc, Hcur. rewrite join_lines_snoc_append.
        unfold contents in Hjoin. rewrite Hjoin. symmetry.
        apply (join_lines_snoc (p :: ps)). discriminate.
      * intros _ _. now rewrite Hcur.
    + rewrite He in Ht. discriminate.
Qed.

Lemma lossless_loop (lines processed : list string) (st : ChunkLoop) :
  Forall (fun l => truthy l = true) lines ->
  lossless self st processed ->
  lossless self (chunk_loop self path lines st) (processed ++ lines).
Proof.
  revert st processed. induction lines as [|l lines IH]; intros st processed Hall Hinv.
  - now rewrite app_nil_r.
  - inversion Hall as [|? ? Hl Hrest]; subst. simpl.
    replace (processed ++ l :: lines) with ((processed ++ [l]) ++ lines)
      by now rewrite <- app_assoc.
    apply IH; [exact Hrest |]. now apply lossless_step.
Qed.

End ChunkerFacts.

(** ** The chunker: results *)

Lemma chunk_content_set_totalChunks (n : nat) (chunks : list FileChunk) :
  map chunk_content (map (set_totalChunks n) chunks) = map chunk_content chunks.
Proof. rewrite map_map. now apply map_ext. Qed.

Lemma chunkIndex_set_totalChunks (n : nat) (chunks : list FileChunk) :
  map chunkIndex (map (set_totalChunks n) chunks) = map chunkIndex chunks.
Proof. rewrite map_map. now apply map_ext. Qed.

Lemma chunkContent_large_eq (self : FileIngester) (fileContent : FileContent) :
  maxChunkSize self < String.length (fc_content fileContent) ->
  chunkContent self fileContent =
    let st := chunk_loop self (fc_filePath fileContent)
                (split_lines (fc_content fileContent)) init_loop in
    let chunks := chunk_flush (fc_filePath fileContent) st in
    map (set_totalChunks (length chunks)) chunks.
Proof.
  intros Hlarge. unfold chunkContent.
  destruct (Nat.leb_spec (String.length (fc_content fileContent)) (maxChunkSize self));
    [lia | reflexivity].
Qed.

Lemma indexed_init : indexed init_loop.
Proof. split; reflexivity. Qed.

Lemma chunk_flush_indices (path : string) (st : ChunkLoop) :
  indexed st ->
  map chunkIndex (chunk_flush path st) = seq 0 (length (chunk_flush path st)).
Proof.
  intros [Hi Hs]. unfold chunk_flush.
  destruct (truthy (lp_currentChunk st)); [| exact Hs].
  rewrite map_app, length_app, Hs. simpl.
  rewrite Nat.add_1_r, seq_S, Hi. reflexivity.
Qed.

Lemma chunk_flush_lines (path : string) (st : ChunkLoop) :
  chunk_lines (chunk_flush path st) = List.filter truthy (held_lines st).
Proof.
  unfold chunk_lines, chunk_flush, held_lines, contents.
  destruct (truthy (lp_currentChunk st)) eqn:Hcur.
  - rewrite !map_app, concat_app. simpl. now rewrite app_nil_r.
  - apply truthy_false in Hcur. rewrite Hcur. simpl.
    rewrite List.filter_app. simpl. now rewrite app_nil_r.
Qed.

(** *** C9 *)

(** C9.  A document whose content is no longer than [maxChunkSize] is
    returned as exactly one chunk: its content is the document's content,
    its index is 0 and its [totalChunks] is 1. *)
Theorem chunkContent_small (self : FileIngester) (fileContent : FileContent) :
  String.length (fc_content fileContent) <= maxChunkSize self ->
  exists c,
    chunkContent self fileContent = [c] /\
    chunk_content c = fc_content fileContent /\
    chunk_filePath c = fc_filePath fileContent /\
    chunkIndex c = 0 /\
    totalChunks c = 1.
Proof.
  intros Hsmall. unfold chunkContent.
  destruct (Nat.leb_spec (String.length (fc_content fileContent)) (maxChunkSize self));
    [| lia].
  eexists. split; [reflexivity |]. simpl. repeat split.
Qed.

Lemma chunkContent_small_witness :
  String.length "# Small file" <= maxChunkSize fileIngester /\
  exists c,
    chunkContent fileIngester
      {| fc_filePath := "/test/small.md"; fc_content := "# Small file";
         fc_modifiedTime := 0%Z; fc_isModified := true |} = [c] /\
    chunk_content c = "# Small file" /\
    chunk_filePath c = "/test/small.md" /\
    chunkIndex c = 0 /\
    totalChunks c = 1.
Proof.
  assert (H : String.length "# Small file" <= maxChunkSize fileIngester)
    by (vm_compute; lia).
  split; [exact H |].
  exact (chunkContent_small fileIngester
           {| fc_filePath := "/test/small.md"; fc_content := "# Small file";
              fc_modifiedTime := 0%Z; fc_isModified := true |} H).
Defined.

(** *** C3 *)

(** C3, as stated, fails: a document that is one line of 8001 characters
    exceeds [maxChunkSize] and is returned as a single chunk, since a line
    is never split. *)
Lemma chunkContent_large_counterexample :
  let doc := {| fc_filePath := "/test/longline.md";
                fc_content := repeat_string "A" 8001;
                fc_modifiedTime := 0%Z; fc_isModified := true |} in
  maxChunkSize fileIngester < String.length (fc_content doc) /\
  ~ 2 <= length (chunkContent fileIngester doc).
Proof.
  split.
  - apply Nat.ltb_lt. vm_compute. reflexivity.
  - apply Nat.lt_nge, Nat.ltb_lt. vm_compute. reflexivity.
Qed.

(** C3 (amended).  For a document whose content is longer than
    [maxChunkSize]: every chunk's [totalChunks] is the number of chunks;
    the indices are 0, 1, 2, ... in order; the non-empty lines of the chunks
    are the non-empty lines of the document, in order and in full; and when
    no line of the document is empty, the chunk contents rejoined with
    newlines are the document's content, and there are at least two chunks
    as soon as the document has two lines. *)
Theorem chunkContent_large (self : FileIngester) (fileContent : FileContent) :
  maxChunkSize self < String.length (fc_content fileContent) ->
  let chunks := chunkContent self fileContent in
  Forall (fun c => totalChunks c = length chunks) chunks /\
  map chunkIndex chunks = seq 0 (length chunks) /\
  chunk_lines chunks = List.filter truthy (split_lines (fc_content fileContent)) /\
  (Forall (fun l => l <> EmptyString) (split_lines (fc_content fileContent)) ->
   rejoin chunks = fc_content fileContent /\
   (2 <= length (split_lines (fc_content fileContent)) -> 2 <= length chunks)).
Proof.
  intros Hlarge chunks. subst chunks.
  rewrite (chunkContent_large_eq self fileContent Hlarge). cbv zeta.
  set (path := fc_filePath fileContent).
  set (lines := split_lines (fc_content fileContent)).
  set (st := chunk_loop self path lines init_loop).
  repeat split.
  - rewrite length_map. apply List.Forall_forall. intros c Hc.
    apply in_map_iff in Hc as (c0 & <- & _). reflexivity.
  - rewrite chunkIndex_set_totalChunks, length_map.
    apply chunk_flush_indices, indexed_loop, indexed_init.
  - unfold chunk_lines. rewrite chunk_content_set_totalChunks.
    fold (chunk_lines (chunk_flush path st)). rewrite chunk_flush_lines.
    subst st. rewrite held_lines_loop by apply split_lines_no_newline.
    reflexivity.
  - pose proof (lossless_loop self path lines [] init_loop) as Hloss.
    unfold rejoin. rewrite chunk_content_set_totalChunks.
    assert (Hall : Forall (fun l => truthy l = true) lines).
    { eapply List.Forall_impl; [| exact H]. intros l Hl. now apply truthy_true. }
    specialize (Hloss Hall (conj eq_refl eq_refl)). simpl app in Hloss.
    fold st in Hloss. unfold lossless in Hloss.
    pose proof (split_lines_not_nil (fc_content fileContent)) as Hnil.
    fold lines in Hnil. destruct lines as [|l0 ls] eqn:Hlines; [contradiction |].
    destruct Hloss as (Hcur & Hjoin & _).
    unfold chunk_flush. rewrite Hcur, map_app. simpl.
    unfold contents in Hjoin. rewrite Hjoin, <- Hlines.
    apply join_split_lines.
  - intros Htwo. rewrite length_map.
    pose proof (lossless_loop self path lines [] init_loop) as Hloss.
    assert (Hall : Forall (fun l => truthy l = true) lines).
    { eapply List.Forall_impl; [| exact H]. intros l Hl. now apply truthy_true. }
    specialize (Hloss Hall (conj eq_refl eq_refl)). simpl app in Hloss.
    fold st in Hloss. unfold lossless in Hloss.
    fold lines in Htwo.
    destruct lines as [|l0 ls] eqn:Hlines; [simpl in Htwo; lia |].
    destruct Hloss as (Hcur & Hjoin & Hfit).
    unfold chunk_flush. rewrite Hcur, length_app. simpl.
    destruct (lp_chunks st) as [|c cs] eqn:Hch; [| simpl; lia].
    exfalso. specialize (Hfit eq_refl Htwo).
    unfold contents in Hjoin. rewrite Hch in Hjoin.
    change (join_lines (map chunk_content [] ++ [lp_currentChunk st]))
      with (lp_currentChunk st) in Hjoin.
    rewrite Hjoin, <- Hlines in Hfit. unfold lines in Hfit.
    rewrite join_split_lines in Hfit. lia.
Qed.

Lemma chunkContent_large_witness :
  let doc := {| fc_filePath := "/test/large.md";
                fc_content := "# Large file" +:+
                              repeat_string (nl +:+ "Long line of content.") 1000;
                fc_modifiedTime := 0%Z; fc_isModified := true |} in
  maxChunkSize fileIngester < String.length (fc_content doc) /\
  Forall (fun l => l <> EmptyString) (split_lines (fc_content doc)) /\
  rejoin (chunkContent fileIngester doc) = fc_content doc /\
  2 <= length (chunkContent fileIngester doc).
Proof.
  intros doc.
  assert (Hlarge : maxChunkSize fileIngester < String.length (fc_content doc))
    by (apply Nat.ltb_lt; vm_compute; reflexivity).
  assert (Hlines : Forall (fun l => l <> EmptyString) (split_lines (fc_content doc))).
  { apply List.Forall_forall. intros l Hl. apply truthy_true.
    revert l Hl. apply List.forallb_forall. vm_compute. reflexivity. }
  assert (Htwo : 2 <= length (split_lines (fc_content doc)))
    by (apply Nat.leb_le; vm_compute; reflexivity).
  destruct (chunkContent_large fileIngester doc Hlarge) as (_ & _ & _ & Hrest).
  destruct (Hrest Hlines) as [Hjoin Hlen].
  exact (conj Hlarge (conj Hlines (conj Hjoin (Hlen Htwo)))).
Defined.

(** ** The state store: results *)

Section StateFacts.

Context {rt : Runtime} {env : Env}.

(** *** C4 *)

(** C4.  [generateTaskHash] depends on the title only through its trimmed,
    lower-cased form: two titles that agree after trimming and lower-casing
    get the same hash for the same path and ordinal.  It is a function of
    the title, the path and the ordinal alone: equal inputs give equal
    hashes, whatever the other fields of the task and whatever the state. *)
Theorem generateTaskHash_normalized (t1 t2 : ExtractedTask) (p : string) (i : nat) :
  toLowerCase (trim (title t1)) = toLowerCase (trim (title t2)) ->
  generateTaskHash t1 p i = generateTaskHash t2 p i /\
  (forall (t t' : ExtractedTask) (q q' : string) (j j' : nat),
     title t = title t' -> q = q' -> j = j' ->
     generateTaskHash t q j = generateTaskHash t' q' j').
Proof.
  intros Hnorm. split.
  - unfold generateTaskHash. now rewrite Hnorm.
  - intros t t' q q' j j' Ht -> ->. unfold generateTaskHash. now rewrite Ht.
Qed.

(** *** C7 *)

(** C7.  When the state file is missing, or its content is not valid JSON,
    the state manager starts from the empty default state: [getLastRun] is
    [null], the count of processed tasks is 0 and there is no watermark.
    [loadState] has no way to throw: its result is a state. *)
Theorem loadState_fallback (file : DiskFile) :
  file = Missing \/ (exists content, file = Content content /\ JSON_parse content = None) ->
  let w := new_StateManager file [] in
  w_state w = default_state /\
  getLastRun (w_state w) = None /\
  getProcessedTaskCount (w_state w) = 0 /\
  lastModifiedTimes (w_state w) = ∅.
Proof.
  intros Hfile w.
  assert (Hdefault : w_state w = default_state).
  { subst w. unfold new_StateManager. simpl.
    destruct Hfile as [-> | (content & -> & Hparse)]; simpl; [reflexivity |].
    now rewrite Hparse. }
  rewrite Hdefault. repeat split.
Qed.

End StateFacts.

Lemma generateTaskHash_normalized_witness :
  toLowerCase (trim " Buy Milk ") = toLowerCase (trim "buy milk") /\
  generateTaskHash (rt := Mock.runtime)
    {| title := " Buy Milk "; due := None; tags := None |} "/inbox/a.md" 3 =
  generateTaskHash (rt := Mock.runtime)
    {| title := "buy milk"; due := Some "2025-08-16"; tags := None |} "/inbox/a.md" 3.
Proof.
  assert (H : toLowerCase (trim " Buy Milk ") = toLowerCase (trim "buy milk"))
    by reflexivity.
  split; [exact H |].
  exact (proj1 (generateTaskHash_normalized (rt := Mock.runtime)
                  {| title := " Buy Milk "; due := None; tags := None |}
                  {| title := "buy milk"; due := Some "2025-08-16"; tags := None |}
                  "/inbox/a.md" 3 H)).
Defined.

Lemma loadState_fallback_witness :
  JSON_parse (Runtime := Mock.runtime) "{ invalid json" = None /\
  getLastRun (w_state (new_StateManager (rt := Mock.runtime) (Content "{ invalid json") [])) = None /\
  getProcessedTaskCount
    (w_state (new_StateManager (rt := Mock.runtime) (Content "{ invalid json") [])) = 0.
Proof.
  assert (H : JSON_parse (Runtime := Mock.runtime) "{ invalid json" = None)
    by reflexivity.
  split; [exact H |].
  destruct (loadState_fallback (rt := Mock.runtime) (Content "{ invalid json")
              (or_intror (ex_intro _ "{ invalid json" (conj eq_refl H))))
    as (_ & Hrun & Hcount & _).
  exact (conj Hrun Hcount).
Defined.

(** ** Pruning the processed set *)

Section CleanupFacts.

Context {rt : Runtime} {env : Env}.

Lemma set_add_fresh (x : string) (s : list string) :
  x ∉ s -> set_add x s = s ++ [x].
Proof. intros H. unfold set_add. now rewrite bool_decide_eq_false_2. Qed.

Lemma new_Set_from (items acc : list string) :
  NoDup (acc ++ items) ->
  fold_left (fun s x => set_add x s) items acc = acc ++ items.
Proof.
  revert acc. induction items as [|x items IH]; intros acc Hnd; simpl.
  - now rewrite app_nil_r.
  - assert (Hx : x ∉ acc).
    { apply NoDup_app in Hnd as (_ & Hdisj & _). intros Hin.
      apply (Hdisj x Hin). left. }
    rewrite (set_add_fresh x acc Hx).
    rewrite IH; [now rewrite <- app_assoc |].
    now rewrite <- app_assoc.
Qed.

(** A [Set] built from a duplicate-free array lists the array. *)
Lemma new_Set_NoDup (items : list string) : NoDup items -> new_Set items = items.
Proof. intros H. unfold new_Set. now rewrite new_Set_from. Qed.

(** Saving the state does not change it. *)
Lemma saveState_state (w : World) : w_state (snd (saveState w)) = w_state w.
Proof.
  unfold saveState. destruct stateFile_writable; reflexivity.
Qed.

(** What [cleanup] leaves in [processedTasks]. *)
Lemma cleanup_processedTasks (maxEntries : Z) (w : World) :
  processedTasks (w_state (snd (cleanup maxEntries w))) =
  if (maxEntries <? Z.of_nat (length (processedTasks (w_state w))))%Z
  then new_Set (slice (- keep_count maxEntries) (processedTasks (w_state w)))
  else processedTasks (w_state w).
Proof.
  unfold cleanup, bind, gets, modify_state, ret. simpl.
  match goal with
  | |- context [if ?b then saveState else _] => destruct b
  end; [rewrite saveState_state |]; reflexivity.
Qed.

(** From two entries on, [cleanup] keeps the last [floor(0.8 * maxEntries)]
    entries of a set that is larger than [maxEntries], in their order. *)
Lemma cleanup_trims (maxEntries : Z) (w : World) :
  (2 <= maxEntries)%Z ->
  (maxEntries < Z.of_nat (length (processedTasks (w_state w))))%Z ->
  NoDup (processedTasks (w_state w)) ->
  let kept := processedTasks (w_state (snd (cleanup maxEntries w))) in
  let k := Z.to_nat (keep_count maxEntries) in
  kept = drop (length (processedTasks (w_state w)) - k) (processedTasks (w_state w)) /\
  length kept = k.
Proof.
  intros Htwo Hlarge Hnd kept k. subst kept.
  rewrite cleanup_processedTasks.
  destruct (Z.ltb_spec maxEntries (Z.of_nat (length (processedTasks (w_state w)))));
    [| lia].
  assert (Hk : (1 <= keep_count maxEntries <= maxEntries)%Z).
  { unfold keep_count. split.
    - apply Z.div_le_lower_bound; lia.
    - apply Z.div_le_upper_bound; lia. }
  unfold slice.
  destruct (Z.ltb_spec (- keep_count maxEntries) 0); [| lia].
  rewrite Z.max_l by lia.
  replace (Z.to_nat (Z.of_nat (length (processedTasks (w_state w))) + - keep_count maxEntries))
    with (length (processedTasks (w_state w)) - k) by (subst k; lia).
  rewrite new_Set_NoDup.
  - split; [reflexivity |]. rewrite length_drop. subst k. lia.
  - apply (NoDup_app (take (length (processedTasks (w_state w)) - k) (processedTasks (w_state w)))).
    now rewrite take_drop.
Qed.

(** A set with at most [maxEntries] entries is left as it is. *)
Lemma cleanup_keeps (maxEntries : Z) (w : World) :
  (Z.of_nat (length (processedTasks (w_state w))) <= maxEntries)%Z ->
  processedTasks (w_state (snd (cleanup maxEntries w))) = processedTasks (w_state w).
Proof.
  intros Hsmall. rewrite cleanup_processedTasks.
  destruct (Z.ltb_spec maxEntries (Z.of_nat (length (processedTasks (w_state w)))));
    [lia | reflexivity].
Qed.

(** *** C5 *)

(** C5 (the code at the failing input).  With [maxEntries = 1] and a
    processed set of two entries, 80% of the cap rounds down to 0 and the
    set is larger than the cap, yet [cleanup] keeps both entries:
    [slice(-0)] is [slice(0)], the whole array. *)
Theorem cleanup_keep_count_zero (ledger : DiskFile) (trace : list Event) :
  let w := {| w_state := {| lastRun := None;
                            processedTasks := ["a"; "b"];
                            lastModifiedTimes := ∅ |};
              w_ledger := ledger;
              w_trace := trace |} in
  keep_count 1 = 0%Z /\
  (1 < Z.of_nat (getProcessedTaskCount (w_state w)))%Z /\
  processedTasks (w_state (snd (cleanup 1 w))) = ["a"; "b"].
Proof.
  intros w. split; [reflexivity |]. split; [reflexivity |].
  rewrite cleanup_processedTasks. reflexivity.
Qed.

End CleanupFacts.

(** With 15000 entries and the default cap of 10000, the 8000 entries
    inserted last are left. *)
Lemma cleanup_default_bound {rt : Runtime} {env : Env} (w : World) :
  Z.of_nat (length (processedTasks (w_state w))) = 15000%Z ->
  NoDup (processedTasks (w_state w)) ->
  processedTasks (w_state (snd (cleanup 10000 w))) =
    drop (Z.to_nat 7000) (processedTasks (w_state w)) /\
  Z.of_nat (length (processedTasks (w_state (snd (cleanup 10000 w))))) = 8000%Z.
Proof.
  intros Hlen Hnd.
  destruct (cleanup_trims 10000 w) as [Hkept Hk]; [lia | lia | exact Hnd |].
  cbv zeta in Hkept, Hk.
  assert (Hcount : keep_count 10000 = 8000%Z) by reflexivity.
  split.
  - rewrite Hkept. f_equal. lia.
  - rewrite Hk. lia.
Qed.

(** ** Marking synced tasks *)

Section MarkFacts.

Context {rt : Runtime} {env : Env}.

Lemma elem_of_set_add (h x : string) (s : list string) :
  h ∈ set_add x s <-> h ∈ s \/ h = x.
Proof.
  unfold set_add. destruct (bool_decide (x ∈ s)) eqn:Hx.
  - apply bool_decide_eq_true in Hx. split; [auto | intros [H | ->]; auto].
  - rewrite elem_of_app, list_elem_of_singleton. tauto.
Qed.

Lemma elem_of_set_adds (h : string) (xs s : list string) :
  h ∈ fold_left (fun s x => set_add x s) xs s <-> h ∈ s \/ h ∈ xs.
Proof.
  revert s. induction xs as [|x xs IH]; intros s; simpl.
  - rewrite elem_of_nil. tauto.
  - rewrite IH, elem_of_set_add, elem_of_cons. tauto.
Qed.

Lemma markTaskProcessed_run (h : string) (w : World) :
  markTaskProcessed h w =
    (Ok tt, {| w_state := {| lastRun := lastRun (w_state w);
                             processedTasks := set_add h (processedTasks (w_state w));
                             lastModifiedTimes := lastModifiedTimes (w_state w) |};
               w_ledger := w_ledger w;
               w_trace := w_trace w ++ [EvMarkProcessed h] |}).
Proof. reflexivity. Qed.

(** The loop from index [i] on, when a task stands against every result. *)
Lemma mark_synced_from (allTasks : list TaskWithMeta)
    (syncResults : list NotionSyncResult) (i : nat) (w : World) :
  length syncResults + i = length allTasks ->
  exists w',
    mark_synced allTasks syncResults i w = (Ok tt, w') /\
    w_trace w' = w_trace w ++ concat (zip_with mark_calls (drop i allTasks) syncResults) /\
    w_ledger w' = w_ledger w /\
    lastRun (w_state w') = lastRun (w_state w) /\
    lastModifiedTimes (w_state w') = lastModifiedTimes (w_state w) /\
    processedTasks (w_state w') =
      fold_left (fun s x => set_add x s)
        (synced_hashes (drop i allTasks) syncResults) (processedTasks (w_state w)).
Proof.
  revert i w. induction syncResults as [|result rest IH]; intros i w Hlen.
  - exists w. simpl. unfold synced_hashes.
    destruct (drop i allTasks); simpl; rewrite ?app_nil_r; repeat split; reflexivity.
  - simpl in Hlen.
    destruct (allTasks !! i) as [t|] eqn:Ht;
      [| apply lookup_ge_None in Ht; lia].
    rewrite (drop_S _ _ _ Ht). unfold synced_hashes. simpl zip_with. simpl concat.
    simpl mark_synced. rewrite Ht. unfold bind at 1. unfold mark_calls at 1.
    destruct (success result) eqn:Hs.
    + rewrite markTaskProcessed_run.
      edestruct (IH (S i)) as (w' & Hrun & Htr & Hled & Hlr & Hmt & Hpt); [lia |].
      exists w'. split; [exact Hrun |].
      rewrite Htr, Hled, Hlr, Hmt, Hpt. simpl.
      rewrite <- app_assoc. repeat split; reflexivity.
    + unfold ret.
      edestruct (IH (S i)) as (w' & Hrun & Htr & Hled & Hlr & Hmt & Hpt); [lia |].
      exists w'. split; [exact Hrun |].
      rewrite Htr, Hled, Hlr, Hmt, Hpt. simpl. repeat split; reflexivity.
Qed.

Lemma elem_of_synced_hashes (h : string) (allTasks : list TaskWithMeta)
    (syncResults : list NotionSyncResult) :
  h ∈ synced_hashes allTasks syncResults <->
  exists i t r,
    allTasks !! i = Some t /\ syncResults !! i = Some r /\
    success r = true /\ hash t = h.
Proof.
  unfold synced_hashes.
  revert syncResults. induction allTasks as [|t ts IH]; intros syncResults.
  - simpl. rewrite elem_of_nil. split; [tauto |].
    intros (i & t & r & Ht & _). now rewrite lookup_nil in Ht.
  - destruct syncResults as [|r rs].
    + simpl. rewrite elem_of_nil. split; [tauto |].
      intros (i & t' & r & _ & Hr & _). now rewrite lookup_nil in Hr.
    + simpl. rewrite elem_of_app, IH. split.
      * intros [Hhead | (i & t' & r' & Ht & Hr & Hs & Hh)].
        -- destruct (success r) eqn:Hs; [| now apply elem_of_nil in Hhead].
           apply list_elem_of_singleton in Hhead.
           exists 0, t, r. repeat split; auto.
        -- exists (S i), t', r'. repeat split; auto.
      * intros (i & t' & r' & Ht & Hr & Hs & Hh).
        destruct i as [|i]; simpl in Ht, Hr.
        -- left. injection Ht as <-. injection Hr as <-.
           rewrite Hs. apply list_elem_of_singleton. auto.
        -- right. exists i, t', r'. repeat split; auto.
Qed.

End MarkFacts.

(** ** The Notion client: results *)

Section NotionFacts.

Context {rt : Runtime} {env : Env}.

Lemma after_nil (w : World) : after w [] = w.
Proof. destruct w. unfold after. simpl. now rewrite app_nil_r. Qed.

Lemma after_after (w : World) (d1 d2 : list Event) :
  after (after w d1) d2 = after w (d1 ++ d2).
Proof. unfold after. simpl. now rewrite app_assoc. Qed.

Lemma fetch_run (req : Request) (w : World) :
  fetch req w =
    (match server (w_trace w) req with
     | Rejected reason => Throw reason
     | Resolved response => Ok response
     end, after w [EvFetch req (server (w_trace w) req)]).
Proof. unfold fetch, after. destruct (server (w_trace w) req); reflexivity. Qed.

Lemma sleep_run (ms : Z) (w : World) : sleep ms w = (Ok tt, after w [EvSleep ms]).
Proof. reflexivity. Qed.

(** [callNotion], one attempt at a time. *)
Lemma callNotion_eq (token endpoint method : string) (body : option Json)
    (attempt : nat) (w : World) :
  callNotion token endpoint method body attempt w =
    let req := notion_request token endpoint method body in
    let w1 := after w [EvFetch req (server (w_trace w) req)] in
    match server (w_trace w) req with
    | Rejected reason => (Throw reason, w1)
    | Resolved response =>
        if ok response then
          match resp_json response with
          | Some j => (Ok j, w1)
          | None => (Throw "response.json() failed", w1)
          end
        else if decide (status response = 429%Z /\ attempt <= 3) then
          callNotion token endpoint method body (S attempt)
            (after w1 [EvSleep (2 ^ Z.of_nat attempt * 1000)])
        else if decide ((500 <= status response)%Z /\ attempt <= 2) then
          callNotion token endpoint method body (S attempt)
            (after w1 [EvSleep (Z.of_nat attempt * 2000)])
        else (Throw ("Notion API error: " +:+ errorMessage response), w1)
    end.
Proof.
  simp callNotion. rewrite fetch_run. cbv zeta.
  destruct (server (w_trace w) (notion_request token endpoint method body))
    as [reason | response]; simpl; [reflexivity |].
  destruct (ok response); simpl.
  - destruct (resp_json response); reflexivity.
  - destruct (decide (status response = 429%Z /\ attempt <= 3)); simpl; [reflexivity |].
    destruct (decide ((500 <= status response)%Z /\ attempt <= 2)); reflexivity.
Qed.

Lemma retries_single (kind : Response -> bool) (req : Request) (out : FetchOutcome) :
  retries kind [EvFetch req out] = 0.
Proof. destruct out; reflexivity. Qed.

Lemma retries_retry (kind : Response -> bool) (req : Request) (response : Response)
    (ms : Z) (rest : list Event) :
  retries kind (EvFetch req (Resolved response) :: EvSleep ms :: rest) =
  (if kind response then 1 else 0) + retries kind rest.
Proof. reflexivity. Qed.

(** What one call of [callNotion] does, from any attempt on: it changes
    nothing but the trace, to which it adds a retry schedule. *)
Lemma callNotion_run (token endpoint method : string) (body : option Json)
    (k attempt : nat) (w : World) :
  4 - attempt = k ->
  let req := notion_request token endpoint method body in
  exists delta,
    snd (callNotion token endpoint method body attempt w) = after w delta /\
    retry_schedule req attempt delta /\
    retries is_rate_limit delta <= 4 - attempt /\
    retries is_server_error delta <= 3 - attempt /\
    requests delta = S (retries (fun _ => true) delta) /\
    created_records delta <= 1 /\
    (is_create req = false -> created_records delta = 0) /\
    (forall j, fst (callNotion token endpoint method body attempt w) = Ok j ->
               is_create req = true -> created_records delta = 1).
Proof.
  intros Hk req. revert attempt w Hk.
  induction k as [|k IH]; intros attempt w Hk; rewrite callNotion_eq; cbv zeta;
    fold req; destruct (server (w_trace w) req) as [reason | response] eqn:Hout.
  all: try (exists [EvFetch req (Rejected reason)];
            unfold created_records, requests; simpl;
            repeat split; try lia; try reflexivity; intros; discriminate).
  all: destruct (ok response) eqn:Hok.
  all: try (exists [EvFetch req (Resolved response)];
            unfold created_records, requests; simpl; rewrite Hok;
            destruct (resp_json response); simpl; destruct (is_create req); simpl;
            repeat split; try lia; try reflexivity; try (left; reflexivity);
            intros; congruence).
  all: destruct (decide (status response = 429%Z /\ attempt <= 3)) as [[Hs Ha] | Hno429].
  all: try lia.
  all: try destruct (decide ((500 <= status response)%Z /\ attempt <= 2)) as [[Hs Ha] | Hno5xx].
  all: try lia.
  all: try (exists [EvFetch req (Resolved response)];
            unfold created_records, requests; simpl; rewrite Hok, andb_false_r; simpl;
            repeat split; try lia; try reflexivity;
            try (right; split; assumption); intros; discriminate).
  - rewrite after_after. simpl app.
    destruct (IH (S attempt)
                (after w [EvFetch req (Resolved response);
                          EvSleep (2 ^ Z.of_nat attempt * 1000)]))
      as (delta & Hrun & Hsched & H429 & H5xx & Hreq & Hcr & Hcr0 & Hcr1); [lia |].
    exists (EvFetch req (Resolved response) :: EvSleep (2 ^ Z.of_nat attempt * 1000) :: delta).
    rewrite Hrun, after_after. split; [reflexivity |].
    rewrite !retries_retry.
    unfold is_rate_limit at 1, is_server_error at 1.
    replace (status response =? 429)%Z with true by (symmetry; apply Z.eqb_eq; exact Hs).
    replace (500 <=? status response)%Z with false by (symmetry; apply Z.leb_gt; lia).
    unfold created_records, requests in *. simpl. rewrite Hok, andb_false_r. simpl.
    repeat split; try lia; try assumption.
    + left. repeat split; auto.
  - rewrite after_after. simpl app.
    destruct (IH (S attempt)
                (after w [EvFetch req (Resolved response);
                          EvSleep (Z.of_nat attempt * 2000)]))
      as (delta & Hrun & Hsched & H429 & H5xx & Hreq & Hcr & Hcr0 & Hcr1); [lia |].
    exists (EvFetch req (Resolved response) :: EvSleep (Z.of_nat attempt * 2000) :: delta).
    rewrite Hrun, after_after. split; [reflexivity |].
    rewrite !retries_retry.
    unfold is_rate_limit at 1, is_server_error at 1.
    replace (500 <=? status response)%Z with true by (symmetry; apply Z.leb_le; exact Hs).
    destruct (status response =? 429)%Z eqn:H429'; [apply Z.eqb_eq in H429'; lia |].
    unfold created_records, requests in *. simpl. rewrite Hok, andb_false_r. simpl.
    repeat split; try lia; try assumption.
    + right. repeat split; auto.
Qed.

Lemma retry_schedule_only_requests (req : Request) (delta : list Event) :
  forall attempt, retry_schedule req attempt delta -> only_requests req delta.
Proof.
  unfold only_requests.
  remember (length delta) as n eqn:Hn.
  assert (Hle : length delta <= n) by lia. clear Hn.
  revert delta Hle. induction n as [|n IH]; intros delta Hle attempt Hs.
  { destruct delta; [constructor | simpl in Hle; lia]. }
  destruct delta as [|e1 rest]; [constructor |].
  destruct e1 as [r out| | | | |]; try contradiction.
  destruct rest as [|e2 rest].
  - destruct out; simpl in Hs; destruct Hs as [-> _]; repeat constructor.
  - destruct out as [reason | response]; [contradiction |].
    destruct e2 as [|ms| | | |]; try contradiction.
    simpl in Hs. destruct Hs as (-> & _ & Hrest).
    constructor; [reflexivity |]. constructor; [exact I |].
    apply (IH rest) with (attempt := S attempt); [simpl in Hle; lia | exact Hrest].
Qed.

Lemma is_create_exists_request (token databaseId taskHash : string) :
  is_create (exists_request token databaseId taskHash) = false.
Proof. reflexivity. Qed.

Lemma is_create_create_request (token databaseId : string) (t : TaskWithMeta) :
  is_create (create_request token databaseId t) = true.
Proof. reflexivity. Qed.

(** [taskExists] in terms of its request: whatever is thrown inside the
    [try] block is answered with [false]. *)
Lemma taskExists_eq (token databaseId taskHash : string) (w : World) :
  taskExists token databaseId taskHash w =
    match callNotion token (query_endpoint databaseId) "POST"
            (Some (searchBody taskHash)) 1 w with
    | (Ok response, w1) =>
        (match fst (has_results response w1) with
         | Ok b => Ok b
         | Throw _ => Ok false
         end, w1)
    | (Throw _, w1) => (Ok false, w1)
    end.
Proof.
  unfold taskExists, try_catch, bind.
  destruct (callNotion token (query_endpoint databaseId) "POST"
              (Some (searchBody taskHash)) 1 w) as [[response | e] w1]; [| reflexivity].
  unfold has_results. simpl. now destruct (results_found response).
Qed.

(** [taskExists] never throws, sends only its query and creates nothing. *)
Lemma taskExists_run (token databaseId taskHash : string) (w : World) :
  exists b delta,
    taskExists token databaseId taskHash w = (Ok b, after w delta) /\
    retry_schedule (exists_request token databaseId taskHash) 1 delta /\
    only_requests (exists_request token databaseId taskHash) delta /\
    created_records delta = 0.
Proof.
  destruct (callNotion_run token (query_endpoint databaseId) "POST"
              (Some (searchBody taskHash)) 3 1 w eq_refl)
    as (delta & Hrun & Hsched & _ & _ & _ & _ & Hcr0 & _).
  rewrite taskExists_eq.
  destruct (callNotion token (query_endpoint databaseId) "POST"
              (Some (searchBody taskHash)) 1 w) as [[response | e] w1];
    simpl in Hrun; subst w1.
  - exists (match fst (has_results response (after w delta)) with
            | Ok b => b
            | Throw _ => false
            end), delta.
    split; [now destruct (fst (has_results response (after w delta))) |].
    split; [exact Hsched |]. split; [eapply retry_schedule_only_requests, Hsched |].
    apply Hcr0, is_create_exists_request.
  - exists false, delta. split; [reflexivity |].
    split; [exact Hsched |]. split; [eapply retry_schedule_only_requests, Hsched |].
    apply Hcr0, is_create_exists_request.
Qed.

(** [createTask] in terms of its two steps. *)
Lemma createTask_eq (token databaseId : string) (t : TaskWithMeta) (w : World) :
  createTask token databaseId t w =
    match taskExists token databaseId (hash t) w with
    | (Ok true, w1) => (Ok existing, w1)
    | (Ok false, w1) =>
        match callNotion token "/pages" "POST" (Some (pageData databaseId t)) 1 w1 with
        | (Ok JNull, w2) =>
            (Ok {| success := false; pageId := None; pageUrl := None;
                   error := Some "Cannot read properties of null" |}, w2)
        | (Ok response, w2) =>
            (Ok {| success := true;
                   pageId := json_get_string "id" response;
                   pageUrl := json_get_string "url" response;
                   error := None |}, w2)
        | (Throw e, w2) =>
            (Ok {| success := false; pageId := None; pageUrl := None;
                   error := Some e |}, w2)
        end
    | (Throw e, w1) =>
        (Ok {| success := false; pageId := None; pageUrl := None;
               error := Some e |}, w1)
    end.
Proof.
  unfold createTask, try_catch, bind.
  destruct (taskExists token databaseId (hash t) w) as [[[|] | e] w1]; try reflexivity.
  destruct (callNotion token "/pages" "POST" (Some (pageData databaseId t)) 1 w1)
    as [[response | e] w2]; [| reflexivity].
  destruct response; reflexivity.
Qed.

End NotionFacts.

Section NotionTheorems.

Context {rt : Runtime} {env : Env}.

(** *** C6 *)

(** C6.  A call of [callNotion] sends its request, and sends it again only
    after a response that is not ok: after a 429 while the attempt number is
    at most 3, having waited [2^attempt] seconds, and after a status of 500
    or more while the attempt number is at most 2, having waited
    [2 * attempt] seconds.  So at most 3 retries follow a rate-limit response
    and at most 2 follow a server error, and the requests sent are one more
    than the retries.  When the first response is a 429 and the second one
    is ok, the call returns the second response's value after exactly one
    retry: two requests and one pause of 2 seconds. *)
Theorem callNotion_retry_policy (token endpoint method : string)
    (body : option Json) (w : World) :
  let req := notion_request token endpoint method body in
  (exists delta,
     snd (callNotion token endpoint method body 1 w) = after w delta /\
     retry_schedule req 1 delta /\
     retries is_rate_limit delta <= 3 /\
     retries is_server_error delta <= 2 /\
     requests delta = S (retries (fun _ => true) delta)) /\
  (forall limited answer j,
     server (w_trace w) req = Resolved limited ->
     status limited = 429%Z ->
     server (w_trace w ++ [EvFetch req (Resolved limited); EvSleep 2000]) req =
       Resolved answer ->
     ok answer = true ->
     resp_json answer = Some j ->
     callNotion token endpoint method body 1 w =
       (Ok j, after w [EvFetch req (Resolved limited); EvSleep 2000;
                       EvFetch req (Resolved answer)])).
Proof.
  intros req. split.
  - destruct (callNotion_run token endpoint method body 3 1 w eq_refl)
      as (delta & Hrun & Hsched & H429 & H5xx & Hreq & _).
    exists delta. repeat split; assumption.
  - intros limited answer j Hfirst Hstatus Hsecond Hok Hjson.
    rewrite callNotion_eq. cbv zeta. fold req. rewrite Hfirst.
    assert (Hnot : ok limited = false) by (unfold ok; now rewrite Hstatus).
    rewrite Hnot.
    destruct (decide (status limited = 429%Z /\ 1 <= 3)) as [_ | Hno]; [| lia].
    rewrite after_after. simpl app.
    change (2 ^ Z.of_nat 1 * 1000)%Z with 2000%Z.
    rewrite callNotion_eq. cbv zeta. fold req.
    change (w_trace (after w [EvFetch req (Resolved limited); EvSleep 2000]))
      with (w_trace w ++ [EvFetch req (Resolved limited); EvSleep 2000]).
    rewrite Hsecond, Hok, Hjson, after_after. reflexivity.
Qed.

(** *** C2 *)

(** C2.  Two calls of [createTask] for the same task.  The store answers
    the existence query of the first call with no page, accepts the page,
    and answers the existence query of the second call with a page.  Then
    the first call sends its query and its create request; the second call
    sends its existence query and nothing else, no create request, and
    returns [success = true] with ["existing"] as page id and as page url and
    no error; together the two calls create exactly one page. *)
Theorem createTask_twice (token databaseId : string) (t : TaskWithMeta) (w0 : World)
    (absent created found : Response) (page : Json) :
  let query :=
    {| req_url := "https://api.notion.com/v1/databases/" +:+ databaseId +:+ "/query";
       req_method := "POST";
       req_token := token;
       req_body :=
         Some (JObj [ ("filter",
                       JObj [ ("property", JStr "Task ID");
                              ("rich_text", JObj [ ("equals", JStr (hash t)) ]) ]) ]) |} in
  let create :=
    {| req_url := "https://api.notion.com/v1/pages";
       req_method := "POST";
       req_token := token;
       req_body := Some (pageData databaseId t) |} in
  let first := [EvFetch query (Resolved absent); EvFetch create (Resolved created)] in
  let second := [EvFetch query (Resolved found)] in
  server (w_trace w0) query = Resolved absent ->
  reports_absent absent ->
  server (w_trace w0 ++ [EvFetch query (Resolved absent)]) create = Resolved created ->
  accepts_page created page ->
  server (w_trace w0 ++ first) query = Resolved found ->
  reports_existing found ->
  exists r1 r2,
    createTask token databaseId t w0 = (Ok r1, after w0 first) /\
    (page <> JNull ->
     r1 = {| success := true;
             pageId := json_get_string "id" page;
             pageUrl := json_get_string "url" page;
             error := None |}) /\
    createTask token databaseId t (after w0 first) = (Ok r2, after w0 (first ++ second)) /\
    success r2 = true /\
    pageId r2 = Some "existing" /\
    pageUrl r2 = Some "existing" /\
    error r2 = None /\
    created_records second = 0 /\
    created_records (first ++ second) = 1.
Proof.
  intros query create first second Hq1 (Hok1 & listing1 & Hjson1 & Hnone)
    Hc (Hokc & Hjsonc) Hq2 (Hok2 & listing2 & item & items & Hjson2 & Hsome).
  assert (Hexists1 : taskExists token databaseId (hash t) w0 =
                     (Ok false, after w0 [EvFetch query (Resolved absent)])).
  { rewrite taskExists_eq, callNotion_eq. cbv zeta.
    change (notion_request token (query_endpoint databaseId) "POST"
              (Some (searchBody (hash t)))) with query.
    rewrite Hq1, Hok1, Hjson1. unfold has_results, results_found. simpl.
    destruct listing1; try discriminate. now rewrite Hnone. }
  assert (Hcreate : callNotion token "/pages" "POST" (Some (pageData databaseId t)) 1
                      (after w0 [EvFetch query (Resolved absent)]) =
                    (Ok page, after w0 first)).
  { rewrite callNotion_eq. cbv zeta.
    change (notion_request token "/pages" "POST" (Some (pageData databaseId t)))
      with create.
    change (w_trace (after w0 [EvFetch query (Resolved absent)]))
      with (w_trace w0 ++ [EvFetch query (Resolved absent)]).
    rewrite Hc, Hokc, Hjsonc, after_after. reflexivity. }
  assert (Hexists2 : taskExists token databaseId (hash t) (after w0 first) =
                     (Ok true, after w0 (first ++ second))).
  { rewrite taskExists_eq, callNotion_eq. cbv zeta.
    change (notion_request token (query_endpoint databaseId) "POST"
              (Some (searchBody (hash t)))) with query.
    change (w_trace (after w0 first)) with (w_trace w0 ++ first).
    rewrite Hq2, Hok2, Hjson2, after_after. unfold has_results, results_found. simpl.
    destruct listing2; try discriminate. now rewrite Hsome. }
  assert (Hone : created_records (first ++ second) = 1).
  { unfold created_records, first, second. simpl.
    change (is_create query) with false. change (is_create create) with true.
    rewrite Hokc. simpl. now destruct (ok found). }
  assert (Hzero : created_records second = 0) by reflexivity.
  exists (match page with
          | JNull =>
              {| success := false; pageId := None; pageUrl := None;
                 error := Some "Cannot read properties of null" |}
          | _ =>
              {| success := true;
                 pageId := json_get_string "id" page;
                 pageUrl := json_get_string "url" page;
                 error := None |}
          end), existing.
  split; [rewrite createTask_eq, Hexists1, Hcreate; now destruct page |].
  split; [intros Hnull; destruct page; try contradiction; reflexivity |].
  split; [now rewrite createTask_eq, Hexists2 |].
  repeat split; assumption.
Qed.

(** *** C10 *)

(** C10.  [taskExists] never throws.  When its query fails, whatever the
    error, it answers [false]; [createTask] then goes on to send the create
    request, and when the store accepts it the result has [success = true]
    and one more page exists, whether or not the store already held a page
    with this hash. *)
Theorem taskExists_failure_creates (token databaseId : string) (t : TaskWithMeta)
    (w w1 : World) (e : string) :
  callNotion token (query_endpoint databaseId) "POST"
    (Some (searchBody (hash t))) 1 w = (Throw e, w1) ->
  (forall w', exists b, fst (taskExists token databaseId (hash t) w') = Ok b) /\
  taskExists token databaseId (hash t) w = (Ok false, w1) /\
  (exists out rest,
     snd (createTask token databaseId t w) =
       after w1 (EvFetch (create_request token databaseId t) out :: rest)) /\
  (forall response w2,
     callNotion token "/pages" "POST" (Some (pageData databaseId t)) 1 w1 =
       (Ok response, w2) ->
     response <> JNull ->
     exists result delta,
       createTask token databaseId t w = (Ok result, w2) /\
       success result = true /\
       w2 = after w1 delta /\
       created_records delta = 1).
Proof.
  intros Hfail.
  assert (Hexists : taskExists token databaseId (hash t) w = (Ok false, w1)).
  { now rewrite taskExists_eq, Hfail. }
  split; [| split; [exact Hexists | split]].
  - intros w'. destruct (taskExists_run token databaseId (hash t) w')
      as (b & delta & Hrun & _). exists b. now rewrite Hrun.
  - rewrite createTask_eq, Hexists.
    pose proof (callNotion_eq token "/pages" "POST" (Some (pageData databaseId t)) 1 w1)
      as Heq. cbv zeta in Heq.
    fold (create_request token databaseId t) in Heq.
    destruct (callNotion_run token "/pages" "POST" (Some (pageData databaseId t)) 3 1
                w1 eq_refl) as (delta & Hrun & Hsched & _).
    fold (create_request token databaseId t) in Hsched.
    assert (Hshape : exists out rest,
               delta = EvFetch (create_request token databaseId t) out :: rest).
    { destruct delta as [|[r out| | | | |] rest]; try contradiction.
      destruct rest as [|e2 rest].
      - destruct out; simpl in Hsched; destruct Hsched as [-> _]; eauto.
      - destruct out as [|resp]; [contradiction |].
        destruct e2; try contradiction. simpl in Hsched.
        destruct Hsched as (-> & _). eauto. }
    destruct Hshape as (out & rest & ->). exists out, rest.
    destruct (callNotion token "/pages" "POST" (Some (pageData databaseId t)) 1 w1)
      as [[response | e'] w2]; simpl in Hrun; subst w2; [| reflexivity].
    destruct response; reflexivity.
  - intros response w2 Hcreate Hnull.
    destruct (callNotion_run token "/pages" "POST" (Some (pageData databaseId t)) 3 1
                w1 eq_refl) as (delta & Hrun & _ & _ & _ & _ & _ & _ & Hcr).
    rewrite Hcreate in Hrun. simpl in Hrun.
    specialize (Hcr response). rewrite Hcreate in Hcr.
    specialize (Hcr eq_refl (is_create_create_request token databaseId t)).
    rewrite createTask_eq, Hexists, Hcreate.
    destruct response; try contradiction;
      eexists _, delta; repeat split; auto.
Qed.

End NotionTheorems.

(** *** The client on the scripts of its tests *)

Lemma callNotion_retry_policy_witness :
  let env := Mock.store [Mock.rate_limited; Mock.page_created] in
  let req := notion_request "test-notion-token" "/pages" "POST" None in
  server (w_trace Mock.empty_world) req = Resolved Mock.rate_limited /\
  status Mock.rate_limited = 429%Z /\
  server (w_trace Mock.empty_world ++ [EvFetch req (Resolved Mock.rate_limited); EvSleep 2000])
    req = Resolved Mock.page_created /\
  ok Mock.page_created = true /\
  resp_json Mock.page_created = Some Mock.page_json /\
  callNotion (rt := Mock.runtime) "test-notion-token" "/pages" "POST" None 1 Mock.empty_world =
    (Ok Mock.page_json,
     after Mock.empty_world
       [EvFetch req (Resolved Mock.rate_limited); EvSleep 2000;
        EvFetch req (Resolved Mock.page_created)]).
Proof.
  intros env req.
  assert (H1 : server (w_trace Mock.empty_world) req = Resolved Mock.rate_limited)
    by reflexivity.
  assert (H2 : status Mock.rate_limited = 429%Z) by reflexivity.
  assert (H3 : server (w_trace Mock.empty_world
                         ++ [EvFetch req (Resolved Mock.rate_limited); EvSleep 2000])
                 req = Resolved Mock.page_created) by reflexivity.
  assert (H4 : ok Mock.page_created = true) by reflexivity.
  assert (H5 : resp_json Mock.page_created = Some Mock.page_json) by reflexivity.
  repeat (split; [assumption |]).
  exact (proj2 (callNotion_retry_policy (rt := Mock.runtime) (env := env)
                  "test-notion-token" "/pages" "POST" None Mock.empty_world)
           Mock.rate_limited Mock.page_created Mock.page_json H1 H2 H3 H4 H5).
Defined.

(** Three rate-limit responses are retried, the fourth is not. *)
Example callNotion_rate_limit_exhausted :
  let env := Mock.store [Mock.rate_limited; Mock.rate_limited; Mock.rate_limited;
                         Mock.rate_limited; Mock.page_created] in
  let run := callNotion (rt := Mock.runtime) "test-notion-token" "/pages" "POST" None 1
               Mock.empty_world in
  fst run = Throw "Notion API error: Rate limited" /\
  requests (w_trace (snd run)) = 4 /\
  retries is_rate_limit (w_trace (snd run)) = 3.
Proof. vm_compute. repeat split. Qed.

(** Two server errors are retried, the third is not. *)
Example callNotion_server_error_exhausted :
  let env := Mock.store [Mock.server_down; Mock.server_down; Mock.server_down;
                         Mock.page_created] in
  let run := callNotion (rt := Mock.runtime) "test-notion-token" "/pages" "POST" None 1
               Mock.empty_world in
  fst run = Throw "Notion API error: Internal server error" /\
  requests (w_trace (snd run)) = 3 /\
  retries is_server_error (w_trace (snd run)) = 2 /\
  List.filter (fun e => match e with EvSleep _ => true | _ => false end)
    (w_trace (snd run)) = [EvSleep 2000; EvSleep 4000].
Proof. vm_compute. repeat split. Qed.

Lemma createTask_twice_witness :
  let rt := Mock.runtime in
  let env := Mock.store [Mock.query_empty; Mock.page_created; Mock.query_found] in
  let t := Mock.buy_milk_task in
  let query := exists_request "test-notion-token" "test-database-id" (hash t) in
  let create := create_request "test-notion-token" "test-database-id" t in
  let first := [EvFetch query (Resolved Mock.query_empty);
                EvFetch create (Resolved Mock.page_created)] in
  let second := [EvFetch query (Resolved Mock.query_found)] in
  server [] query = Resolved Mock.query_empty /\
  reports_absent Mock.query_empty /\
  server [EvFetch query (Resolved Mock.query_empty)] create = Resolved Mock.page_created /\
  accepts_page Mock.page_created Mock.page_json /\
  server first query = Resolved Mock.query_found /\
  reports_existing Mock.query_found /\
  createTask "test-notion-token" "test-database-id" t Mock.empty_world =
    (Ok {| success := true; pageId := Some "page-id-123";
           pageUrl := Some "https://notion.so/page-id-123"; error := None |},
     after Mock.empty_world first) /\
  createTask "test-notion-token" "test-database-id" t (after Mock.empty_world first) =
    (Ok {| success := true; pageId := Some "existing"; pageUrl := Some "existing";
           error := None |},
     after Mock.empty_world (first ++ second)) /\
  created_records (first ++ second) = 1.
Proof.
  intros rt env t query create first second.
  assert (H1 : server [] query = Resolved Mock.query_empty) by reflexivity.
  assert (H2 : reports_absent Mock.query_empty).
  { split; [reflexivity |]. eexists. split; reflexivity. }
  assert (H3 : server [EvFetch query (Resolved Mock.query_empty)] create =
               Resolved Mock.page_created) by reflexivity.
  assert (H4 : accepts_page Mock.page_created Mock.page_json) by (split; reflexivity).
  assert (H5 : server first query = Resolved Mock.query_found) by reflexivity.
  assert (H6 : reports_existing Mock.query_found).
  { split; [reflexivity |]. eexists _, _, _. split; reflexivity. }
  repeat (split; [assumption |]).
  destruct (createTask_twice (rt := rt) (env := env)
              "test-notion-token" "test-database-id" t Mock.empty_world
              Mock.query_empty Mock.page_created Mock.query_found Mock.page_json
              H1 H2 H3 H4 H5 H6)
    as (r1 & r2 & Hfirst & Hr1 & Hsecond & Hsuccess & Hid & Hurl & Herror & _ & Hone).
  rewrite (Hr1 ltac:(discriminate)) in Hfirst.
  destruct r2 as [s2 id2 url2 e2]. simpl in Hsuccess, Hid, Hurl, Herror. subst.
  split; [exact Hfirst |]. split; [exact Hsecond | exact Hone].
Defined.

Lemma taskExists_failure_creates_witness :
  let env := Mock.store [Mock.query_empty; Mock.page_created;
                         Mock.bad_request; Mock.page_created] in
  let t := Mock.buy_milk_task in
  let q := exists_request "test-notion-token" "test-database-id" (hash t) in
  let c := create_request "test-notion-token" "test-database-id" t in
  let w := after Mock.empty_world
             [EvFetch q (Resolved Mock.query_empty); EvFetch c (Resolved Mock.page_created)] in
  let w1 := after w [EvFetch q (Resolved Mock.bad_request)] in
  callNotion (rt := Mock.runtime) "test-notion-token"
    (query_endpoint "test-database-id") "POST" (Some (searchBody (hash t))) 1 w =
    (Throw "Notion API error: Bad request", w1) /\
  taskExists (rt := Mock.runtime) "test-notion-token" "test-database-id" (hash t) w =
    (Ok false, w1) /\
  exists out rest,
    snd (createTask (rt := Mock.runtime) "test-notion-token" "test-database-id" t w) =
      after w1 (EvFetch c out :: rest).
Proof.
  intros env t q c w w1.
  assert (H : callNotion (rt := Mock.runtime) "test-notion-token"
                (query_endpoint "test-database-id") "POST" (Some (searchBody (hash t))) 1 w =
              (Throw "Notion API error: Bad request", w1)) by (vm_compute; reflexivity).
  split; [exact H |].
  destruct (taskExists_failure_creates (rt := Mock.runtime) (env := env)
              "test-notion-token" "test-database-id" t w w1
              "Notion API error: Bad request" H) as (_ & Hfalse & Hsend & _).
  exact (conj Hfalse Hsend).
Defined.

(** A failed existence check against a store that already holds the page:
    the second call creates a second page and reports success. *)
Example createTask_duplicate :
  let env := Mock.store [Mock.query_empty; Mock.page_created;
                         Mock.bad_request; Mock.page_created] in
  let t := Mock.buy_milk_task in
  let first := createTask (rt := Mock.runtime) "test-notion-token" "test-database-id" t
                 Mock.empty_world in
  let second := createTask (rt := Mock.runtime) "test-notion-token" "test-database-id" t
                  (snd first) in
  created_records (w_trace (snd first)) = 1 /\
  fst second = Ok {| success := true; pageId := Some "page-id-123";
                     pageUrl := Some "https://notion.so/page-id-123"; error := None |} /\
  created_records (w_trace (snd second)) = 2.
Proof. vm_compute. repeat split. Qed.

(** What counts as found: a [results] that is truthy and has a [length]
    above zero. *)
Example results_found_examples :
  let rt := Mock.runtime in
  results_found (JObj [ ("results", JArr [ JObj [] ]) ]) = Ok true /\
  results_found (JObj [ ("results", JArr []) ]) = Ok false /\
  results_found (JObj [ ("results", JObj [ ("length", JNum 2) ]) ]) = Ok true /\
  results_found (JObj [ ("results", JObj [ ("length", JStr "3") ]) ]) = Ok true /\
  results_found (JObj [ ("results", JObj [ ("length", JNum 0) ]) ]) = Ok false /\
  results_found (JObj [ ("results", JObj []) ]) = Ok false /\
  results_found (JObj [ ("results", JStr "none") ]) = Ok true /\
  results_found (JObj [ ("results", JStr "") ]) = Ok false /\
  results_found (JObj [ ("results", JNum 5) ]) = Ok false /\
  results_found (JObj [ ("results", JNull) ]) = Ok false /\
  results_found (JObj []) = Ok false /\
  results_found (JArr []) = Ok false /\
  results_found JNull = Throw "Cannot read properties of null".
Proof. vm_compute. repeat split. Qed.

(** ** Calls that run together: facts *)

Section AsyncFacts.

Context {env : Env}.

Lemma served_app (trace d1 d2 : list Event) :
  served trace (d1 ++ d2) <-> served trace d1 /\ served (trace ++ d1) d2.
Proof.
  revert trace. induction d1 as [|e d1 IH]; intros trace; simpl.
  - rewrite app_nil_r. tauto.
  - rewrite IH, <- app_assoc. simpl. tauto.
Qed.

Lemma yields_network {A : Type} (t : Async A) (own : list Event) (a : A) :
  yields t own a -> Forall network_event own.
Proof. induction 1; try constructor; simpl; auto. Qed.

Lemma yields_resolve_inv {A : Type} (a b : A) (own : list Event) :
  yields (Resolve a) own b -> own = [] /\ b = a.
Proof. intros Hy. inversion Hy; subst. auto. Qed.

(** The events of a call that goes on with another: those of the first,
    then those of the second. *)
Lemma yields_bind_inv {A B : Type} (t : Async A) (f : A -> Async B)
    (own : list Event) (b : B) :
  yields (async_bind t f) own b ->
  exists own1 a own2,
    own = own1 ++ own2 /\ yields t own1 a /\ yields (f a) own2 b.
Proof.
  revert own. induction t as [a | req k IH | ms k IH | k IH]; simpl; intros own Hy.
  - exists [], a, own. repeat split; [constructor | exact Hy].
  - inversion Hy as [| ? ? out own' ? Hrest | |]; subst.
    apply IH in Hrest as (own1 & a & own2 & -> & H1 & H2).
    exists (EvFetch req out :: own1), a, own2. repeat split; [now constructor | exact H2].
  - inversion Hy as [| | ? ? own' ? Hrest |]; subst.
    apply IH in Hrest as (own1 & a & own2 & -> & H1 & H2).
    exists (EvSleep ms :: own1), a, own2. repeat split; [now constructor | exact H2].
  - inversion Hy as [| | | ? trace ? ? Hrest]; subst.
    apply IH in Hrest as (own1 & a & own2 & -> & H1 & H2).
    exists own1, a, own2. repeat split; [now apply (yields_now k trace) | exact H2].
Qed.

(** *** Interleavings *)

Lemma merged_concat {E : Type} (owns : list (list E)) : merged owns (concat owns).
Proof.
  assert (Hskip : forall (done_ rest : list (list E)) delta,
             Forall (fun o => o = []) done_ ->
             merged rest delta -> merged (done_ ++ rest) delta).
  { intros done_ rest delta Hdone Hm.
    induction Hm as [rest Hall | i e own rest delta Hi Hm IH].
    - constructor. now apply Forall_app.
    - apply (merged_cons (length done_ + i) e own).
      + rewrite lookup_app_r by lia. now replace (length done_ + i - length done_) with i by lia.
      + rewrite insert_app_r. exact IH. }
  induction owns as [|own owns IH]; simpl.
  - constructor. constructor.
  - induction own as [|e own IHown]; simpl.
    + apply (Hskip [[]] owns); [repeat constructor | exact IH].
    + apply (merged_cons 0 e own); [reflexivity | exact IHown].
Qed.

Lemma merged_sublist {E : Type} (owns : list (list E)) (delta : list E) (i : nat)
    (own : list E) :
  merged owns delta -> owns !! i = Some own -> sublist own delta.
Proof.
  intros Hm. revert i own.
  induction Hm as [owns Hall | j e own' owns delta Hj Hm IH]; intros i own Hi.
  - rewrite Forall_lookup in Hall. rewrite (Hall i own Hi). constructor.
  - destruct (decide (i = j)) as [-> | Hne].
    + rewrite Hj in Hi. injection Hi as <-. apply sublist_skip.
      apply (IH j). apply list_lookup_insert_eq. now apply lookup_lt_Some in Hj.
    + apply sublist_cons. apply (IH i). now rewrite list_lookup_insert_ne.
Qed.

Lemma merged_Forall {E : Type} (Q : E -> Prop) (owns : list (list E)) (delta : list E) :
  merged owns delta -> Forall (Forall Q) owns -> Forall Q delta.
Proof.
  induction 1 as [owns Hall | j e own' owns delta Hj Hm IH]; intros Hq;
    [constructor |].
  pose proof (proj1 (Forall_lookup _ _) Hq j _ Hj) as Hown.
  inversion Hown as [|? ? He Hrest]; subst.
  constructor; [exact He |]. apply IH. now apply Forall_insert.
Qed.

(** A count of events in an interleaving is the sum of the counts. *)
Lemma merged_count {E : Type} (f : E -> bool) (owns : list (list E)) (delta : list E) :
  merged owns delta ->
  length (List.filter f delta) = sum_list (map (fun own => length (List.filter f own)) owns).
Proof.
  induction 1 as [owns Hall | j e own' owns delta Hj Hm IH].
  - simpl. induction Hall as [|own owns -> _ IH]; simpl; [reflexivity | exact IH].
  - assert (Hsplit : sum_list (map (fun own => length (List.filter f own)) owns) =
                     length (List.filter f [e]) +
                     sum_list (map (fun own => length (List.filter f own))
                                 (<[j := own']> owns))).
    { clear IH Hm. revert j Hj. induction owns as [|o owns IHo]; intros j Hj;
        [discriminate |].
      destruct j as [|j]; simpl in Hj |- *.
      - injection Hj as ->. simpl. destruct (f e); simpl; lia.
      - rewrite (IHo j Hj). simpl. destruct (f e); simpl; lia. }
    rewrite Hsplit, <- IH. simpl. destruct (f e); simpl; lia.
Qed.

(** *** Runs *)

Lemma yields_resume {A : Type} (t : Async A) (trace own : list Event) (a : A) :
  yields (resume t trace) own a -> yields t own a.
Proof.
  induction t as [a' | req k IH | ms k IH | k IH]; simpl; auto.
  intros Hy. apply (yields_now k trace). now apply IH.
Qed.

Lemma await_run {A : Type} (t : Async A) (w : World) :
  exists own a,
    await t w = (a, after w own) /\ yields t own a /\ served (w_trace w) own.
Proof.
  revert w. induction t as [a | req k IH | ms k IH | k IH]; intros w; simpl.
  - exists [], a. rewrite after_nil. repeat split. constructor.
  - destruct (IH (server (w_trace w) req) (after w [EvFetch req (server (w_trace w) req)]))
      as (own & a & Hrun & Hy & Hs).
    exists (EvFetch req (server (w_trace w) req) :: own), a.
    change {| w_state := w_state w; w_ledger := w_ledger w;
              w_trace := w_trace w ++ [EvFetch req (server (w_trace w) req)] |}
      with (after w [EvFetch req (server (w_trace w) req)]).
    rewrite Hrun, after_after. split; [reflexivity |].
    split; [now constructor |]. simpl. split; [reflexivity | exact Hs].
  - destruct (IH (after w [EvSleep ms])) as (own & a & Hrun & Hy & Hs).
    exists (EvSleep ms :: own), a.
    change {| w_state := w_state w; w_ledger := w_ledger w;
              w_trace := w_trace w ++ [EvSleep ms] |}
      with (after w [EvSleep ms]).
    rewrite Hrun, after_after. split; [reflexivity |].
    split; [now constructor |]. simpl. split; [exact I | exact Hs].
  - destruct (IH (w_trace w) w) as (own & a & Hrun & Hy & Hs).
    exists own, a. split; [exact Hrun |]. split; [| exact Hs].
    now apply (yields_now k (w_trace w)).
Qed.

Lemma await_each_run {A : Type} (pending : list (Async A)) (w : World) :
  exists results delta,
    await_each pending w = (results, after w delta) /\
    settled (w_trace w) pending results delta.
Proof.
  assert (Hgen : exists results owns,
             await_each pending w = (results, after w (concat owns)) /\
             Forall3 yields pending owns results /\
             served (w_trace w) (concat owns)).
  { revert w. induction pending as [|t rest IH]; intros w; simpl.
    - exists [], []. simpl. rewrite after_nil. repeat split. constructor.
    - destruct (await_run t w) as (own & a & Hrun & Hy & Hs). rewrite Hrun.
      destruct (IH (after w own)) as (results & owns & Hrest & Hall & Hs').
      rewrite Hrest, after_after. exists (a :: results), (own :: owns). simpl.
      split; [reflexivity |]. split; [now constructor |].
      apply served_app. split; [exact Hs | exact Hs']. }
  destruct Hgen as (results & owns & Hrun & Hall & Hs).
  exists results, (concat owns). split; [exact Hrun |].
  exists owns. split; [exact Hall |]. split; [apply merged_concat | exact Hs].
Qed.

Lemma Forall3_insert_lm {A B C : Type} (P : A -> B -> C -> Prop) (l : list A)
    (k : list B) (k' : list C) (i : nat) (x : A) (y : B) (z : C) :
  Forall3 P l k k' -> k' !! i = Some z -> P x y z ->
  Forall3 P (<[i := x]> l) (<[i := y]> k) k'.
Proof.
  intros Hall. revert i. induction Hall as [|a b c l k k' Habc Hall IH]; intros i Hz Hp;
    [constructor |].
  destruct i as [|i]; simpl in *.
  - injection Hz as ->. now constructor.
  - constructor; [exact Habc |]. now apply IH.
Qed.

Lemma settle_run {A : Type} (order : list nat) (pending : list (Async A)) (w : World) :
  exists results delta,
    settle order pending w = (results, after w delta) /\
    settled (w_trace w) pending results delta.
Proof.
  revert pending w. induction order as [|i order IH]; intros pending w; simpl;
    [apply await_each_run |].
  set (position := i mod length pending).
  destruct (pending !! position) as [t|] eqn:Hp; [| apply IH].
  pose proof (lookup_lt_Some _ _ _ Hp) as Hlt.
  assert (Hstep : forall (e : Event) (t' : Async A),
             (forall own a, yields t' own a -> yields t (e :: own) a) ->
             match e with EvFetch req out => out = server (w_trace w) req | _ => True end ->
             exists results delta,
               settle order (<[position := t']> pending) (after w [e]) =
                 (results, after w delta) /\
               settled (w_trace w) pending results delta).
  { intros e t' Hyields Hserved.
    destruct (IH (<[position := t']> pending) (after w [e]))
      as (results & delta & Hrun & owns & Hall & Hm & Hs).
    exists results, (e :: delta). rewrite Hrun, after_after. split; [reflexivity |].
    destruct (Forall3_lookup_l _ _ _ _ position t' Hall) as (own & a & Hown & Ha & Hy).
    { now apply list_lookup_insert_eq. }
    exists (<[position := e :: own]> owns). split; [| split].
    - rewrite <- (list_insert_id pending position t Hp).
      rewrite <- (list_insert_insert_eq pending position t t').
      apply Forall3_insert_lm with (z := a); [exact Hall | exact Ha |]. now apply Hyields.
    - apply (merged_cons position e own).
      + apply list_lookup_insert_eq. now apply lookup_lt_Some in Hown.
      + rewrite list_insert_insert_eq, list_insert_id by exact Hown. exact Hm.
    - simpl. split; [exact Hserved | exact Hs]. }
  destruct t as [a | req k | ms k | k]; cbn [advance]; cbv zeta.
  - rewrite list_insert_id by exact Hp. apply IH.
  - apply (Hstep (EvFetch req (server (w_trace w) req))); [| reflexivity].
    intros own a Hy. constructor. eapply yields_resume, Hy.
  - apply (Hstep (EvSleep ms)); [| exact I].
    intros own a Hy. constructor. eapply yields_resume, Hy.
  - destruct (IH (<[position := resume (k (w_trace w)) (w_trace w)]> pending) w)
      as (results & delta & Hrun & owns & Hall & Hm & Hs).
    exists results, delta. split; [exact Hrun |].
    destruct (Forall3_lookup_l _ _ _ _ position (resume (k (w_trace w)) (w_trace w)) Hall)
      as (own & a & Hown & Ha & Hy).
    { now apply list_lookup_insert_eq. }
    exists owns. split; [| split; [exact Hm | exact Hs]].
    rewrite <- (list_insert_id pending position (Now k) Hp).
    rewrite <- (list_insert_insert_eq pending position (Now k)
                  (resume (k (w_trace w)) (w_trace w))).
    rewrite <- (list_insert_id owns position own Hown).
    apply Forall3_insert_lm with (z := a); [exact Hall | exact Ha |].
    apply (yields_now k (w_trace w)). eapply yields_resume, Hy.
Qed.

(** [Promise.all] returns the results of the calls, in their order. *)
Lemma Promise_all_run {A : Type} (pending : list (Async A)) (w : World) :
  exists results delta,
    Promise_all pending w = (Ok results, after w delta) /\
    settled (w_trace w) pending results delta.
Proof.
  unfold Promise_all. cbv zeta.
  destruct (settle_run (settle_order (w_trace w))
              (map (fun t => resume t (w_trace w)) pending) w)
    as (results & delta & Hrun & owns & Hall & Hm & Hs).
  rewrite Hrun. exists results, delta. split; [reflexivity |].
  exists owns. split; [| split; [exact Hm | exact Hs]].
  clear Hrun Hm Hs. revert owns results Hall.
  induction pending as [|t pending IH]; intros owns results Hall;
    inversion Hall as [|? own a ? owns' results' Hy Hrest]; subst; constructor.
  - eapply yields_resume, Hy.
  - now apply IH.
Qed.

(** What follows from [settled]. *)
Lemma settled_length {A : Type} (trace : list Event) (pending : list (Async A))
    (results : list A) (delta : list Event) :
  settled trace pending results delta -> length results = length pending.
Proof.
  intros (owns & Hall & _). symmetry. eapply Forall3_length_lr, Hall.
Qed.

Lemma settled_network {A : Type} (trace : list Event) (pending : list (Async A))
    (results : list A) (delta : list Event) :
  settled trace pending results delta -> Forall network_event delta.
Proof.
  intros (owns & Hall & Hm & _). apply (merged_Forall _ owns); [exact Hm |].
  clear Hm. induction Hall as [|t own a pending owns results Hy _ IH];
    [constructor |].
  constructor; [eapply yields_network, Hy | exact IH].
Qed.

Lemma settled_nil {A : Type} (trace : list Event) (results : list A)
    (delta : list Event) :
  settled trace [] results delta -> results = [] /\ delta = [].
Proof.
  intros (owns & Hall & Hm & _). inversion Hall; subst. split; [reflexivity |].
  inversion Hm as [| i e own ? ? Hi]; [reflexivity | discriminate].
Qed.

(** Each call of a batch went through events of its own, which occur in
    the events of the batch in the same order. *)
Lemma settled_each {A : Type} (trace : list Event) (pending : list (Async A))
    (results : list A) (delta : list Event) :
  settled trace pending results delta ->
  Forall2 (fun t a => exists own, yields t own a /\ sublist own delta) pending results.
Proof.
  intros (owns & Hall & Hm & _).
  assert (Hsub : forall i own, owns !! i = Some own -> sublist own delta).
  { intros i own. now apply merged_sublist. }
  clear Hm. revert Hsub.
  induction Hall as [|t own a pending owns results Hy _ IH]; intros Hsub;
    [constructor |].
  constructor.
  - exists own. split; [exact Hy | apply (Hsub 0 own eq_refl)].
  - apply IH. intros i o Hi. apply (Hsub (S i) o Hi).
Qed.

Lemma requests_app (d1 d2 : list Event) : requests (d1 ++ d2) = requests d1 + requests d2.
Proof. unfold requests. now rewrite List.filter_app, length_app. Qed.

Lemma requests_concat (owns : list (list Event)) :
  requests (concat owns) = sum_list (map requests owns).
Proof.
  induction owns as [|own owns IH]; [reflexivity |].
  simpl. now rewrite requests_app, IH.
Qed.

(** The calls of a batch, one for each item: each went through events of
    its own, which occur in the events of the batch in the same order, and
    the requests of the batch are those of the calls. *)
Lemma settled_calls {A B : Type} (f : B -> Async A) (trace : list Event)
    (batch : list B) (results : list A) (delta : list Event) :
  settled trace (map f batch) results delta ->
  exists owns,
    Forall3 (fun t own a => yields (f t) own a /\ sublist own delta) batch owns results /\
    served trace delta /\
    Forall network_event delta /\
    requests delta = requests (concat owns) /\
    merged owns delta.
Proof.
  intros Hsettled. pose proof (settled_network _ _ _ _ Hsettled) as Hnet.
  destruct Hsettled as (owns & Hall & Hm & Hs).
  exists owns. split; [| split; [exact Hs | split; [exact Hnet | split; [| exact Hm]]]].
  - assert (Hsub : forall i own, owns !! i = Some own -> sublist own delta).
    { intros i own. now apply merged_sublist. }
    clear Hm Hs Hnet. revert owns results Hall Hsub.
    induction batch as [|t batch IH]; intros owns results Hall Hsub;
      inversion Hall as [|? own a ? owns' results' Hy Hrest]; subst; constructor.
    + split; [exact Hy | apply (Hsub 0 own eq_refl)].
    + apply IH; [exact Hrest |]. intros i o Hi. apply (Hsub (S i) o Hi).
  - rewrite requests_concat. apply merged_count, Hm.
Qed.

(** *** Batches *)

Lemma merged_empty {E : Type} (delta : list E) : merged [] delta -> delta = [].
Proof. intros Hm. inversion Hm as [| i e own ? ? Hi]; [reflexivity | discriminate]. Qed.

Lemma batched_nil (n : nat) (pause : Z) (delta : list Event) :
  batched n pause [] delta -> delta = [].
Proof.
  intros Hb. inversion Hb as [? ? _ Hm | owns1 owns2 ? ? _ Hne _ _ Howns].
  - now apply merged_empty.
  - exfalso. destruct owns1, owns2; simpl in *; try discriminate. now apply Hne.
Qed.

Lemma batched_sublist (n : nat) (pause : Z) (owns : list (list Event))
    (delta : list Event) (i : nat) (own : list Event) :
  batched n pause owns delta -> owns !! i = Some own -> sublist own delta.
Proof.
  intros Hb. revert i.
  induction Hb as [owns delta _ Hm | owns1 owns2 d1 d2 Hlen _ Hm _ IH]; intros i Hi.
  - eapply merged_sublist; eauto.
  - destruct (decide (i < length owns1)) as [Hlt | Hge].
    + rewrite lookup_app_l in Hi by exact Hlt.
      apply sublist_inserts_r. eapply merged_sublist; eauto.
    + rewrite lookup_app_r in Hi by lia.
      apply sublist_inserts_l, sublist_cons. eapply IH, Hi.
Qed.

Lemma batched_Forall (Q : Event -> Prop) (n : nat) (pause : Z)
    (owns : list (list Event)) (delta : list Event) :
  Q (EvSleep pause) ->
  batched n pause owns delta -> Forall (Forall Q) owns -> Forall Q delta.
Proof.
  intros Hpause Hb.
  induction Hb as [owns delta _ Hm | owns1 owns2 d1 d2 _ _ Hm _ IH]; intros Hq.
  - eapply merged_Forall; eauto.
  - apply Forall_app in Hq as [Hq1 Hq2]. apply Forall_app. split.
    + eapply merged_Forall; eauto.
    + constructor; [exact Hpause | now apply IH].
Qed.

Lemma batched_requests (n : nat) (pause : Z) (owns : list (list Event))
    (delta : list Event) :
  batched n pause owns delta -> requests delta = requests (concat owns).
Proof.
  induction 1 as [owns delta _ Hm | owns1 owns2 d1 d2 _ _ Hm _ IH].
  - rewrite requests_concat. now apply merged_count.
  - rewrite concat_app, !requests_app, <- IH, (requests_concat owns1).
    change (requests (EvSleep pause :: d2)) with (requests d2).
    f_equal. now apply merged_count.
Qed.

End AsyncFacts.

(** ** The Notion client: a call that runs alone *)

Section NotionAlone.

Context {rt : Runtime} {env : Env}.

Lemma await_bind {A B : Type} (t : Async A) (f : A -> Async B) (w : World) :
  await (async_bind t f) w = let (a, w1) := await t w in await (f a) w1.
Proof.
  revert w. induction t as [a | req k IH | ms k IH | k IH]; intros w; simpl; auto.
Qed.

(** With nothing else running, [callNotion_async] is [callNotion]. *)
Lemma callNotion_alone (token endpoint method : string) (body : option Json)
    (attempt : nat) (w : World) :
  await (callNotion_async token endpoint method body attempt) w =
  callNotion token endpoint method body attempt w.
Proof.
  remember (4 - attempt) as n eqn:Hn.
  assert (Hle : 4 - attempt <= n) by lia. clear Hn.
  revert attempt w Hle. induction n as [|n IH]; intros attempt w Hle;
    rewrite callNotion_eq, callNotion_async_equation_1; cbn [await]; cbv zeta;
    destruct (server (w_trace w) (notion_request token endpoint method body))
      as [reason | response]; try reflexivity;
    (destruct (ok response); [destruct (resp_json response); reflexivity |]);
    (destruct (decide (status response = 429%Z /\ attempt <= 3)) as [[_ H3] | _];
     [try (exfalso; lia); cbn [await]; rewrite IH by lia; reflexivity |]);
    (destruct (decide ((500 <= status response)%Z /\ attempt <= 2)) as [[_ H2] | _];
     [try (exfalso; lia); cbn [await]; rewrite IH by lia; reflexivity |]);
    reflexivity.
Qed.

Lemma taskExists_alone (token databaseId taskHash : string) (w : World) :
  taskExists token databaseId taskHash w =
  let (found, w1) := await (taskExists_async token databaseId taskHash) w in
  (Ok found, w1).
Proof.
  rewrite taskExists_eq. unfold taskExists_async. rewrite await_bind, callNotion_alone.
  destruct (callNotion token (query_endpoint databaseId) "POST"
              (Some (searchBody taskHash)) 1 w) as [[response | e] w1]; simpl;
    [| reflexivity].
  now destruct (results_found response).
Qed.

(** With nothing else running, [createTask_async] is [createTask]. *)
Lemma createTask_alone (token databaseId : string) (t : TaskWithMeta) (w : World) :
  createTask token databaseId t w =
  let (result, w1) := await (createTask_async token databaseId t) w in
  (Ok result, w1).
Proof.
  rewrite createTask_eq, taskExists_alone. unfold createTask_async.
  rewrite await_bind.
  destruct (await (taskExists_async token databaseId (hash t)) w) as [[|] w1];
    [reflexivity |].
  rewrite await_bind, callNotion_alone.
  destruct (callNotion token "/pages" "POST" (Some (pageData databaseId t)) 1 w1)
    as [[response | e] w2]; simpl; [| reflexivity].
  destruct response; reflexivity.
Qed.

End NotionAlone.

(** ** Keeping track of events and of the state file *)

Section Tracks.

Context {rt : Runtime} {env : Env}.

Lemma bind_run {A B : Type} (m : M A) (k : A -> M B) (w : World) :
  bind m k w =
    match m w with
    | (Ok a, w') => k a w'
    | (Throw e, w') => (Throw e, w')
    end.
Proof. reflexivity. Qed.

Lemma replay_ledger_app (d1 d2 : list Event) (file : DiskFile) :
  replay_ledger (d1 ++ d2) file = replay_ledger d2 (replay_ledger d1 file).
Proof. unfold replay_ledger. apply fold_left_app. Qed.

Lemma replay_ledger_no_save (delta : list Event) (file : DiskFile) :
  Forall (fun e => is_save e = false) delta -> replay_ledger delta file = file.
Proof.
  intros H. revert file. induction H as [|e delta He _ IH]; intros file; [reflexivity |].
  simpl. destruct e; try discriminate; apply IH.
Qed.

Lemma tracks_weaken {A : Type} (Q Q' : Event -> Prop) (m : M A) :
  (forall e, Q e -> Q' e) -> tracks Q m -> tracks Q' m.
Proof.
  intros Himp Hm w. destruct (Hm w) as (delta & Htr & Hled & Hq).
  exists delta. repeat split; try assumption.
  eapply List.Forall_impl; [exact Himp | exact Hq].
Qed.

Lemma tracks_ret {A : Type} (Q : Event -> Prop) (a : A) : tracks Q (ret a).
Proof. intros w. exists []. simpl. rewrite app_nil_r. repeat split. constructor. Qed.

Lemma tracks_throw {A : Type} (Q : Event -> Prop) (e : string) : tracks Q (@throw A e).
Proof. intros w. exists []. simpl. rewrite app_nil_r. repeat split. constructor. Qed.

Lemma tracks_gets {A : Type} (Q : Event -> Prop) (f : World -> A) : tracks Q (gets f).
Proof. intros w. exists []. simpl. rewrite app_nil_r. repeat split. constructor. Qed.

Lemma tracks_pure {A : Type} (Q : Event -> Prop) (f : World -> Result A) :
  tracks Q (fun w => (f w, w)).
Proof. intros w. exists []. simpl. rewrite app_nil_r. repeat split. constructor. Qed.

Lemma tracks_modify_state (Q : Event -> Prop) (f : AppState -> AppState) :
  tracks Q (modify_state f).
Proof. intros w. exists []. simpl. rewrite app_nil_r. repeat split. constructor. Qed.

Lemma tracks_emit (Q : Event -> Prop) (e : Event) :
  is_save e = false -> Q e -> tracks Q (emit e).
Proof.
  intros Hns Hq w. exists [e]. simpl. repeat split.
  - destruct e; try discriminate; reflexivity.
  - repeat constructor. exact Hq.
Qed.

Lemma tracks_bind {A B : Type} (Q : Event -> Prop) (m : M A) (k : A -> M B) :
  tracks Q m -> (forall a, tracks Q (k a)) -> tracks Q (bind m k).
Proof.
  intros Hm Hk w. unfold bind.
  destruct (Hm w) as (d1 & Htr1 & Hled1 & Hq1).
  destruct (m w) as [[a | e] w1]; simpl in *.
  - destruct (Hk a w1) as (d2 & Htr2 & Hled2 & Hq2).
    exists (d1 ++ d2). rewrite Htr2, Htr1, Hled2, Hled1, replay_ledger_app, app_assoc.
    repeat split. now apply Forall_app.
  - exists d1. repeat split; assumption.
Qed.

Lemma tracks_try_catch {A : Type} (Q : Event -> Prop) (m : M A) (h : string -> M A) :
  tracks Q m -> (forall e, tracks Q (h e)) -> tracks Q (try_catch m h).
Proof.
  intros Hm Hh w. unfold try_catch.
  destruct (Hm w) as (d1 & Htr1 & Hled1 & Hq1).
  destruct (m w) as [[a | e] w1]; simpl in *.
  - exists d1. repeat split; assumption.
  - destruct (Hh e w1) as (d2 & Htr2 & Hled2 & Hq2).
    exists (d1 ++ d2). rewrite Htr2, Htr1, Hled2, Hled1, replay_ledger_app, app_assoc.
    repeat split. now apply Forall_app.
Qed.

Lemma tracks_if {A : Type} (Q : Event -> Prop) (b : bool) (m1 m2 : M A) :
  tracks Q m1 -> tracks Q m2 -> tracks Q (if b then m1 else m2).
Proof. now destruct b. Qed.

Lemma tracks_saveState (Q : Event -> Prop) :
  (forall content, Q (EvSave content)) -> tracks Q saveState.
Proof.
  intros Hq w. unfold saveState. destruct stateFile_writable.
  - eexists [EvSave _]. simpl. repeat split. repeat constructor. apply Hq.
  - exists []. simpl. rewrite app_nil_r. repeat split. constructor.
Qed.

End Tracks.

(** ** What each function of the run does to the trace and the state file *)

Create HintDb tracks.

Section TracksFunctions.

Context {rt : Runtime} {env : Env}.

(** The steps that build a computation, applied as far as they go; the
    functions already dealt with are in the hint database. *)
Ltac track :=
  repeat first
    [ solve [ eauto 2 with tracks nocore ]
    | simple apply tracks_ret
    | simple apply tracks_throw
    | simple apply tracks_gets
    | simple apply tracks_pure
    | simple apply tracks_modify_state
    | simple apply tracks_bind
    | simple apply tracks_try_catch
    | simple apply tracks_if
    | lazymatch goal with |- forall _, _ => intro end ].

(** The same, with a case analysis where a [match] is in the way. *)
Ltac track_cases :=
  track;
  repeat (match goal with
          | |- tracks _ (match ?x with _ => _ end) => destruct x
          end; track).

Lemma tracks_after {A : Type} (Q : Event -> Prop) (m : M A) :
  (forall e, Q e -> is_save e = false) ->
  (forall w, exists delta, snd (m w) = after w delta /\ Forall Q delta) ->
  tracks Q m.
Proof.
  intros Hns Hm w. destruct (Hm w) as (delta & Hrun & Hq).
  exists delta. rewrite Hrun. simpl. repeat split; [| exact Hq].
  symmetry. apply replay_ledger_no_save.
  eapply List.Forall_impl; [exact Hns | exact Hq].
Qed.

Lemma network_event_no_save (e : Event) : network_event e -> is_save e = false.
Proof. destruct e; simpl; tauto. Qed.

Lemma only_requests_network (req : Request) (delta : list Event) :
  only_requests req delta -> Forall network_event delta.
Proof.
  apply List.Forall_impl. intros e. destruct e; simpl; tauto.
Qed.

Lemma callNotion_tracks (token endpoint method : string) (body : option Json)
    (attempt : nat) :
  tracks network_event (callNotion token endpoint method body attempt).
Proof.
  apply tracks_after; [exact network_event_no_save |]. intros w.
  destruct (callNotion_run token endpoint method body (4 - attempt) attempt w eq_refl)
    as (delta & Hrun & Hsched & _).
  exists delta. split; [exact Hrun |].
  eapply only_requests_network, retry_schedule_only_requests, Hsched.
Qed.

#[local] Hint Resolve callNotion_tracks : tracks.

Lemma has_results_tracks (Q : Event -> Prop) (response : Json) :
  tracks Q (has_results response).
Proof.
  unfold has_results. apply tracks_pure.
Qed.

#[local] Hint Resolve has_results_tracks : tracks.

Lemma taskExists_tracks (token databaseId taskHash : string) :
  tracks network_event (taskExists token databaseId taskHash).
Proof. unfold taskExists. track. Qed.

#[local] Hint Resolve taskExists_tracks : tracks.

Lemma createTask_tracks (token databaseId : string) (t : TaskWithMeta) :
  tracks network_event (createTask token databaseId t).
Proof.
  unfold createTask. track.
  match goal with |- tracks _ (match ?j with _ => _ end) => destruct j end; track.
Qed.

#[local] Hint Resolve createTask_tracks : tracks.

(** A batch: the calls are settled, whatever the order of their steps. *)
Lemma createTasks_run (token databaseId : string) (batch : list TaskWithMeta)
    (w : World) :
  exists results delta,
    createTasks token databaseId batch w = (Ok results, after w delta) /\
    settled (w_trace w) (map (createTask_async token databaseId) batch) results delta.
Proof. apply Promise_all_run. Qed.

Lemma createTasks_tracks (token databaseId : string) (batch : list TaskWithMeta) :
  tracks network_event (createTasks token databaseId batch).
Proof.
  apply tracks_after; [exact network_event_no_save |]. intros w.
  destruct (createTasks_run token databaseId batch w) as (results & delta & Hrun & Hs).
  exists delta. rewrite Hrun. split; [reflexivity |]. eapply settled_network, Hs.
Qed.

#[local] Hint Resolve createTasks_tracks : tracks.

(** The loop of [syncTasks], one batch at a time. *)
Lemma syncTasks_loop_eq (token databaseId : string) (maxConcurrency : positive)
    (tasks : list TaskWithMeta) (results : list NotionSyncResult) (w : World) :
  syncTasks_loop token databaseId maxConcurrency tasks results w =
    match tasks with
    | [] => (Ok results, w)
    | _ :: _ =>
        match createTasks token databaseId (take (Pos.to_nat maxConcurrency) tasks) w with
        | (Throw e, w1) => (Throw e, w1)
        | (Ok batchResults, w1) =>
            match drop (Pos.to_nat maxConcurrency) tasks with
            | [] => (Ok (results ++ batchResults), w1)
            | t' :: ts' =>
                syncTasks_loop token databaseId maxConcurrency
                  (t' :: ts') (results ++ batchResults) (snd (sleep 1000 w1))
            end
        end
    end.
Proof.
  destruct tasks as [|t ts]; simp syncTasks_loop; [reflexivity |].
  destruct (createTasks token databaseId (take (Pos.to_nat maxConcurrency) (t :: ts)) w)
    as [[batchResults | e] w1]; simpl; [| reflexivity].
  destruct (drop (Pos.to_nat maxConcurrency) (t :: ts)) as [|t' ts'] eqn:Hdrop;
    [reflexivity |].
  match goal with |- _ = ?r => remember r as rhs eqn:Hrhs end.
  simp syncTasks_loop. simpl. rewrite Hdrop. now subst rhs.
Qed.

(** [createTask] always returns a result: it never throws. *)
Lemma createTask_returns (token databaseId : string) (t : TaskWithMeta) (w : World) :
  exists result, fst (createTask token databaseId t w) = Ok result.
Proof.
  rewrite createTask_eq.
  destruct (taskExists token databaseId (hash t) w) as [[[|] | e] w1]; simpl; eauto.
  destruct (callNotion token "/pages" "POST" (Some (pageData databaseId t)) 1 w1)
    as [[[] | e] w2]; simpl; eauto.
Qed.

Lemma createTasks_returns (token databaseId : string) (batch : list TaskWithMeta)
    (w : World) :
  exists results,
    fst (createTasks token databaseId batch w) = Ok results /\
    length results = length batch.
Proof.
  destruct (createTasks_run token databaseId batch w) as (results & delta & Hrun & Hs).
  exists results. rewrite Hrun. split; [reflexivity |].
  apply settled_length in Hs. now rewrite length_map in Hs.
Qed.

(** [syncTasks] returns one result for each task. *)
Lemma syncTasks_loop_length (token databaseId : string) (maxConcurrency : positive)
    (tasks : list TaskWithMeta) (results : list NotionSyncResult) (w : World) :
  exists all,
    fst (syncTasks_loop token databaseId maxConcurrency tasks results w) = Ok all /\
    length all = length results + length tasks.
Proof.
  assert (Hle : length tasks <= length tasks) by lia.
  revert Hle. generalize (length tasks) at 2. intros n. revert tasks results w.
  induction n as [|n IH]; intros tasks results w Hle; rewrite syncTasks_loop_eq.
  - destruct tasks; [| simpl in Hle; lia].
    exists results. split; [reflexivity | simpl; lia].
  - destruct tasks as [|t ts]; [exists results; split; [reflexivity | simpl; lia] |].
    destruct (createTasks_returns token databaseId
                (take (Pos.to_nat maxConcurrency) (t :: ts)) w) as (rs & Hrs & Hlen).
    destruct (createTasks token databaseId (take (Pos.to_nat maxConcurrency) (t :: ts)) w)
      as [batch w1]. simpl in Hrs. subst batch.
    pose proof (take_drop (Pos.to_nat maxConcurrency) (t :: ts)) as Hsplit.
    apply (f_equal (@length _)) in Hsplit. rewrite length_app in Hsplit.
    destruct (drop (Pos.to_nat maxConcurrency) (t :: ts)) as [|t' ts'] eqn:Hdrop.
    + exists (results ++ rs). simpl. rewrite length_app. simpl in *. split; [reflexivity | lia].
    + assert (Hshorter : length (t' :: ts') <= n).
      { rewrite <- Hdrop, length_drop. simpl in *. lia. }
      destruct (IH (t' :: ts') (results ++ rs) (snd (sleep 1000 w1)) Hshorter)
        as (all & Hall & Hlen').
      exists all. split; [exact Hall |]. rewrite Hlen', length_app. simpl in *. lia.
Qed.

Lemma syncTasks_length (token databaseId : string) (tasks : list TaskWithMeta)
    (maxConcurrency : positive) (w : World) :
  exists syncResults,
    fst (syncTasks token databaseId tasks maxConcurrency w) = Ok syncResults /\
    length syncResults = length tasks.
Proof.
  destruct (syncTasks_loop_length token databaseId maxConcurrency tasks [] w)
    as (all & Hall & Hlen).
  exists all. split; [exact Hall | exact Hlen].
Qed.

Lemma syncTasks_loop_tracks (token databaseId : string) (maxConcurrency : positive)
    (tasks : list TaskWithMeta) (results : list NotionSyncResult) :
  tracks network_event (syncTasks_loop token databaseId maxConcurrency tasks results).
Proof.
  remember (length tasks) as n eqn:Hn.
  assert (Hle : length tasks <= n) by lia. clear Hn.
  revert tasks results Hle. induction n as [|n IH]; intros tasks results Hle w;
    rewrite syncTasks_loop_eq.
  - destruct tasks; [| simpl in Hle; lia]. apply (tracks_ret network_event results w).
  - destruct tasks as [|t ts]; [apply (tracks_ret network_event results w) |].
    destruct (createTasks_tracks token databaseId
                (take (Pos.to_nat maxConcurrency) (t :: ts)) w)
      as (d1 & Htr1 & Hled1 & Hq1).
    destruct (createTasks token databaseId (take (Pos.to_nat maxConcurrency) (t :: ts)) w)
      as [[batchResults | e] w1]; simpl in Htr1, Hled1; [| exists d1; auto].
    destruct (drop (Pos.to_nat maxConcurrency) (t :: ts)) as [|t' ts'] eqn:Hdrop;
      [exists d1; auto |].
    assert (Hshorter : length (t' :: ts') <= n).
    { rewrite <- Hdrop, length_drop. simpl in *. lia. }
    destruct (IH (t' :: ts') (results ++ batchResults) Hshorter (snd (sleep 1000 w1)))
      as (d2 & Htr2 & Hled2 & Hq2).
    exists (d1 ++ EvSleep 1000 :: d2).
    rewrite Htr2, Hled2. simpl. rewrite Htr1, Hled1, replay_ledger_app. simpl.
    split; [now rewrite <- !app_assoc |]. split; [reflexivity |].
    apply Forall_app. split; [exact Hq1 |]. constructor; [exact I | exact Hq2].
Qed.

Lemma syncTasks_tracks (token databaseId : string) (tasks : list TaskWithMeta)
    (maxConcurrency : positive) :
  tracks network_event (syncTasks token databaseId tasks maxConcurrency).
Proof. apply syncTasks_loop_tracks. Qed.

#[local] Hint Resolve syncTasks_tracks : tracks.

(** The loop of [syncTasks]: one result for each task, each the result of
    the call for this task; the events are those of the calls, batch after
    batch. *)
Lemma syncTasks_loop_run (token databaseId : string) (maxConcurrency : positive)
    (tasks : list TaskWithMeta) (results : list NotionSyncResult) (w : World) :
  exists new owns delta,
    syncTasks_loop token databaseId maxConcurrency tasks results w =
      (Ok (results ++ new), after w delta) /\
    Forall3 (fun t own r => yields (createTask_async token databaseId t) own r)
      tasks owns new /\
    batched (Pos.to_nat maxConcurrency) 1000 owns delta /\
    served (w_trace w) delta.
Proof.
  assert (Hle : length tasks <= length tasks) by lia.
  revert Hle. generalize (length tasks) at 2. intros n. revert tasks results w.
  induction n as [| n IH]; intros tasks results w Hle; rewrite syncTasks_loop_eq.
  - destruct tasks; [| simpl in Hle; lia].
    exists [], [], []. rewrite after_nil, app_nil_r.
    repeat split; try constructor; [simpl; lia | repeat constructor].
  - destruct tasks as [| t ts].
    { exists [], [], []. rewrite after_nil, app_nil_r.
      repeat split; try constructor; [simpl; lia | repeat constructor]. }
    destruct (createTasks_run token databaseId
                (take (Pos.to_nat maxConcurrency) (t :: ts)) w)
      as (rs & d1 & Hrs & Hsettled).
    apply settled_calls in Hsettled as (owns1 & Hall1 & Hs1 & _ & _ & Hm1).
    assert (Hyields1 : Forall3 (fun t own r =>
                                  yields (createTask_async token databaseId t) own r)
                         (take (Pos.to_nat maxConcurrency) (t :: ts)) owns1 rs).
    { eapply Forall3_impl; [exact Hall1 |]. now intros x own r [Hy _]. }
    pose proof (Forall3_length_lm _ _ _ _ Hyields1) as Hlen1.
    rewrite Hrs.
    pose proof (take_drop (Pos.to_nat maxConcurrency) (t :: ts)) as Hsplit.
    destruct (drop (Pos.to_nat maxConcurrency) (t :: ts)) as [| t' ts'] eqn:Hdrop.
    + exists rs, owns1, d1. split; [reflexivity |].
      rewrite app_nil_r in Hsplit. rewrite Hsplit in Hyields1.
      split; [exact Hyields1 |]. split; [| exact Hs1].
      apply batched_last; [| exact Hm1]. rewrite <- Hlen1, length_take. lia.
    + assert (Hshorter : length (t' :: ts') <= n).
      { rewrite <- Hdrop, length_drop. simpl in *. lia. }
      assert (Hfull : length owns1 = Pos.to_nat maxConcurrency).
      { rewrite <- Hlen1, length_take.
        pose proof (f_equal (@length _) Hdrop) as Hd. rewrite length_drop in Hd.
        simpl in Hd. simpl. lia. }
      destruct (IH (t' :: ts') (results ++ rs) (snd (sleep 1000 (after w d1))) Hshorter)
        as (new & owns2 & d2 & Hrest & Hall2 & Hb2 & Hs2).
      rewrite Hrest. rewrite sleep_run. cbn [snd]. rewrite !after_after.
      exists (rs ++ new), (owns1 ++ owns2), (d1 ++ [EvSleep 1000] ++ d2).
      rewrite <- app_assoc. split; [reflexivity |]. split; [| split].
      * rewrite <- Hsplit. now apply Forall3_app.
      * apply batched_more; [exact Hfull | | exact Hm1 | exact Hb2].
        intros ->. inversion Hall2.
      * apply served_app. split; [exact Hs1 |]. simpl. split; [exact I |].
        rewrite sleep_run in Hs2. simpl in Hs2. exact Hs2.
Qed.

(** [syncTasks] returns one result for each task, and changes nothing but
    the trace. *)
Lemma syncTasks_run (token databaseId : string) (tasks : list TaskWithMeta)
    (maxConcurrency : positive) (w : World) :
  exists syncResults delta,
    syncTasks token databaseId tasks maxConcurrency w = (Ok syncResults, after w delta) /\
    length syncResults = length tasks /\
    Forall network_event delta /\
    (tasks = [] -> delta = []).
Proof.
  destruct (syncTasks_loop_run token databaseId maxConcurrency tasks [] w)
    as (new & owns & delta & Hrun & Hall & Hb & _).
  exists new, delta. split; [exact Hrun |].
  split; [symmetry; eapply Forall3_length_lr, Hall |]. split.
  - apply (batched_Forall network_event _ _ _ _ I Hb).
    clear Hb Hrun. induction Hall as [|t own r tasks owns new Hy _ IH];
      constructor; [eapply yields_network, Hy | exact IH].
  - intros ->. inversion Hall; subst. eapply batched_nil, Hb.
Qed.

Lemma notion_healthCheck_tracks (token databaseId : string) :
  tracks network_event (notion_healthCheck token databaseId).
Proof.
  unfold notion_healthCheck. track.
  match goal with |- tracks _ (match ?j with _ => _ end) => destruct j end; track.
Qed.

#[local] Hint Resolve notion_healthCheck_tracks : tracks.

Lemma performHealthChecks_tracks (preferences : Preferences) :
  tracks network_event (performHealthChecks preferences).
Proof. unfold performHealthChecks. track. Qed.

Lemma updateFileModifiedTime_tracks (filePath : string) :
  tracks (fun e => is_watermark e = true) (updateFileModifiedTime filePath).
Proof.
  unfold updateFileModifiedTime. destruct (statSync filePath); track.
  now apply tracks_emit.
Qed.

#[local] Hint Resolve updateFileModifiedTime_tracks : tracks.

Lemma scanDirectory_tracks (Q : Event -> Prop) (dirPath : string) :
  tracks Q (scanDirectory dirPath).
Proof.
  unfold scanDirectory. cbv zeta. track_cases.
Qed.

Lemma readFiles_tracks (Q : Event -> Prop) (filePaths : list string) :
  tracks Q (readFiles filePaths).
Proof. unfold readFiles. track. Qed.

#[local] Hint Resolve scanDirectory_tracks readFiles_tracks : tracks.

Lemma ingest_loop_tracks (self : FileIngester) (fileContents : list FileContent)
    (allChunks : list FileChunk) :
  tracks (fun e => is_watermark e = true) (ingest_loop self fileContents allChunks).
Proof.
  revert allChunks. induction fileContents as [|fileContent rest IH]; intros allChunks;
    simpl; track.
Qed.

#[local] Hint Resolve ingest_loop_tracks : tracks.

Lemma ingestFiles_tracks (self : FileIngester) (dirPath : string) :
  tracks (fun e => is_watermark e = true) (ingestFiles self dirPath).
Proof. unfold ingestFiles. track. Qed.

Lemma markTaskProcessed_tracks (h : string) :
  tracks after_handoff (markTaskProcessed h).
Proof. unfold markTaskProcessed. track. now apply tracks_emit. Qed.

#[local] Hint Resolve markTaskProcessed_tracks : tracks.

Lemma mark_synced_tracks (allTasks : list TaskWithMeta)
    (syncResults : list NotionSyncResult) (i : nat) :
  tracks after_handoff (mark_synced allTasks syncResults i).
Proof.
  revert i. induction syncResults as [|result rest IH]; intros i; simpl; track_cases.
Qed.

Lemma saveState_tracks : tracks after_handoff saveState.
Proof. apply tracks_saveState. intros content. exact I. Qed.

#[local] Hint Resolve mark_synced_tracks saveState_tracks : tracks.

Lemma updateLastRun_tracks : tracks after_handoff updateLastRun.
Proof. unfold updateLastRun. track. Qed.

Lemma cleanup_tracks (maxEntries : Z) : tracks after_handoff (cleanup maxEntries).
Proof. unfold cleanup. track. Qed.

(** What follows the marking only saves the state. *)
Lemma saveState_saves : tracks (fun e => is_save e = true) saveState.
Proof. apply tracks_saveState. reflexivity. Qed.

Lemma updateLastRun_saves : tracks (fun e => is_save e = true) updateLastRun.
Proof.
  unfold updateLastRun.
  repeat first [ simple apply saveState_saves | simple apply tracks_gets
               | simple apply tracks_modify_state | simple apply tracks_bind
               | lazymatch goal with |- forall _, _ => intro end ].
Qed.

Lemma cleanup_saves (maxEntries : Z) :
  tracks (fun e => is_save e = true) (cleanup maxEntries).
Proof.
  unfold cleanup.
  repeat first [ simple apply saveState_saves | simple apply tracks_gets
               | simple apply tracks_ret
               | simple apply tracks_modify_state | simple apply tracks_bind
               | simple apply tracks_if
               | lazymatch goal with |- forall _, _ => intro end ].
Qed.

End TracksFunctions.

(** ** The hourly run: watermarks, hand-off and the state file *)

Section RunnerFacts.

Context {rt : Runtime} {env : Env}.

(** Every chunk carries the path of the file it was cut from. *)
Lemma chunk_loop_filePath (self : FileIngester) (path : string)
    (lines : list string) (st : ChunkLoop) :
  Forall (fun c => chunk_filePath c = path) (lp_chunks st) ->
  Forall (fun c => chunk_filePath c = path) (lp_chunks (chunk_loop self path lines st)).
Proof.
  revert st. induction lines as [|l lines IH]; intros st H; [exact H |].
  simpl. apply IH. unfold chunk_step.
  destruct (_ && _); simpl; [| exact H].
  apply Forall_app. split; [exact H |]. repeat constructor.
Qed.

Lemma chunkContent_filePath (self : FileIngester) (fileContent : FileContent) :
  Forall (fun c => chunk_filePath c = fc_filePath fileContent)
    (chunkContent self fileContent).
Proof.
  unfold chunkContent.
  destruct (String.length (fc_content fileContent) <=? maxChunkSize self).
  - repeat constructor.
  - apply List.Forall_forall. intros c Hc.
    apply in_map_iff in Hc as (c0 & <- & Hc0). simpl.
    revert c0 Hc0. apply List.Forall_forall.
    unfold chunk_flush.
    pose proof (chunk_loop_filePath self (fc_filePath fileContent)
                  (split_lines (fc_content fileContent))
                  {| lp_chunks := []; lp_currentChunk := EmptyString; lp_chunkIndex := 0 |}
                  (List.Forall_nil _)) as Hloop.
    destruct (truthy _); [| exact Hloop].
    apply Forall_app. split; [exact Hloop |]. repeat constructor.
Qed.

Lemma updateFileModifiedTime_run (filePath : string) (stats : Stats) (w : World) :
  statSync filePath = Some stats ->
  updateFileModifiedTime filePath w =
    (Ok tt,
     {| w_state := {| lastRun := lastRun (w_state w);
                      processedTasks := processedTasks (w_state w);
                      lastModifiedTimes :=
                        <[filePath := mtimeMs stats]> (lastModifiedTimes (w_state w)) |};
        w_ledger := w_ledger w;
        w_trace := w_trace w ++ [EvWatermark filePath (mtimeMs stats)] |}).
Proof. intros H. unfold updateFileModifiedTime. now rewrite H. Qed.

(** The loop of [ingestFiles] returns the chunks of every file and, in
    memory, advances the watermark of every file that can be stat'ed. *)
Lemma ingest_loop_run (self : FileIngester) (fileContents : list FileContent)
    (allChunks : list FileChunk) (w : World) :
  exists w' delta,
    ingest_loop self fileContents allChunks w =
      (Ok (allChunks ++ concat (map (chunkContent self) fileContents)), w') /\
    w_trace w' = w_trace w ++ delta /\
    (forall p stats,
       statSync p = Some stats ->
       (lastModifiedTimes (w_state w) !! p = Some (mtimeMs stats) \/
        exists fc, fc ∈ fileContents /\ fc_filePath fc = p) ->
       lastModifiedTimes (w_state w') !! p = Some (mtimeMs stats)) /\
    (forall fc stats,
       fc ∈ fileContents -> statSync (fc_filePath fc) = Some stats ->
       EvWatermark (fc_filePath fc) (mtimeMs stats) ∈ delta).
Proof.
  revert allChunks w. induction fileContents as [|fc rest IH]; intros allChunks w.
  - exists w, []. simpl. rewrite !app_nil_r.
    split; [reflexivity |]. split; [reflexivity |]. split.
    + intros p stats _ [H | (fc & Hfc & _)]; [exact H | now apply elem_of_nil in Hfc].
    + intros fc stats Hfc. now apply elem_of_nil in Hfc.
  - simpl ingest_loop. rewrite bind_run.
    destruct (statSync (fc_filePath fc)) as [stats0|] eqn:Hstat.
    + rewrite (updateFileModifiedTime_run _ _ _ Hstat).
      edestruct (IH (allChunks ++ chunkContent self fc)) as (w' & delta & Hrun & Htr & Hmap & Hev).
      exists w', (EvWatermark (fc_filePath fc) (mtimeMs stats0) :: delta).
      rewrite Hrun, Htr. simpl. rewrite <- !app_assoc. simpl.
      split; [reflexivity |]. split; [reflexivity |]. split.
      * intros p stats Hp Hor. apply Hmap; [exact Hp |]. simpl.
        destruct (decide (fc_filePath fc = p)) as [Heq | Hne].
        -- left. rewrite Heq. rewrite lookup_insert_eq.
           rewrite Heq in Hstat. congruence.
        -- destruct Hor as [Hold | (fc' & Hin & Hpath)].
           ++ left. now rewrite lookup_insert_ne.
           ++ apply elem_of_cons in Hin as [-> | Hin]; [contradiction |].
              right. eauto.
      * intros fc' stats Hin Hst. apply elem_of_cons in Hin as [-> | Hin].
        -- rewrite Hstat in Hst. injection Hst as <-. left.
        -- right. now apply Hev.
    + unfold updateFileModifiedTime. rewrite Hstat. unfold ret.
      edestruct (IH (allChunks ++ chunkContent self fc) w) as (w' & delta & Hrun & Htr & Hmap & Hev).
      exists w', delta. rewrite Hrun, Htr. simpl. rewrite <- !app_assoc.
      split; [reflexivity |]. split; [reflexivity |]. split.
      * intros p stats Hp Hor. apply Hmap; [exact Hp |].
        destruct Hor as [Hold | (fc' & Hin & Hpath)]; [now left |].
        apply elem_of_cons in Hin as [-> | Hin]; [congruence |].
        right. eauto.
      * intros fc' stats Hin Hst. apply elem_of_cons in Hin as [-> | Hin]; [congruence |].
        now apply Hev.
Qed.

(** The health checks leave the state manager alone. *)
Lemma network_only_ret {A : Type} (a : A) : network_only (ret a).
Proof. intros w. exists []. simpl. now rewrite after_nil. Qed.

Lemma network_only_throw {A : Type} (e : string) : network_only (@throw A e).
Proof. intros w. exists []. simpl. now rewrite after_nil. Qed.

Lemma network_only_gets {A : Type} (f : World -> A) : network_only (gets f).
Proof. intros w. exists []. simpl. now rewrite after_nil. Qed.

Lemma network_only_bind {A B : Type} (m : M A) (k : A -> M B) :
  network_only m -> (forall a, network_only (k a)) -> network_only (bind m k).
Proof.
  intros Hm Hk w. rewrite bind_run. destruct (Hm w) as (d1 & H1).
  destruct (m w) as [[a | e] w1]; simpl in H1; subst w1.
  - destruct (Hk a (after w d1)) as (d2 & H2). exists (d1 ++ d2).
    now rewrite H2, after_after.
  - exists d1. reflexivity.
Qed.

Lemma network_only_try_catch {A : Type} (m : M A) (h : string -> M A) :
  network_only m -> (forall e, network_only (h e)) -> network_only (try_catch m h).
Proof.
  intros Hm Hh w. unfold try_catch. destruct (Hm w) as (d1 & H1).
  destruct (m w) as [[a | e] w1]; simpl in H1; subst w1.
  - exists d1. reflexivity.
  - destruct (Hh e (after w d1)) as (d2 & H2). exists (d1 ++ d2).
    now rewrite H2, after_after.
Qed.

Lemma network_only_if {A : Type} (b : bool) (m1 m2 : M A) :
  network_only m1 -> network_only m2 -> network_only (if b then m1 else m2).
Proof. now destruct b. Qed.

Lemma callNotion_network_only (token endpoint method : string) (body : option Json)
    (attempt : nat) :
  network_only (callNotion token endpoint method body attempt).
Proof.
  intros w.
  destruct (callNotion_run token endpoint method body (4 - attempt) attempt w eq_refl)
    as (delta & Hrun & _).
  exists delta. exact Hrun.
Qed.

Ltac quiet :=
  repeat first
    [ simple apply network_only_ret
    | simple apply network_only_throw
    | simple apply network_only_gets
    | simple apply callNotion_network_only
    | simple apply network_only_bind
    | simple apply network_only_try_catch
    | simple apply network_only_if
    | lazymatch goal with |- forall _, _ => intro end
    | match goal with
      | |- network_only (match ?x with _ => _ end) => destruct x
      end ].

Lemma performHealthChecks_network_only (preferences : Preferences) :
  network_only (performHealthChecks preferences).
Proof. unfold performHealthChecks, notion_healthCheck. quiet. Qed.

Lemma scanDirectory_world (dirPath : string) (w : World) :
  snd (scanDirectory dirPath w) = w.
Proof.
  unfold scanDirectory. cbv zeta.
  destruct (negb (existsSync (expandPath dirPath))); [reflexivity |].
  destruct (statSync (expandPath dirPath)) as [stats|]; [| reflexivity].
  destruct (negb (isDirectory stats)); [reflexivity |].
  destruct (readdirSync (expandPath dirPath)); reflexivity.
Qed.

Lemma elem_of_concat_map {A B : Type} (f : A -> list B) (l : list A) (y : B) :
  y ∈ concat (map f l) -> exists x, x ∈ l /\ y ∈ f x.
Proof.
  induction l as [|x l IH]; simpl; intros H.
  - now apply elem_of_nil in H.
  - apply elem_of_app in H as [H | H].
    + exists x. split; [left | exact H].
    + destruct (IH H) as (x' & Hin & Hy). exists x'. split; [now right | exact Hy].
Qed.

Lemma readFile_modified (s : AppState) (filePath : string) (fc : FileContent) :
  readFile s filePath = Some fc ->
  fc_filePath fc = filePath /\ isFileModified s filePath = true.
Proof.
  unfold readFile. destruct (statSync filePath); [| discriminate].
  destruct (isFileModified s filePath); [| discriminate]. simpl.
  destruct (readFileSync filePath); [| discriminate].
  intros H. injection H as <-. auto.
Qed.

(** [ingestFiles] does not write the state file; it returns chunks of files
    that it saw as modified and, in memory, advances the watermark of the
    file of every chunk it returns. *)
Lemma ingestFiles_run (self : FileIngester) (dirPath : string) (w : World) :
  exists delta,
    w_trace (snd (ingestFiles self dirPath w)) = w_trace w ++ delta /\
    w_ledger (snd (ingestFiles self dirPath w)) = w_ledger w /\
    Forall (fun e => is_watermark e = true) delta /\
    (forall chunks c stats,
       fst (ingestFiles self dirPath w) = Ok chunks ->
       c ∈ chunks ->
       statSync (chunk_filePath c) = Some stats ->
       EvWatermark (chunk_filePath c) (mtimeMs stats) ∈ delta /\
       lastModifiedTimes (w_state (snd (ingestFiles self dirPath w))) !! chunk_filePath c =
         Some (mtimeMs stats) /\
       isFileModified (w_state w) (chunk_filePath c) = true).
Proof.
  destruct (ingestFiles_tracks self dirPath w) as (delta & Htr & Hled & Hq).
  exists delta. split; [exact Htr |]. split.
  { rewrite Hled. apply replay_ledger_no_save.
    eapply List.Forall_impl; [| exact Hq]. intros e. now destruct e. }
  split; [exact Hq |].
  revert Htr. unfold ingestFiles. rewrite bind_run.
  pose proof (scanDirectory_world dirPath w) as Hscan.
  destruct (scanDirectory dirPath w) as [[filePaths | e] w0]; simpl in Hscan; subst w0;
    [| intros _ chunks c stats Hfst; discriminate].
  destruct (length filePaths =? 0);
    [intros _ chunks c stats Hfst Hc; injection Hfst as <-; now apply elem_of_nil in Hc |].
  rewrite bind_run. unfold readFiles at 1. rewrite bind_run. simpl.
  destruct (length (omap (readFile (w_state w)) filePaths) =? 0);
    [intros _ chunks c stats Hfst Hc; injection Hfst as <-; now apply elem_of_nil in Hc |].
  destruct (ingest_loop_run self (omap (readFile (w_state w)) filePaths) [] w)
    as (w' & delta' & Hrun & Htr' & Hmap & Hev).
  rewrite Hrun. simpl. intros Htr chunks c stats Hfst Hc Hstat.
  rewrite Htr' in Htr. apply app_inv_head in Htr. subst delta'.
  injection Hfst as <-.
  apply elem_of_concat_map in Hc as (fc & Hfc & Hc).
  pose proof (chunkContent_filePath self fc) as Hpath.
  rewrite List.Forall_forall in Hpath.
  specialize (Hpath c (proj1 (list_elem_of_In _ _) Hc)).
  pose proof Hfc as Hread.
  apply list_elem_of_omap in Hread as (filePath & _ & Hread).
  apply readFile_modified in Hread as [Hfp Hmod].
  rewrite Hpath in *. split; [| split].
  - now apply Hev.
  - apply Hmap; [exact Hstat |]. right. eauto.
  - now rewrite Hfp.
Qed.

(** Every chunk that [ingestFiles] returns comes from a file that the state
    manager saw as modified. *)
Lemma ingestFiles_modified (self : FileIngester) (dirPath : string) (w : World)
    (chunks : list FileChunk) (c : FileChunk) :
  fst (ingestFiles self dirPath w) = Ok chunks ->
  c ∈ chunks ->
  isFileModified (w_state w) (chunk_filePath c) = true.
Proof.
  unfold ingestFiles. rewrite bind_run.
  pose proof (scanDirectory_world dirPath w) as Hscan.
  destruct (scanDirectory dirPath w) as [[filePaths | e] w0]; simpl in Hscan; subst w0;
    [| discriminate].
  destruct (length filePaths =? 0);
    [intros Hfst Hc; injection Hfst as <-; now apply elem_of_nil in Hc |].
  rewrite bind_run. unfold readFiles at 1. rewrite bind_run. simpl.
  destruct (length (omap (readFile (w_state w)) filePaths) =? 0);
    [intros Hfst Hc; injection Hfst as <-; now apply elem_of_nil in Hc |].
  destruct (ingest_loop_run self (omap (readFile (w_state w)) filePaths) [] w)
    as (w' & delta' & Hrun & _).
  rewrite Hrun. simpl. intros Hfst Hc. injection Hfst as <-.
  apply elem_of_concat_map in Hc as (fc & Hfc & Hc).
  pose proof (chunkContent_filePath self fc) as Hpath.
  rewrite List.Forall_forall in Hpath.
  specialize (Hpath c (proj1 (list_elem_of_In _ _) Hc)).
  apply list_elem_of_omap in Hfc as (filePath & _ & Hread).
  apply readFile_modified in Hread as [Hfp Hmod].
  now rewrite Hpath, Hfp.
Qed.

Lemma sync_extracted_tracks (preferences : Preferences)
    (extractionResults : list ExtractionResult) :
  tracks after_handoff (sync_extracted preferences extractionResults).
Proof.
  assert (Hsync : forall token db tasks n,
             tracks after_handoff (syncTasks token db tasks n)).
  { intros. eapply tracks_weaken; [| apply syncTasks_tracks].
    intros e. now destruct e. }
  unfold sync_extracted, cleanup_default.
  repeat first
    [ simple apply tracks_gets
    | simple apply tracks_bind
    | simple apply tracks_if
    | simple apply updateLastRun_tracks
    | simple apply cleanup_tracks
    | simple apply mark_synced_tracks
    | simple apply Hsync
    | lazymatch goal with |- forall _, _ => intro end ].
Qed.

(** The events of [run_sync]: either nothing is handed to the extractor,
    or the events are those of the ingestion, the hand-off, and what follows
    it. *)
Lemma run_sync_handoff (preferences : Preferences) (w : World) :
  exists delta,
    w_trace (snd (run_sync preferences w)) = w_trace w ++ delta /\
    w_ledger (snd (run_sync preferences w)) = replay_ledger delta (w_ledger w) /\
    (Forall (fun e => is_extract e = false) delta \/
     exists pre chunks post,
       delta = pre ++ EvExtract chunks :: post /\
       Forall (fun e => is_watermark e = true) pre /\
       Forall after_handoff post /\
       (forall c stats,
          c ∈ chunks -> statSync (chunk_filePath c) = Some stats ->
          EvWatermark (chunk_filePath c) (mtimeMs stats) ∈ pre) /\
       (forall c, c ∈ chunks -> isFileModified (w_state w) (chunk_filePath c) = true)).
Proof.
  unfold run_sync. rewrite bind_run.
  destruct (ingestFiles_run fileIngester (inboxDir preferences) w)
    as (d1 & Htr1 & Hled1 & Hq1 & Hev).
  pose proof (ingestFiles_modified fileIngester (inboxDir preferences) w) as Hmod.
  assert (Hno1 : Forall (fun e => is_extract e = false) d1).
  { eapply List.Forall_impl; [| exact Hq1]. intros e. now destruct e. }
  assert (Hrep1 : replay_ledger d1 (w_ledger w) = w_ledger w).
  { apply replay_ledger_no_save. eapply List.Forall_impl; [| exact Hq1].
    intros e. now destruct e. }
  destruct (ingestFiles fileIngester (inboxDir preferences) w) as [[chunks | e] w1];
    simpl in Htr1, Hled1, Hev, Hmod.
  2: { exists d1. simpl. rewrite Hrep1. auto. }
  destruct (length chunks =? 0).
  - destruct (updateLastRun_tracks w1) as (d2 & Htr2 & Hled2 & Hq2).
    exists (d1 ++ d2).
    rewrite Htr2, Htr1, Hled2, Hled1, replay_ledger_app, Hrep1, app_assoc.
    split; [reflexivity |]. split; [reflexivity |]. left.
    apply Forall_app. split; [exact Hno1 |].
    eapply List.Forall_impl; [| exact Hq2]. intros e0. now destruct e0.
  - rewrite bind_run. unfold extract at 1. rewrite bind_run. simpl.
    set (w1' := {| w_state := w_state w1; w_ledger := w_ledger w1;
                   w_trace := w_trace w1 ++ [EvExtract chunks] |}).
    destruct (extractTasksFromChunks (w_trace w1 ++ [EvExtract chunks]) chunks
                (openaiKey preferences) (openaiModel preferences))
      as [extractionResults | e].
    + destruct (sync_extracted_tracks preferences extractionResults w1')
        as (d3 & Htr3 & Hled3 & Hq3).
      exists (d1 ++ EvExtract chunks :: d3).
      rewrite Htr3, Hled3. subst w1'. simpl.
      rewrite Htr1, Hled1, replay_ledger_app, Hrep1. simpl.
      split; [now rewrite <- !app_assoc |]. split; [reflexivity |].
      right. exists d1, chunks, d3. repeat split; try assumption.
      * intros c stats Hc Hstat. now apply (Hev chunks c stats eq_refl Hc Hstat).
      * intros c Hc. now apply (Hmod chunks c eq_refl).
    + exists (d1 ++ [EvExtract chunks]). subst w1'. simpl.
      rewrite Htr1, Hled1, replay_ledger_app, Hrep1. simpl.
      split; [now rewrite <- !app_assoc |]. split; [reflexivity |].
      right. exists d1, chunks, []. repeat split; try assumption; [constructor | |].
      * intros c stats Hc Hstat. now apply (Hev chunks c stats eq_refl Hc Hstat).
      * intros c Hc. now apply (Hmod chunks c eq_refl).
Qed.

(** A list holds at most one split around an event of a kind that occurs
    nowhere else in it. *)
Lemma split_unique {A : Type} (P : A -> bool) (l1 l2 l1' l2' : list A) (x x' : A) :
  l1 ++ x :: l2 = l1' ++ x' :: l2' ->
  P x' = true ->
  Forall (fun e => P e = false) l1 ->
  Forall (fun e => P e = false) l2 ->
  l1' = l1 /\ x' = x /\ l2' = l2.
Proof.
  revert l1'. induction l1 as [|y l1 IH]; intros l1' Heq Hx' H1 H2.
  - destruct l1' as [|y' l1']; simpl in Heq.
    + injection Heq as -> ->. auto.
    + injection Heq as -> ->. exfalso.
      apply Forall_app in H2 as [_ H2]. inversion H2 as [|? ? Hp _]; subst. congruence.
  - inversion H1 as [|? ? Hy H1']; subst.
    destruct l1' as [|y' l1']; simpl in Heq.
    + injection Heq as -> _. congruence.
    + injection Heq as -> Heq. destruct (IH l1' Heq Hx' H1' H2) as (-> & -> & ->). auto.
Qed.

Lemma try_catch_ignore (m : M unit) (w : World) :
  snd (try_catch m (fun _ => ret tt) w) = snd (m w).
Proof. unfold try_catch. now destruct (m w) as [[[] | e] w']. Qed.

End RunnerFacts.

Section RunnerTheorems.

Context {rt : Runtime} {env : Env}.

(** *** C1 *)

(** C1 (amended).  In a run that hands chunks to the extractor, the
    watermark of the file of every chunk handed over is advanced in memory
    during the ingestion, before the hand-off, and no watermark is advanced
    after it; the state file is not written before the hand-off, each later
    save rewriting it.  So a process that dies after the ingestion and before
    the extraction leaves the state file as it was: a state manager started
    from it sees the same files as modified as one started before the run,
    and when the run itself started from the state file, it sees the file of
    every chunk as modified. *)
Theorem Command_handoff_order (preferences : Preferences) (w : World) :
  exists delta,
    w_trace (snd (Command preferences w)) = w_trace w ++ delta /\
    w_ledger (snd (Command preferences w)) = replay_ledger delta (w_ledger w) /\
    forall pre chunks post,
      delta = pre ++ EvExtract chunks :: post ->
      (forall c stats,
         c ∈ chunks -> statSync (chunk_filePath c) = Some stats ->
         EvWatermark (chunk_filePath c) (mtimeMs stats) ∈ pre) /\
      Forall (fun e => is_watermark e = false) post /\
      Forall (fun e => is_save e = false) pre /\
      replay_ledger pre (w_ledger w) = w_ledger w /\
      (forall p,
         isFileModified (loadState (replay_ledger pre (w_ledger w))) p =
         isFileModified (loadState (w_ledger w)) p) /\
      (w_state w = loadState (w_ledger w) ->
       forall c, c ∈ chunks ->
         isFileModified (loadState (replay_ledger pre (w_ledger w))) (chunk_filePath c) =
         true).
Proof.
  unfold Command. rewrite try_catch_ignore.
  assert (Hnothing : forall w0 : World,
             exists delta : list Event,
               w_trace w0 = w_trace w0 ++ delta /\
               w_ledger w0 = replay_ledger delta (w_ledger w0) /\
               Forall (fun e => is_extract e = false) delta).
  { intros w0. exists []. rewrite app_nil_r. repeat split. constructor. }
  assert (Hshape : exists delta,
             w_trace (snd ((if negb (enableScheduled preferences) then ret tt
                            else bind (performHealthChecks preferences)
                                   (fun healthResults =>
                                      if negb (fst healthResults) then ret tt
                                      else run_sync preferences)) w)) = w_trace w ++ delta /\
             w_ledger (snd ((if negb (enableScheduled preferences) then ret tt
                             else bind (performHealthChecks preferences)
                                    (fun healthResults =>
                                       if negb (fst healthResults) then ret tt
                                       else run_sync preferences)) w)) =
               replay_ledger delta (w_ledger w) /\
             (Forall (fun e => is_extract e = false) delta \/
              exists pre chunks post,
                delta = pre ++ EvExtract chunks :: post /\
                Forall before_handoff pre /\
                Forall after_handoff post /\
                (forall c stats,
                   c ∈ chunks -> statSync (chunk_filePath c) = Some stats ->
                   EvWatermark (chunk_filePath c) (mtimeMs stats) ∈ pre) /\
                (forall c, c ∈ chunks ->
                   isFileModified (w_state w) (chunk_filePath c) = true))).
  { destruct (negb (enableScheduled preferences)).
    { destruct (Hnothing w) as (d & H1 & H2 & H3). exists d. simpl.
      split; [exact H1 | split; [exact H2 | left; exact H3]]. }
    rewrite bind_run.
    destruct (performHealthChecks_tracks preferences w) as (d0 & Htr0 & Hled0 & Hq0).
    destruct (performHealthChecks_network_only preferences w) as (d0' & Hquiet).
    assert (Hno0 : Forall (fun e => is_extract e = false) d0).
    { eapply List.Forall_impl; [| exact Hq0]. intros e. now destruct e. }
    assert (Hrep0 : replay_ledger d0 (w_ledger w) = w_ledger w).
    { apply replay_ledger_no_save. eapply List.Forall_impl; [| exact Hq0].
      intros e. now destruct e. }
    destruct (performHealthChecks preferences w) as [[healthResults | e] w0];
      simpl in Htr0, Hled0, Hquiet.
    2: { exists d0. simpl.
         split; [exact Htr0 | split; [exact Hled0 | left; exact Hno0]]. }
    destruct (negb (fst healthResults)).
    { exists d0. simpl.
         split; [exact Htr0 | split; [exact Hled0 | left; exact Hno0]]. }
    destruct (run_sync_handoff preferences w0) as (d1 & Htr1 & Hled1 & Hcases).
    exists (d0 ++ d1).
    rewrite Htr1, Htr0, Hled1, Hled0, replay_ledger_app, app_assoc.
    split; [reflexivity |]. split; [reflexivity |].
    destruct Hcases as [Hno1 | (pre & chunks & post & -> & Hpre & Hpost & Hev & Hmod)].
    - left. apply Forall_app. auto.
    - right. exists (d0 ++ pre), chunks, post.
      split; [now rewrite <- app_assoc |]. split.
      + apply Forall_app. split.
        * eapply List.Forall_impl; [| exact Hq0]. intros e. now destruct e.
        * eapply List.Forall_impl; [| exact Hpre]. intros e. now destruct e.
      + split; [exact Hpost |]. split.
        * intros c stats Hc Hstat. apply elem_of_app. right. now apply Hev.
        * intros c Hc. specialize (Hmod c Hc). now rewrite Hquiet in Hmod. }
  destruct Hshape as (delta & Htr & Hled & Hcases).
  exists delta. split; [exact Htr |]. split; [exact Hled |].
  intros pre chunks post Hsplit.
  destruct Hcases as [Hno | (pre0 & chunks0 & post0 & Heq & Hpre & Hpost & Hev & Hmod)].
  - exfalso. rewrite Hsplit in Hno. apply Forall_app in Hno as [_ Hno].
    inversion Hno as [|? ? Hx _]. discriminate.
  - rewrite Heq in Hsplit.
    destruct (split_unique is_extract pre0 post0 pre post
                (EvExtract chunks0) (EvExtract chunks) Hsplit eq_refl)
      as (-> & Hch & ->).
    { eapply List.Forall_impl; [| exact Hpre]. intros e. now destruct e. }
    { eapply List.Forall_impl; [| exact Hpost]. intros e. now destruct e. }
    injection Hch as ->.
    assert (Hnosave : Forall (fun e => is_save e = false) pre0).
    { eapply List.Forall_impl; [| exact Hpre]. intros e. now destruct e. }
    split; [exact Hev |]. split.
    { eapply List.Forall_impl; [| exact Hpost]. intros e. now destruct e. }
    split; [exact Hnosave |].
    split; [now apply replay_ledger_no_save |].
    split; [intros p; now rewrite replay_ledger_no_save |].
    intros Hfresh c Hc. rewrite replay_ledger_no_save by exact Hnosave.
    rewrite <- Hfresh. now apply Hmod.
Qed.

End RunnerTheorems.

(** C1, as stated, fails: with one modified file in the inbox, the
    ingestion has advanced the file's watermark before anything is handed to
    the extractor; and when the extraction then throws, the run ends with the
    watermark advanced and the file no longer seen as modified. *)
Lemma watermark_before_handoff_counterexample :
  let env := Mock.failing_extractor in
  let ingested := ingestFiles (rt := Mock.runtime) fileIngester "/inbox" Mock.empty_world in
  let finished := Command (rt := Mock.runtime) Mock.preferences Mock.empty_world in
  lastModifiedTimes (w_state Mock.empty_world) !! "/inbox/a.md" = None /\
  isFileModified (w_state Mock.empty_world) "/inbox/a.md" = true /\
  length (match fst ingested with Ok chunks => chunks | Throw _ => [] end) = 1 /\
  lastModifiedTimes (w_state (snd ingested)) !! "/inbox/a.md" = Some 1755250000000%Z /\
  w_trace (snd ingested) = [EvWatermark "/inbox/a.md" 1755250000000] /\
  List.filter is_extract (w_trace (snd finished)) =
    [EvExtract [ {| chunk_filePath := "/inbox/a.md"; chunk_content := "- [ ] Buy milk";
                    chunkIndex := 0; totalChunks := 1 |} ]] /\
  List.filter is_save (w_trace (snd finished)) = [] /\
  lastModifiedTimes (w_state (snd finished)) !! "/inbox/a.md" = Some 1755250000000%Z /\
  isFileModified (w_state (snd finished)) "/inbox/a.md" = false.
Proof. vm_compute. repeat split. Qed.

Lemma Command_handoff_order_witness :
  let env := Mock.healthy in
  let finished := Command (rt := Mock.runtime) Mock.preferences Mock.empty_world in
  w_state Mock.empty_world = loadState (rt := Mock.runtime) (w_ledger Mock.empty_world) /\
  exists pre chunks post,
    w_trace (snd finished) = pre ++ EvExtract chunks :: post /\
    EvWatermark "/inbox/a.md" 1755250000000 ∈ pre /\
    Forall (fun e => is_save e = false) pre /\
    List.filter is_save post <> [] /\
    isFileModified
      (loadState (rt := Mock.runtime) (replay_ledger pre (w_ledger Mock.empty_world)))
      "/inbox/a.md" = true.
Proof.
  intros env finished.
  assert (Hfresh : w_state Mock.empty_world =
                   loadState (rt := Mock.runtime) (w_ledger Mock.empty_world))
    by reflexivity.
  split; [exact Hfresh |].
  destruct (Command_handoff_order (rt := Mock.runtime) (env := env)
              Mock.preferences Mock.empty_world) as (delta & Htr & _ & Horder).
  fold finished in Htr. simpl in Htr. subst delta.
  assert (Hsplit : exists pre chunks post,
             w_trace (snd finished) = pre ++ EvExtract chunks :: post /\
             (exists c, c ∈ chunks /\ chunk_filePath c = "/inbox/a.md") /\
             List.filter is_save post <> []).
  { vm_compute. eexists [_; _; _], _, _.
    split; [reflexivity |]. split; [| discriminate].
    eexists. split; [left | reflexivity]. }
  destruct Hsplit as (pre & chunks & post & Hsplit & (c & Hc & Hpath) & Hsaved).
  destruct (Horder pre chunks post Hsplit) as (Hev & _ & Hnosave & _ & _ & Heligible).
  exists pre, chunks, post. split; [exact Hsplit |].
  split; [| split; [exact Hnosave | split; [exact Hsaved |]]].
  - specialize (Hev c {| mtimeMs := 1755250000000; isDirectory := false |} Hc).
    rewrite Hpath in Hev. apply Hev. reflexivity.
  - specialize (Heligible Hfresh c Hc). now rewrite Hpath in Heligible.
Defined.

(** ** The hourly run: what it forwards and what it marks *)

Section RunnerSync.

Context {rt : Runtime} {env : Env}.

Lemma filter_none {A : Type} (f : A -> bool) (l : list A) :
  Forall (fun x => f x = false) l -> List.filter f l = [].
Proof.
  induction 1 as [|x l Hx _ IH]; [reflexivity |]. simpl. now rewrite Hx.
Qed.

Lemma filter_marks (allTasks : list TaskWithMeta) (syncResults : list NotionSyncResult) :
  List.filter is_mark (concat (zip_with mark_calls allTasks syncResults)) =
  concat (zip_with mark_calls allTasks syncResults).
Proof.
  revert syncResults. induction allTasks as [|t ts IH]; intros [|r rs]; try reflexivity.
  simpl. rewrite List.filter_app, IH. unfold mark_calls. now destruct (success r).
Qed.

(** A run that reaches the sync, from there on: it calls [syncTasks] for
    the tasks collected from the results of the extraction, then
    [markTaskProcessed] for the tasks whose sync succeeded, and then only
    saves the state.  Before that point it has marked nothing. *)
Lemma Command_sync_run (preferences : Preferences) (w : World)
    (extractionResults : list ExtractionResult) (w3 : World) :
  reaches_sync preferences w extractionResults w3 ->
  let allTasks :=
    collect_all (w_state w3) (Date_toISOString (w_trace w3)) extractionResults in
  exists pre syncResults dsync post,
    w_trace w3 = w_trace w ++ pre /\
    Forall (fun e => is_mark e = false) pre /\
    syncTasks (notionToken preferences) (notionDbId preferences) allTasks 3 w3 =
      (Ok syncResults, after w3 dsync) /\
    length syncResults = length allTasks /\
    Forall network_event dsync /\
    w_trace (snd (Command preferences w)) =
      w_trace w3 ++ dsync ++ concat (zip_with mark_calls allTasks syncResults) ++ post /\
    Forall (fun e => is_save e = true) post.
Proof.
  intros (Henabled & issues & w1 & chunks & w2 & Hhealth & Hingest & Hchunks & Hextract)
    allTasks.
  assert (Hpre : exists pre,
             w_trace w3 = w_trace w ++ pre /\ Forall (fun e => is_mark e = false) pre).
  { destruct (performHealthChecks_tracks preferences w) as (d0 & Htr0 & _ & Hq0).
    rewrite Hhealth in Htr0. simpl in Htr0.
    destruct (ingestFiles_tracks fileIngester (inboxDir preferences) w1)
      as (d1 & Htr1 & _ & Hq1).
    rewrite Hingest in Htr1. simpl in Htr1.
    unfold extract in Hextract. rewrite bind_run in Hextract. simpl in Hextract.
    assert (Htr2 : w_trace w3 = w_trace w2 ++ [EvExtract chunks]).
    { destruct (extractTasksFromChunks _ chunks _ _); [| discriminate].
      injection Hextract as _ <-. reflexivity. }
    exists (d0 ++ d1 ++ [EvExtract chunks]).
    rewrite Htr2, Htr1, Htr0, <- !app_assoc. split; [reflexivity |].
    apply Forall_app. split.
    - eapply List.Forall_impl; [| exact Hq0]. intros e. now destruct e.
    - apply Forall_app. split; [| repeat constructor].
      eapply List.Forall_impl; [| exact Hq1]. intros e. now destruct e. }
  destruct Hpre as (pre & Hpre & Hquiet).
  assert (Hrun : snd (Command preferences w) =
                 snd (sync_extracted preferences extractionResults w3)).
  { unfold Command. rewrite try_catch_ignore, Henabled. cbn [negb].
    rewrite bind_run, Hhealth. cbn [fst negb]. unfold run_sync.
    rewrite bind_run, Hingest.
    destruct chunks as [|c chunks]; [contradiction |]. cbn [length Nat.eqb].
    now rewrite bind_run, Hextract. }
  destruct (syncTasks_run (notionToken preferences) (notionDbId preferences) allTasks 3 w3)
    as (syncResults & dsync & Hsync & Hlen & Hnet & Hnone).
  assert (Hlast : forall w0, exists post,
             w_trace (snd (updateLastRun w0)) = w_trace w0 ++ post /\
             Forall (fun e => is_save e = true) post).
  { intros w0. destruct (updateLastRun_saves w0) as (post & Htr & _ & Hq). eauto. }
  exists pre, syncResults, dsync. rewrite Hrun.
  assert (Hend : exists post,
             w_trace (snd (sync_extracted preferences extractionResults w3)) =
               w_trace w3 ++ dsync ++ concat (zip_with mark_calls allTasks syncResults)
                 ++ post /\
             Forall (fun e => is_save e = true) post).
  { unfold sync_extracted. rewrite bind_run. unfold gets at 1. cbn beta iota.
    rewrite bind_run. unfold gets at 1. cbn beta iota. fold allTasks.
    destruct (length allTasks =? 0) eqn:Hempty.
    - apply Nat.eqb_eq, nil_length_inv in Hempty.
      rewrite (Hnone Hempty), Hempty. simpl. apply Hlast.
    - rewrite bind_run, Hsync, bind_run.
      destruct (mark_synced_from allTasks syncResults 0 (after w3 dsync))
        as (w5 & Hmark & Htr5 & _); [lia |].
      rewrite drop_0 in Htr5. rewrite Hmark, bind_run. unfold cleanup_default.
      destruct (cleanup_saves 10000 w5) as (d6 & Htr6 & _ & Hq6).
      destruct (cleanup 10000 w5) as [[[] | e] w6]; simpl in Htr6.
      + destruct (Hlast w6) as (d7 & Htr7 & Hq7).
        exists (d6 ++ d7). rewrite Htr7, Htr6, Htr5. simpl.
        rewrite <- !app_assoc. split; [reflexivity |]. now apply Forall_app.
      + exists d6. simpl. rewrite Htr6, Htr5. simpl.
        rewrite <- !app_assoc. split; [reflexivity | exact Hq6]. }
  destruct Hend as (post & Htrace & Hsaves).
  exists post. repeat split; assumption.
Qed.

(** A run that does not reach the sync marks nothing. *)
Lemma Command_without_sync (preferences : Preferences) (w : World) :
  (forall extractionResults w3, ~ reaches_sync preferences w extractionResults w3) ->
  exists delta,
    w_trace (snd (Command preferences w)) = w_trace w ++ delta /\
    Forall (fun e => is_mark e = false) delta.
Proof.
  intros Hnever. unfold Command. rewrite try_catch_ignore.
  destruct (enableScheduled preferences) eqn:Henabled; cbn [negb].
  2:{ exists []. simpl. rewrite app_nil_r. split; [reflexivity | constructor]. }
  rewrite bind_run.
  destruct (performHealthChecks_tracks preferences w) as (d0 & Htr0 & _ & Hq0).
  assert (Hquiet0 : Forall (fun e => is_mark e = false) d0).
  { eapply List.Forall_impl; [| exact Hq0]. intros e. now destruct e. }
  destruct (performHealthChecks preferences w) as [[[healthy issues] | e] w1] eqn:Hhealth;
    simpl in Htr0; [| exists d0; auto].
  destruct healthy; cbn [fst negb]; [| exists d0; auto].
  unfold run_sync. rewrite bind_run.
  destruct (ingestFiles_tracks fileIngester (inboxDir preferences) w1)
    as (d1 & Htr1 & _ & Hq1).
  assert (Hquiet1 : Forall (fun e => is_mark e = false) (d0 ++ d1)).
  { apply Forall_app. split; [exact Hquiet0 |].
    eapply List.Forall_impl; [| exact Hq1]. intros e. now destruct e. }
  destruct (ingestFiles fileIngester (inboxDir preferences) w1) as [[chunks | e] w2]
    eqn:Hingest; simpl in Htr1.
  2:{ exists (d0 ++ d1). simpl. rewrite Htr1, Htr0, app_assoc. auto. }
  destruct chunks as [|c chunks]; cbn [length Nat.eqb].
  { destruct (updateLastRun_saves w2) as (d2 & Htr2 & _ & Hq2).
    exists (d0 ++ d1 ++ d2). rewrite Htr2, Htr1, Htr0, <- !app_assoc.
    split; [reflexivity |]. rewrite app_assoc. apply Forall_app. split; [exact Hquiet1 |].
    eapply List.Forall_impl; [| exact Hq2]. intros e. now destruct e. }
  rewrite bind_run.
  destruct (extract (c :: chunks) (openaiKey preferences) (openaiModel preferences) w2)
    as [[extractionResults | e] w3] eqn:Hextract.
  { exfalso. apply (Hnever extractionResults w3).
    split; [exact Henabled |]. exists issues, w1, (c :: chunks), w2.
    repeat split; try assumption. discriminate. }
  unfold extract in Hextract. rewrite bind_run in Hextract. simpl in Hextract.
  injection Hextract as _ <-. simpl.
  exists (d0 ++ d1 ++ [EvExtract (c :: chunks)]). rewrite Htr1, Htr0, <- !app_assoc.
  split; [reflexivity |]. rewrite app_assoc. apply Forall_app. split; [exact Hquiet1 |].
  repeat constructor.
Qed.

(** *** C8 *)

(** C8.  In a run that reaches the sync, the orchestrator forwards to
    [syncTasks] the tasks collected from the results of the extraction, gets
    one result for each of them, and in the whole run calls
    [markTaskProcessed] exactly for the tasks whose result has
    [success = true]: once for each, with the hash of the task, in the order
    of the tasks; for a task whose result has [success = false] it makes no
    call.  So an event of marking occurs in the run for a hash exactly when
    a forwarded task with this hash has a result with [success = true].  A
    run that does not reach the sync forwards nothing and marks nothing. *)
Theorem Command_marks_iff_success (preferences : Preferences) (w : World) :
  (forall extractionResults w3,
     reaches_sync preferences w extractionResults w3 ->
     let allTasks :=
       collect_all (w_state w3) (Date_toISOString (w_trace w3)) extractionResults in
     exists syncResults w4 delta,
       syncTasks (notionToken preferences) (notionDbId preferences) allTasks 3 w3 =
         (Ok syncResults, w4) /\
       length syncResults = length allTasks /\
       w_trace (snd (Command preferences w)) = w_trace w ++ delta /\
       List.filter is_mark delta =
         concat (zip_with (fun t r => if success r then [EvMarkProcessed (hash t)] else [])
                   allTasks syncResults) /\
       (forall h,
          EvMarkProcessed h ∈ delta <->
          exists i t r,
            allTasks !! i = Some t /\ syncResults !! i = Some r /\
            success r = true /\ hash t = h)) /\
  ((forall extractionResults w3, ~ reaches_sync preferences w extractionResults w3) ->
   exists delta,
     w_trace (snd (Command preferences w)) = w_trace w ++ delta /\
     List.filter is_mark delta = []).
Proof.
  split.
  2:{ intros Hnever.
      destruct (Command_without_sync preferences w Hnever) as (delta & Htrace & Hquiet).
      exists delta. split; [exact Htrace | now apply filter_none]. }
  intros extractionResults w3 Hreach allTasks.
  destruct (Command_sync_run preferences w extractionResults w3 Hreach)
    as (pre & syncResults & dsync & post & Hpre & Hquiet & Hsync & Hlen & Hnet & Htrace
        & Hsaves).
  fold allTasks in Hsync, Hlen, Htrace.
  set (marks := concat (zip_with mark_calls allTasks syncResults)) in *.
  exists syncResults, (after w3 dsync), (pre ++ dsync ++ marks ++ post).
  split; [exact Hsync |]. split; [exact Hlen |].
  split; [rewrite Htrace, Hpre, <- !app_assoc; reflexivity |].
  assert (Hfilter : List.filter is_mark (pre ++ dsync ++ marks ++ post) = marks).
  { rewrite !List.filter_app, (filter_none is_mark pre Hquiet).
    rewrite (filter_none is_mark dsync), (filter_none is_mark post).
    - unfold marks. now rewrite filter_marks, app_nil_r.
    - eapply List.Forall_impl; [| exact Hsaves]. intros e. now destruct e.
    - eapply List.Forall_impl; [| exact Hnet]. intros e. now destruct e. }
  split; [exact Hfilter |].
  intros h. rewrite <- elem_of_synced_hashes.
  assert (Hin : EvMarkProcessed h ∈ pre ++ dsync ++ marks ++ post <->
                EvMarkProcessed h ∈ marks).
  { rewrite <- Hfilter at 2. rewrite !list_elem_of_In, filter_In. simpl. tauto. }
  rewrite Hin. unfold marks, synced_hashes, mark_calls.
  clear. revert syncResults.
  induction allTasks as [|t ts IH]; intros [|r rs]; simpl;
    try (rewrite !elem_of_nil; tauto).
  rewrite !elem_of_app, IH. destruct (success r); simpl.
  - rewrite !list_elem_of_singleton. split; [intros [[= ->] | H] | intros [-> | H]]; auto.
  - rewrite !elem_of_nil. tauto.
Qed.

End RunnerSync.

Lemma Command_marks_iff_success_witness :
  let rt := Mock.runtime in
  let env := Sample.one_refused in
  let checked := performHealthChecks Mock.preferences Mock.empty_world in
  let ingested := ingestFiles fileIngester "/inbox" (snd checked) in
  let chunks := match fst ingested with Ok chunks => chunks | Throw _ => [] end in
  let extracted := extract chunks "test-openai-key" "test-model" (snd ingested) in
  let extractionResults := match fst extracted with Ok results => results | Throw _ => [] end in
  let allTasks :=
    collect_all (w_state (snd extracted)) (Date_toISOString (w_trace (snd extracted)))
      extractionResults in
  reaches_sync Mock.preferences Mock.empty_world extractionResults (snd extracted) /\
  exists syncResults delta,
    fst (syncTasks "test-notion-token" "test-database-id" allTasks 3 (snd extracted)) =
      Ok syncResults /\
    map success syncResults = [true; false] /\
    w_trace (snd (Command Mock.preferences Mock.empty_world)) = delta /\
    List.filter is_mark delta =
      [EvMarkProcessed (generateTaskHash Mock.buy_milk "/inbox/a.md" 0)].
Proof.
  intros rt env checked ingested chunks extracted extractionResults allTasks.
  assert (Hreach : reaches_sync Mock.preferences Mock.empty_world extractionResults
                     (snd extracted)).
  { split; [reflexivity |]. exists [], (snd checked), chunks, (snd ingested).
    split; [vm_compute; reflexivity |]. split; [vm_compute; reflexivity |].
    split; [discriminate |]. vm_compute. reflexivity. }
  split; [exact Hreach |].
  destruct (proj1 (Command_marks_iff_success (rt := rt) (env := env) Mock.preferences
                     Mock.empty_world) extractionResults (snd extracted) Hreach)
    as (syncResults & w4 & delta & Hsync & _ & Htrace & Hfilter & _).
  fold allTasks in Hsync, Hfilter.
  exists syncResults, delta.
  assert (Hresults : fst (syncTasks "test-notion-token" "test-database-id" allTasks 3
                            (snd extracted)) = Ok syncResults)
    by exact (f_equal fst Hsync).
  split; [exact Hresults |].
  vm_compute in Hresults. injection Hresults as <-.
  split; [reflexivity |]. split; [exact Htrace |].
  rewrite Hfilter. vm_compute. reflexivity.
Defined.

(** * Further properties of the code *)

(** ** The state manager: pruning *)

Section StateExtras.

Context {rt : Runtime} {env : Env}.

#[local] Existing Instance is_stale_dec.

(** What [cleanup] leaves in [lastModifiedTimes] and in [lastRun]. *)
Lemma cleanup_lastModifiedTimes (maxEntries : Z) (w : World) :
  lastModifiedTimes (w_state (snd (cleanup maxEntries w))) =
  filter (fun kv => ~ is_stale (Date_now (w_trace w) - thirtyDays) kv)
    (lastModifiedTimes (w_state w)).
Proof.
  unfold cleanup, bind, gets, modify_state, ret. simpl.
  match goal with
  | |- context [if ?b then saveState else _] => destruct b
  end; [rewrite saveState_state |]; reflexivity.
Qed.

Lemma cleanup_lastRun (maxEntries : Z) (w : World) :
  lastRun (w_state (snd (cleanup maxEntries w))) = lastRun (w_state w).
Proof.
  unfold cleanup, bind, gets, modify_state, ret. simpl.
  match goal with
  | |- context [if ?b then saveState else _] => destruct b
  end; [rewrite saveState_state |]; reflexivity.
Qed.

(** X1.  With a cap of two or more, [cleanup] leaves at most [maxEntries]
    hashes in the processed set, without duplicates, and what it leaves is
    the end of the set in insertion order (the hashes added last): all of
    them when the set was within the cap, and [floor(0.8 * maxEntries)] of
    them when it was larger. *)
Theorem cleanup_retains_most_recent (maxEntries : Z) (w : World) :
  (2 <= maxEntries)%Z ->
  NoDup (processedTasks (w_state w)) ->
  let before := processedTasks (w_state w) in
  let kept := processedTasks (w_state (snd (cleanup maxEntries w))) in
  (Z.of_nat (length kept) <= maxEntries)%Z /\
  NoDup kept /\
  (exists dropped, before = dropped ++ kept) /\
  ((maxEntries < Z.of_nat (length before))%Z ->
   Z.of_nat (length kept) = keep_count maxEntries) /\
  ((Z.of_nat (length before) <= maxEntries)%Z -> kept = before).
Proof.
  intros Htwo Hnd before kept.
  assert (Hk : (1 <= keep_count maxEntries <= maxEntries)%Z).
  { unfold keep_count. split.
    - apply Z.div_le_lower_bound; lia.
    - apply Z.div_le_upper_bound; lia. }
  destruct (Z_lt_le_dec maxEntries (Z.of_nat (length before))) as [Hlarge | Hsmall].
  - destruct (cleanup_trims maxEntries w Htwo Hlarge Hnd) as [Hkept Hlen].
    cbv zeta in Hkept, Hlen. fold kept in Hkept, Hlen. fold before in Hkept.
    assert (Hsplit : before =
                     take (length before - Z.to_nat (keep_count maxEntries)) before ++ kept).
    { rewrite Hkept. now rewrite take_drop. }
    split; [lia |]. split.
    + unfold before in Hsplit at 1. rewrite Hsplit in Hnd.
      now apply NoDup_app in Hnd as (_ & _ & Hnd).
    + split; [eexists; exact Hsplit |]. split; [intros _; lia | intros; lia].
  - pose proof (cleanup_keeps maxEntries w Hsmall) as Hkept. fold kept before in Hkept.
    rewrite Hkept. split; [exact Hsmall |]. split; [exact Hnd |].
    split; [now exists [] |]. split; [intros; lia | reflexivity].
Qed.

(** X2.  [cleanup] keeps a watermark exactly when it is not older than
    thirty days before the time of the call, with its value; it adds none
    and leaves [lastRun] alone. *)
Theorem cleanup_watermark_window (maxEntries : Z) (w : World) :
  let w' := snd (cleanup maxEntries w) in
  (forall p m,
     lastModifiedTimes (w_state w') !! p = Some m <->
     lastModifiedTimes (w_state w) !! p = Some m /\
     (Date_now (w_trace w) - thirtyDays <= m)%Z) /\
  getLastRun (w_state w') = getLastRun (w_state w).
Proof.
  intros w'. subst w'. split.
  - intros p m. rewrite cleanup_lastModifiedTimes, map_lookup_filter_Some.
    unfold is_stale. simpl. split; intros [H1 H2]; (split; [exact H1 | lia]).
  - apply cleanup_lastRun.
Qed.

(** X3.  A file that has not changed since its watermark was recorded is
    not modified; once its modification time is more than thirty days old,
    [cleanup] deletes the watermark and the file counts as modified
    again. *)
Theorem cleanup_forgets_old_file (maxEntries : Z) (w : World) (p : string)
    (stats : Stats) :
  statSync p = Some stats ->
  lastModifiedTimes (w_state w) !! p = Some (mtimeMs stats) ->
  mtimeMs stats <> 0%Z ->
  (mtimeMs stats < Date_now (w_trace w) - thirtyDays)%Z ->
  isFileModified (w_state w) p = false /\
  isFileModified (w_state (snd (cleanup maxEntries w))) p = true.
Proof.
  intros Hstat Hmark Hnz Hold. unfold isFileModified. rewrite Hstat, Hmark.
  split.
  - destruct (Z.eqb_spec (mtimeMs stats) 0); [contradiction |].
    apply Z.ltb_irrefl.
  - destruct (lastModifiedTimes (w_state (snd (cleanup maxEntries w))) !! p)
      as [m |] eqn:Hlook; [| reflexivity].
    rewrite cleanup_lastModifiedTimes in Hlook.
    apply map_lookup_filter_Some in Hlook as [Hm Hfresh].
    unfold is_stale in Hfresh. simpl in Hfresh.
    rewrite Hmark in Hm. injection Hm as <-. lia.
Qed.

(** X4.  When the processed set is within the cap and no watermark is older
    than thirty days, [cleanup] changes nothing: the state is left as it is
    and the state file is not written. *)
Theorem cleanup_nothing_to_do (maxEntries : Z) (w : World) :
  (Z.of_nat (length (processedTasks (w_state w))) <= maxEntries)%Z ->
  (forall p m, lastModifiedTimes (w_state w) !! p = Some m ->
               (Date_now (w_trace w) - thirtyDays <= m)%Z) ->
  cleanup maxEntries w = (Ok tt, w).
Proof.
  intros Hsmall Hfresh.
  unfold cleanup, bind, gets, modify_state, ret. simpl.
  destruct (Z.ltb_spec maxEntries (Z.of_nat (length (processedTasks (w_state w)))));
    [lia |].
  assert (Hnone : filter (is_stale (Date_now (w_trace w) - thirtyDays))
                    (lastModifiedTimes (w_state w)) = ∅).
  { apply map_empty_filter_2. intros p m Hm. unfold is_stale. simpl.
    specialize (Hfresh p m Hm). lia. }
  assert (Hall : filter (fun kv => ~ is_stale (Date_now (w_trace w) - thirtyDays) kv)
                   (lastModifiedTimes (w_state w)) = lastModifiedTimes (w_state w)).
  { apply map_filter_id. intros p m Hm. unfold is_stale. simpl.
    specialize (Hfresh p m Hm). lia. }
  rewrite Hnone, Hall. rewrite bool_decide_eq_true_2 by reflexivity. simpl.
  destruct w as [[lr pt lm] led tr]. reflexivity.
Qed.

End StateExtras.

Lemma cleanup_retains_most_recent_witness :
  let w := Sample.world {| lastRun := None;
                           processedTasks := ["h1"; "h2"; "h3"; "h4"];
                           lastModifiedTimes := ∅ |} in
  let kept := processedTasks
                (w_state (snd (cleanup (rt := Mock.runtime)
                                 (env := Sample.always (Rejected "offline")) 3 w))) in
  (2 <= 3)%Z /\
  NoDup ["h1"; "h2"; "h3"; "h4"] /\
  (Z.of_nat (length kept) <= 3)%Z /\
  NoDup kept /\
  (exists dropped, ["h1"; "h2"; "h3"; "h4"] = dropped ++ kept) /\
  ((3 < 4)%Z -> Z.of_nat (length kept) = keep_count 3) /\
  ((4 <= 3)%Z -> kept = ["h1"; "h2"; "h3"; "h4"]).
Proof.
  intros w kept.
  assert (H1 : (2 <= 3)%Z) by lia.
  assert (H2 : NoDup ["h1"; "h2"; "h3"; "h4"]).
  { repeat (apply NoDup_cons; split; [intros Hin; repeat (apply elem_of_cons in Hin as [Hin | Hin]; [discriminate Hin |]); inversion Hin |]).
    apply NoDup_nil. exact I. }
  split; [exact H1 |]. split; [exact H2 |].
  exact (cleanup_retains_most_recent (rt := Mock.runtime)
           (env := Sample.always (Rejected "offline")) 3 w H1 H2).
Defined.

Lemma cleanup_forgets_old_file_witness :
  let env := Sample.forty_days_later in
  let w := Sample.world Sample.state in
  isFileModified (w_state w) "/inbox/a.md" = false /\
  isFileModified
    (w_state (snd (cleanup (rt := Mock.runtime) 10000 w))) "/inbox/a.md" = true.
Proof.
  intros env w.
  refine (cleanup_forgets_old_file (rt := Mock.runtime) (env := env) 10000 w "/inbox/a.md"
            {| mtimeMs := 1755250000000; isDirectory := false |} _ _ _ _).
  - reflexivity.
  - vm_compute. reflexivity.
  - discriminate.
  - vm_compute. reflexivity.
Defined.

Lemma cleanup_nothing_to_do_witness :
  let env := Sample.always (Rejected "offline") in
  cleanup (rt := Mock.runtime) 10000 (Sample.world Sample.state)
  = (Ok tt, Sample.world Sample.state).
Proof.
  intros env.
  refine (cleanup_nothing_to_do (rt := Mock.runtime) (env := env) 10000
            (Sample.world Sample.state) _ _).
  - vm_compute. discriminate.
  - intros p m Hm.
    change (({[ "/inbox/a.md" := 1755250000000%Z ]} : gmap string Z) !! p = Some m) in Hm.
    apply lookup_singleton_Some in Hm as [_ <-]. vm_compute. discriminate.
Defined.

(** ** The state manager: marks, watermarks and the state file *)

Section StateRoundTrips.

Context {rt : Runtime} {env : Env}.

Lemma json_strings_JStr (l : list string) : json_strings (map JStr l) = l.
Proof.
  unfold json_strings. induction l as [| x l IH]; [reflexivity |].
  cbn. now rewrite IH.
Qed.

Lemma json_numbers_JNum (l : list (string * Z)) :
  json_numbers (map (fun kv => (fst kv, JNum (snd kv))) l) = list_to_map l.
Proof.
  unfold json_numbers. f_equal.
  induction l as [| [k v] l IH]; [reflexivity |].
  cbn. now rewrite IH.
Qed.

(** Loading the text of a serialised state gives the state back, when the
    parser reads what the printer wrote. *)
Lemma loadState_serialisableState (s : AppState) :
  JSON_parse (JSON_stringify_indent (serialisableState s)) = Some (serialisableState s) ->
  NoDup (processedTasks s) ->
  lastRun s <> Some EmptyString ->
  loadState (Content (JSON_stringify_indent (serialisableState s))) = s.
Proof.
  intros Hparse Hnd Hrun. unfold loadState. rewrite Hparse.
  destruct s as [lr pt lm]. simpl in *.
  f_equal.
  - unfold json_get_truthy_string, json_get_string. simpl.
    destruct lr as [t |]; [| reflexivity].
    destruct t; [contradiction Hrun; reflexivity | reflexivity].
  - rewrite json_strings_JStr. now apply new_Set_NoDup.
  - rewrite json_numbers_JNum. apply list_to_map_to_list.
Qed.

(** X5.  With a writable state file and a parser that reads back what
    [JSON.stringify] printed for the state, [save] succeeds, does not change
    the state in memory, and the state file then loads to that very state:
    the last run, the processed set in its insertion order and every
    watermark.  [reset], which loads the file and saves it again, therefore
    keeps a state that has just been saved. *)
Theorem save_loadState_round_trip (w : World) :
  stateFile_writable = true ->
  JSON_parse (JSON_stringify_indent (serialisableState (w_state w))) =
    Some (serialisableState (w_state w)) ->
  NoDup (processedTasks (w_state w)) ->
  lastRun (w_state w) <> Some EmptyString ->
  fst (save w) = Ok tt /\
  w_state (snd (save w)) = w_state w /\
  loadState (w_ledger (snd (save w))) = w_state w /\
  w_state (new_StateManager (w_ledger (snd (save w))) []) = w_state w /\
  w_state (snd (reset (snd (save w)))) = w_state w.
Proof.
  intros Hwritable Hparse Hnd Hrun.
  assert (Hload : loadState (w_ledger (snd (save w))) = w_state w).
  { unfold save, saveState. rewrite Hwritable. cbn.
    now apply loadState_serialisableState. }
  split; [unfold save, saveState; now rewrite Hwritable |].
  split; [apply saveState_state |].
  split; [exact Hload |]. split; [exact Hload |].
  unfold reset. rewrite bind_run. cbn [fst snd].
  rewrite saveState_state. cbn. exact Hload.
Qed.

(** X6.  [markTaskProcessed] makes its hash processed and changes the
    answer of [isTaskProcessed] for no other hash; the count grows by one
    for a new hash and stays for a known one; the state file is not
    written. *)
Theorem markTaskProcessed_isTaskProcessed (h : string) (w : World) :
  let w' := snd (markTaskProcessed h w) in
  isTaskProcessed (w_state w') h = true /\
  (forall h', h' <> h ->
     isTaskProcessed (w_state w') h' = isTaskProcessed (w_state w) h') /\
  getProcessedTaskCount (w_state w') =
    (if isTaskProcessed (w_state w) h
     then getProcessedTaskCount (w_state w)
     else S (getProcessedTaskCount (w_state w))) /\
  (NoDup (processedTasks (w_state w)) -> NoDup (processedTasks (w_state w'))) /\
  w_ledger w' = w_ledger w.
Proof.
  intros w'. subst w'. rewrite markTaskProcessed_run. cbn [snd w_state w_ledger].
  unfold isTaskProcessed, getProcessedTaskCount. cbn [processedTasks].
  split; [apply bool_decide_eq_true_2, elem_of_set_add; now right |].
  split.
  { intros h' Hne. apply bool_decide_ext. rewrite elem_of_set_add.
    split; [intros [? | ?]; [assumption | contradiction] | now left]. }
  split; [| split; [| reflexivity]].
  - unfold set_add. destruct (bool_decide (h ∈ processedTasks (w_state w)));
      [reflexivity |]. rewrite length_app. simpl. lia.
  - intros Hnd. unfold set_add.
    destruct (bool_decide (h ∈ processedTasks (w_state w))) eqn:Hin; [exact Hnd |].
    apply bool_decide_eq_false_1 in Hin.
    apply NoDup_app. split; [exact Hnd |]. split.
    + intros x Hx Hx'. apply list_elem_of_singleton in Hx'. now subst x.
    + apply NoDup_singleton.
Qed.

(** X7.  After [updateFileModifiedTime] for a file that can be stat'ed, the
    file is no longer modified, unless its modification time is 0 (a
    watermark of 0 reads as no watermark); a file that cannot be stat'ed
    keeps counting as modified and nothing is recorded for it.  The answer
    for every other path stays, and the state file is not written. *)
Theorem updateFileModifiedTime_isFileModified (p : string) (w : World) :
  let w' := snd (updateFileModifiedTime p w) in
  (forall stats, statSync p = Some stats ->
     isFileModified (w_state w') p = (mtimeMs stats =? 0)%Z) /\
  (statSync p = None -> w' = w /\ isFileModified (w_state w') p = true) /\
  (forall q, q <> p ->
     isFileModified (w_state w') q = isFileModified (w_state w) q) /\
  w_ledger w' = w_ledger w.
Proof.
  intros w'. subst w'.
  destruct (statSync p) as [stats |] eqn:Hstat.
  - rewrite (updateFileModifiedTime_run p stats w Hstat). cbn [snd w_state w_ledger].
    split; [| split; [discriminate | split; [| reflexivity]]].
    + intros stats' [= <-]. unfold isFileModified. rewrite Hstat.
      cbn [lastModifiedTimes]. rewrite lookup_insert_eq.
      destruct (mtimeMs stats =? 0)%Z; [reflexivity | apply Z.ltb_irrefl].
    + intros q Hne. unfold isFileModified. cbn [lastModifiedTimes].
      rewrite lookup_insert_ne by congruence. reflexivity.
  - unfold updateFileModifiedTime. rewrite Hstat. cbn.
    split; [discriminate |].
    split; [intros _; split; [reflexivity |]; unfold isFileModified; now rewrite Hstat |].
    split; reflexivity.
Qed.

End StateRoundTrips.

Lemma save_loadState_round_trip_witness :
  let rt := Sample.runtime_knowing (serialisableState Sample.state) in
  let env := Sample.always (Rejected "offline") in
  let w := Sample.world Sample.state in
  fst (save w) = Ok tt /\
  w_state (snd (save w)) = Sample.state /\
  loadState (w_ledger (snd (save w))) = Sample.state /\
  w_state (new_StateManager (w_ledger (snd (save w))) []) = Sample.state /\
  w_state (snd (reset (snd (save w)))) = Sample.state.
Proof.
  intros rt env w.
  refine (save_loadState_round_trip (rt := rt) (env := env) w _ _ _ _).
  - reflexivity.
  - vm_compute. reflexivity.
  - apply NoDup_cons. split.
    + intros Hin. apply elem_of_cons in Hin as [Hin | Hin]; [discriminate Hin |].
      inversion Hin.
    + apply NoDup_cons. split; [intros Hin; inversion Hin | apply NoDup_nil; exact I].
  - discriminate.
Defined.

(** ** The chunker: sizes and empty chunks *)

Section ChunkerExtras.

Variable self : FileIngester.

Lemma well_cut_step (path : string) (st : ChunkLoop) (line : string) :
  has_newline line = false ->
  well_cut self st -> well_cut self (chunk_step self path st line).
Proof.
  intros Hline [Hclosed Hcur]. unfold well_cut.
  destruct (chunk_step_cases self path st line)
    as [(Htruthy & _ & Hcontents & _ & Hnew & _)
       | [(Htruthy & Hfits & Hchunks & Hnew & _) | (Hempty & Hchunks & Hnew & _)]].
  - rewrite Hcontents, Hnew. split; [| now right].
    apply Forall_app. split; [exact Hclosed |].
    constructor; [| constructor]. split; [now apply truthy_true | exact Hcur].
  - unfold contents in *. rewrite Hchunks, Hnew. split; [exact Hclosed | now left].
  - unfold contents in *. rewrite Hchunks, Hnew. split; [exact Hclosed | now right].
Qed.

Lemma well_cut_loop (path : string) (lines : list string) (st : ChunkLoop) :
  Forall (fun l => has_newline l = false) lines ->
  well_cut self st -> well_cut self (chunk_loop self path lines st).
Proof.
  revert st. induction lines as [| l lines IH]; intros st Hlines Hst; [exact Hst |].
  inversion Hlines as [| ? ? Hl Hrest]; subst. simpl.
  apply IH; [exact Hrest |]. now apply well_cut_step.
Qed.

Lemma well_cut_flush (path : string) (st : ChunkLoop) :
  well_cut self st ->
  Forall (fun s => s <> EmptyString /\ within_limit self s)
    (map chunk_content (chunk_flush path st)).
Proof.
  intros [Hclosed Hcur]. unfold chunk_flush.
  destruct (truthy (lp_currentChunk st)) eqn:Htruthy; [| exact Hclosed].
  rewrite map_app. apply Forall_app. split; [exact Hclosed |].
  constructor; [| constructor]. split; [now apply truthy_true | exact Hcur].
Qed.

Lemma chunkContent_large_cut (fileContent : FileContent) :
  maxChunkSize self < String.length (fc_content fileContent) ->
  Forall (fun s => s <> EmptyString /\ within_limit self s)
    (map chunk_content (chunkContent self fileContent)).
Proof.
  intros Hlarge. rewrite (chunkContent_large_eq self fileContent Hlarge). cbv zeta.
  rewrite chunk_content_set_totalChunks.
  apply well_cut_flush, well_cut_loop; [apply split_lines_no_newline |].
  split; [constructor | now right].
Qed.

(** X8.  Every chunk of [chunkContent] has at most [maxChunkSize]
    characters, unless it is a single line (it holds no newline): a chunk
    goes over the limit only when one line alone does. *)
Theorem chunkContent_size_limit (fileContent : FileContent) :
  Forall (fun c => String.length (chunk_content c) <= maxChunkSize self \/
                   has_newline (chunk_content c) = false)
    (chunkContent self fileContent).
Proof.
  destruct (Nat.leb_spec (String.length (fc_content fileContent)) (maxChunkSize self))
    as [Hsmall | Hlarge].
  - unfold chunkContent. apply Nat.leb_le in Hsmall. rewrite Hsmall.
    constructor; [| constructor]. left. simpl. now apply Nat.leb_le.
  - apply List.Forall_map with (f := chunk_content)
      (P := fun s => String.length s <= maxChunkSize self \/ has_newline s = false).
    eapply List.Forall_impl; [| apply (chunkContent_large_cut fileContent Hlarge)].
    intros s [_ Hs]. exact Hs.
Qed.

Lemma chunk_loop_blank (path : string) (lines : list string) :
  Forall (fun l => l = EmptyString) lines ->
  chunk_loop self path lines init_loop = init_loop.
Proof.
  induction lines as [| l lines IH]; intros Hlines; [reflexivity |].
  inversion Hlines as [| ? ? Hl Hrest]; subst. simpl.
  change (chunk_step self path init_loop EmptyString) with init_loop.
  now apply IH.
Qed.

(** X9.  For a document longer than [maxChunkSize], no chunk is empty and
    every chunk carries the path of the document; there is no chunk at all
    exactly when every line of the document is empty. *)
Theorem chunkContent_no_empty_chunk (fileContent : FileContent) :
  maxChunkSize self < String.length (fc_content fileContent) ->
  let chunks := chunkContent self fileContent in
  Forall (fun c => chunk_content c <> EmptyString /\
                   chunk_filePath c = fc_filePath fileContent) chunks /\
  (chunks = [] <->
   Forall (fun l => l = EmptyString) (split_lines (fc_content fileContent))).
Proof.
  intros Hlarge chunks. split.
  - pose proof (chunkContent_large_cut fileContent Hlarge) as Hcut.
    apply List.Forall_map in Hcut.
    pose proof (chunkContent_filePath self fileContent) as Hpath.
    fold chunks in Hcut, Hpath.
    apply List.Forall_forall. intros c Hc.
    rewrite List.Forall_forall in Hcut, Hpath.
    split; [apply (Hcut c Hc) | apply (Hpath c Hc)].
  - subst chunks. rewrite (chunkContent_large_eq self fileContent Hlarge). cbv zeta.
    set (path := fc_filePath fileContent).
    set (lines := split_lines (fc_content fileContent)).
    split.
    + intros Hnone. apply map_eq_nil in Hnone.
      pose proof (chunk_flush_lines path (chunk_loop self path lines init_loop)) as Hlines.
      rewrite Hnone in Hlines.
      rewrite held_lines_loop in Hlines by apply split_lines_no_newline.
      change (held_lines init_loop ++ lines) with (EmptyString :: lines) in Hlines.
      change (chunk_lines []) with (@nil string) in Hlines.
      simpl in Hlines.
      clear -Hlines. induction lines as [| l ls IH]; [constructor |].
      simpl in Hlines. destruct l; [| discriminate Hlines].
      constructor; [reflexivity | now apply IH].
    + intros Hblank. rewrite (chunk_loop_blank path lines Hblank). reflexivity.
Qed.

End ChunkerExtras.

Lemma chunkContent_no_empty_chunk_witness :
  let self := {| maxChunkSize := 5 |} in
  let doc := {| fc_filePath := "/inbox/a.md";
                fc_content := "ab" +:+ nl +:+ "cd" +:+ nl +:+ nl +:+ "ef";
                fc_modifiedTime := 0%Z; fc_isModified := true |} in
  let chunks := chunkContent self doc in
  Forall (fun c => chunk_content c <> EmptyString /\
                   chunk_filePath c = "/inbox/a.md") chunks /\
  (chunks = [] <-> Forall (fun l => l = EmptyString) (split_lines (fc_content doc))).
Proof.
  intros self doc.
  refine (chunkContent_no_empty_chunk self doc _).
  vm_compute. repeat constructor.
Defined.

(** ** Ingestion: which files are read, and reading twice *)

Section IngestExtras.

Context {rt : Runtime} {env : Env}.

(** [scanDirectory] does not depend on the world, and lists the markdown
    files of the directory. *)
Lemma scanDirectory_files (dirPath : string) (w : World) (filePaths : list string) :
  fst (scanDirectory dirPath w) = Ok filePaths ->
  exists files,
    readdirSync (expandPath dirPath) = Some files /\
    filePaths = map (path_join (expandPath dirPath)) (List.filter (endsWith ".md") files).
Proof.
  unfold scanDirectory. cbv zeta.
  destruct (negb (existsSync (expandPath dirPath))); [discriminate |].
  destruct (statSync (expandPath dirPath)) as [stats |]; [| discriminate].
  destruct (negb (isDirectory stats)); [discriminate |].
  destruct (readdirSync (expandPath dirPath)) as [files |]; [| discriminate].
  intros [= <-]. now exists files.
Qed.

Lemma scanDirectory_fst (dirPath : string) (w w' : World) :
  fst (scanDirectory dirPath w) = fst (scanDirectory dirPath w').
Proof.
  unfold scanDirectory. cbv zeta.
  destruct (negb (existsSync (expandPath dirPath))); [reflexivity |].
  destruct (statSync (expandPath dirPath)) as [stats |]; [| reflexivity].
  destruct (negb (isDirectory stats)); [reflexivity |].
  destruct (readdirSync (expandPath dirPath)); reflexivity.
Qed.

(** [ingestFiles], step by step. *)
Lemma ingestFiles_eq (self : FileIngester) (dirPath : string) (w : World) :
  ingestFiles self dirPath w =
    match fst (scanDirectory dirPath w) with
    | Throw e => (Throw e, w)
    | Ok filePaths =>
        let fileContents := omap (readFile (w_state w)) filePaths in
        if (length filePaths =? 0) then (Ok [], w)
        else if (length fileContents =? 0) then (Ok [], w)
        else ingest_loop self fileContents [] w
    end.
Proof.
  unfold ingestFiles. rewrite bind_run.
  pose proof (scanDirectory_world dirPath w) as Hscan.
  destruct (scanDirectory dirPath w) as [[filePaths | e] w0]; simpl in Hscan; subst w0;
    [| reflexivity].
  cbn [fst]. cbv zeta.
  destruct (length filePaths =? 0); [reflexivity |].
  rewrite bind_run. unfold readFiles at 1. rewrite bind_run. cbn.
  destruct (length (omap (readFile (w_state w)) filePaths) =? 0); reflexivity.
Qed.

Lemma length_zero_nil {A : Type} (l : list A) : (length l =? 0) = true -> l = [].
Proof. destruct l; [reflexivity | discriminate]. Qed.

(** The chunks that [ingestFiles] returns are those of the files it
    read. *)
Lemma ingestFiles_chunks (self : FileIngester) (dirPath : string) (w : World)
    (chunks : list FileChunk) :
  fst (ingestFiles self dirPath w) = Ok chunks ->
  exists filePaths,
    fst (scanDirectory dirPath w) = Ok filePaths /\
    chunks = concat (map (chunkContent self) (omap (readFile (w_state w)) filePaths)).
Proof.
  rewrite ingestFiles_eq.
  destruct (fst (scanDirectory dirPath w)) as [filePaths | e]; [| discriminate].
  cbv zeta. intros Hfst. exists filePaths. split; [reflexivity |].
  destruct (length filePaths =? 0) eqn:Hnone.
  { apply length_zero_nil in Hnone. subst filePaths. now injection Hfst as <-. }
  destruct (length (omap (readFile (w_state w)) filePaths) =? 0) eqn:Hunmodified.
  { apply length_zero_nil in Hunmodified. rewrite Hunmodified. now injection Hfst as <-. }
  destruct (ingest_loop_run self (omap (readFile (w_state w)) filePaths) [] w)
    as (w' & delta & Hrun & _).
  rewrite Hrun in Hfst. now injection Hfst as <-.
Qed.

Lemma readFile_Some (s : AppState) (filePath : string) (fc : FileContent) :
  readFile s filePath = Some fc <->
  exists stats content,
    statSync filePath = Some stats /\
    isFileModified s filePath = true /\
    readFileSync filePath = Some content /\
    fc = {| fc_filePath := filePath; fc_content := content;
            fc_modifiedTime := mtimeMs stats; fc_isModified := true |}.
Proof.
  unfold readFile. split.
  - destruct (statSync filePath) as [stats |]; [| discriminate].
    destruct (isFileModified s filePath); [| discriminate]. simpl.
    destruct (readFileSync filePath) as [content |]; [| discriminate].
    intros [= <-]. now exists stats, content.
  - intros (stats & content & -> & -> & -> & ->). reflexivity.
Qed.

(** X10.  When [ingestFiles] returns, its chunks are exactly the chunks of
    the files that are listed in the directory with a name ending in
    [.md], can be stat'ed and read, and count as modified for the state
    manager: chunks of no other file are returned, and no chunk of such a
    file is left out. *)
Theorem ingestFiles_sources (self : FileIngester) (dirPath : string) (w : World)
    (chunks : list FileChunk) :
  fst (ingestFiles self dirPath w) = Ok chunks ->
  exists files,
    readdirSync (expandPath dirPath) = Some files /\
    forall c,
      c ∈ chunks <->
      exists f stats content,
        f ∈ files /\ endsWith ".md" f = true /\
        let filePath := path_join (expandPath dirPath) f in
        statSync filePath = Some stats /\
        isFileModified (w_state w) filePath = true /\
        readFileSync filePath = Some content /\
        c ∈ chunkContent self
              {| fc_filePath := filePath; fc_content := content;
                 fc_modifiedTime := mtimeMs stats; fc_isModified := true |}.
Proof.
  intros Hfst.
  destruct (ingestFiles_chunks self dirPath w chunks Hfst) as (filePaths & Hscan & ->).
  destruct (scanDirectory_files dirPath w filePaths Hscan) as (files & Hdir & ->).
  exists files. split; [exact Hdir |]. intros c. cbv zeta.
  rewrite list_elem_of_In, in_concat. split.
  - intros (cs & Hcs & Hc).
    apply in_map_iff in Hcs as (fc & <- & Hfc).
    apply list_elem_of_In, list_elem_of_omap in Hfc as (filePath & Hpath & Hread).
    apply list_elem_of_In, in_map_iff in Hpath as (f & <- & Hf).
    apply filter_In in Hf as [Hf Hmd].
    apply readFile_Some in Hread as (stats & content & Hstat & Hmod & Hcontent & ->).
    exists f, stats, content.
    repeat (split; [first [now apply list_elem_of_In | assumption] |]).
    now apply list_elem_of_In.
  - intros (f & stats & content & Hf & Hmd & Hstat & Hmod & Hcontent & Hc).
    eexists. split; [| apply list_elem_of_In; exact Hc].
    apply in_map_iff. eexists. split; [reflexivity |].
    apply list_elem_of_In, list_elem_of_omap.
    exists (path_join (expandPath dirPath) f). split.
    + apply list_elem_of_In, in_map_iff. exists f. split; [reflexivity |].
      apply filter_In. split; [now apply list_elem_of_In | exact Hmd].
    + apply readFile_Some. now exists stats, content.
Qed.

(** The watermarks after the loop of [ingestFiles]. *)
Lemma ingest_loop_watermarks (self : FileIngester) (fileContents : list FileContent)
    (allChunks : list FileChunk) (w : World) (p : string) :
  lastModifiedTimes (w_state (snd (ingest_loop self fileContents allChunks w))) !! p =
    match statSync p with
    | Some stats =>
        if bool_decide (p ∈ map fc_filePath fileContents)
        then Some (mtimeMs stats)
        else lastModifiedTimes (w_state w) !! p
    | None => lastModifiedTimes (w_state w) !! p
    end.
Proof.
  revert allChunks w. induction fileContents as [| fc rest IH]; intros allChunks w.
  - simpl. now destruct (statSync p).
  - simpl ingest_loop. rewrite bind_run.
    destruct (statSync (fc_filePath fc)) as [stats0 |] eqn:Hstat.
    + rewrite (updateFileModifiedTime_run _ _ _ Hstat). rewrite IH.
      cbn [w_state lastModifiedTimes map].
      destruct (statSync p) as [stats |] eqn:Hp.
      * destruct (decide (fc_filePath fc = p)) as [Heq | Hne].
        -- rewrite (bool_decide_eq_true_2 (p ∈ fc_filePath fc :: map fc_filePath rest))
             by (rewrite Heq; left).
           rewrite Heq, lookup_insert_eq. rewrite Heq, Hp in Hstat. injection Hstat as <-.
           now destruct (bool_decide _).
        -- rewrite lookup_insert_ne by exact Hne.
           apply (f_equal (fun b : bool =>
                    if b then Some (mtimeMs stats) else lastModifiedTimes (w_state w) !! p)).
           apply bool_decide_ext. rewrite elem_of_cons.
           split; [now right | intros [-> | H]; [contradiction | exact H]].
      * destruct (decide (fc_filePath fc = p)) as [Heq | Hne]; [congruence |].
        now rewrite lookup_insert_ne.
    + unfold updateFileModifiedTime. rewrite Hstat. unfold ret. rewrite IH.
      cbn [map].
      destruct (statSync p) as [stats |] eqn:Hp; [| reflexivity].
      apply (f_equal (fun b : bool =>
               if b then Some (mtimeMs stats) else lastModifiedTimes (w_state w) !! p)).
      apply bool_decide_ext. rewrite elem_of_cons.
      split; [now right | intros [-> | H]; [congruence | exact H]].
Qed.

(** After the loop, no file of the directory can be read as modified. *)
Lemma ingest_loop_settles (self : FileIngester) (filePaths : list string) (w : World)
    (p : string) :
  (forall q stats, statSync q = Some stats -> mtimeMs stats <> 0%Z) ->
  p ∈ filePaths ->
  readFile
    (w_state (snd (ingest_loop self (omap (readFile (w_state w)) filePaths) [] w))) p = None.
Proof.
  intros Hnz Hp.
  set (w' := snd (ingest_loop self (omap (readFile (w_state w)) filePaths) [] w)).
  unfold readFile. destruct (statSync p) as [stats |] eqn:Hstat; [| reflexivity].
  assert (Hmod : isFileModified (w_state w') p = true -> readFileSync p = None).
  { unfold isFileModified. rewrite Hstat. subst w'. rewrite ingest_loop_watermarks, Hstat.
    destruct (bool_decide (p ∈ map fc_filePath (omap (readFile (w_state w)) filePaths)))
      eqn:Hread.
    - destruct (Z.eqb_spec (mtimeMs stats) 0) as [Hz | _];
        [now apply Hnz in Hstat |].
      rewrite Z.ltb_irrefl. discriminate.
    - intros Hmod. apply bool_decide_eq_false_1 in Hread.
      destruct (readFile (w_state w) p) as [fc |] eqn:Hfc.
      + exfalso. apply Hread. apply list_elem_of_In, in_map_iff. exists fc. split.
        * now apply readFile_modified in Hfc as [Hpath _].
        * apply list_elem_of_In, list_elem_of_omap. now exists p.
      + unfold readFile in Hfc. rewrite Hstat in Hfc.
        unfold isFileModified in Hfc at 1. rewrite Hstat in Hfc.
        rewrite Hmod in Hfc. simpl in Hfc.
        now destruct (readFileSync p). }
  destruct (isFileModified (w_state w') p); [| reflexivity]. simpl.
  now rewrite Hmod.
Qed.

Lemma omap_None {A B : Type} (f : A -> option B) (l : list A) :
  (forall x, x ∈ l -> f x = None) -> omap f l = [].
Proof.
  induction l as [| x l IH]; intros H; [reflexivity |].
  cbn. rewrite (H x) by left. apply IH. intros y Hy. apply H. now right.
Qed.

(** X11.  Ingesting twice: when no file has the modification time 0 and
    nothing changes on disk, a second [ingestFiles] right after a first one
    that returned finds nothing to do: it returns no chunk and leaves the
    state manager as it is. *)
Theorem ingestFiles_twice (self : FileIngester) (dirPath : string) (w : World)
    (chunks : list FileChunk) :
  (forall p stats, statSync p = Some stats -> mtimeMs stats <> 0%Z) ->
  fst (ingestFiles self dirPath w) = Ok chunks ->
  let w' := snd (ingestFiles self dirPath w) in
  ingestFiles self dirPath w' = (Ok [], w').
Proof.
  intros Hnz Hfst w'.
  assert (Hw' : forall filePaths,
            fst (scanDirectory dirPath w) = Ok filePaths ->
            omap (readFile (w_state w')) filePaths = []).
  { intros filePaths Hscan. subst w'. rewrite ingestFiles_eq, Hscan. cbv zeta.
    destruct (length filePaths =? 0) eqn:Hnone.
    { apply length_zero_nil in Hnone. now subst filePaths. }
    destruct (length (omap (readFile (w_state w)) filePaths) =? 0) eqn:Hunmodified.
    { now apply length_zero_nil in Hunmodified. }
    apply omap_None. intros p Hp. now apply ingest_loop_settles. }
  rewrite (ingestFiles_eq self dirPath w').
  rewrite (scanDirectory_fst dirPath w' w).
  rewrite ingestFiles_eq in Hfst.
  destruct (fst (scanDirectory dirPath w)) as [filePaths | e]; [| discriminate].
  cbv zeta. rewrite (Hw' filePaths eq_refl).
  now destruct (length filePaths =? 0).
Qed.

End IngestExtras.

Lemma ingestFiles_sources_witness :
  let rt := Mock.runtime in
  let env := Sample.always (Rejected "offline") in
  let chunk := {| chunk_filePath := "/inbox/a.md"; chunk_content := "- [ ] Buy milk";
                  chunkIndex := 0; totalChunks := 1 |} in
  fst (ingestFiles fileIngester "/inbox" Mock.empty_world) = Ok [chunk] /\
  exists files,
    readdirSync (expandPath "/inbox") = Some files /\
    forall c,
      c ∈ [chunk] <->
      exists f stats content,
        f ∈ files /\ endsWith ".md" f = true /\
        let filePath := path_join (expandPath "/inbox") f in
        statSync filePath = Some stats /\
        isFileModified (w_state Mock.empty_world) filePath = true /\
        readFileSync filePath = Some content /\
        c ∈ chunkContent fileIngester
              {| fc_filePath := filePath; fc_content := content;
                 fc_modifiedTime := mtimeMs stats; fc_isModified := true |}.
Proof.
  intros rt env chunk.
  assert (Hrun : fst (ingestFiles fileIngester "/inbox" Mock.empty_world)
                 = Ok [chunk]) by (vm_compute; reflexivity).
  split; [exact Hrun |].
  exact (ingestFiles_sources (rt := rt) (env := env) fileIngester "/inbox"
           Mock.empty_world [chunk] Hrun).
Defined.

Lemma ingestFiles_twice_witness :
  let rt := Mock.runtime in
  let env := Sample.always (Rejected "offline") in
  let w' := snd (ingestFiles fileIngester "/inbox" Mock.empty_world) in
  ingestFiles fileIngester "/inbox" w' = (Ok [], w').
Proof.
  intros rt env.
  refine (ingestFiles_twice (rt := rt) (env := env) fileIngester "/inbox"
            Mock.empty_world
            [{| chunk_filePath := "/inbox/a.md"; chunk_content := "- [ ] Buy milk";
                chunkIndex := 0; totalChunks := 1 |}] _ _).
  - intros p stats. simpl.
    destruct (String.eqb p "/inbox"); [intros [= <-]; discriminate |].
    destruct (String.eqb p "/inbox/a.md"); [intros [= <-]; discriminate | discriminate].
  - vm_compute. reflexivity.
Defined.

(** ** The Notion client: worst cases and results *)

Section NotionExtras.

Context {rt : Runtime} {env : Env}.

Lemma retry_schedule_bounds (req : Request) (n : nat) :
  forall (delta : list Event) (attempt : nat),
    length delta <= n ->
    retry_schedule req attempt delta ->
    1 <= requests delta /\ requests delta <= S (4 - attempt) /\
    (0 <= total_sleep delta)%Z /\
    (total_sleep delta <= (16 - 2 ^ Z.of_nat (Nat.min attempt 4)) * 1000)%Z.
Proof.
  induction n as [| n IH]; intros delta attempt Hlen Hs.
  - destruct delta; [contradiction | simpl in Hlen; lia].
  - destruct delta as [| e1 delta]; [contradiction |].
    destruct e1 as [r out | | | | |]; try contradiction.
    destruct delta as [| e2 rest].
    + unfold requests. simpl. repeat split; try lia.
      assert (H : (2 ^ Z.of_nat (Nat.min attempt 4) <= 16)%Z).
      { change 16%Z with (2 ^ 4)%Z. apply Z.pow_le_mono_r; lia. }
      lia.
    + destruct out as [reason | response]; [contradiction |].
      destruct e2 as [| ms | | | |]; try contradiction.
      simpl in Hs. destruct Hs as (_ & Hretry & Hrest).
      assert (Hlen' : length rest <= n) by (simpl in Hlen; lia).
      destruct (IH rest (S attempt) Hlen' Hrest) as (H1 & H2 & H3 & H4).
      assert (Hms : attempt <= 3 /\ (0 <= ms <= 2 ^ Z.of_nat attempt * 1000)%Z).
      { destruct Hretry as [(_ & _ & Hle & ->) | (_ & _ & Hle & ->)].
        - split; [exact Hle |]. split; [| lia].
          apply Z.mul_nonneg_nonneg; [apply Z.pow_nonneg |]; lia.
        - split; [lia |].
          assert (Hcases : attempt = 0 \/ attempt = 1 \/ attempt = 2) by lia.
          destruct Hcases as [-> | [-> | ->]]; simpl; lia. }
      destruct Hms as [Hle Hms].
      change (requests (EvFetch r (Resolved response) :: EvSleep ms :: rest))
        with (S (requests rest)).
      change (total_sleep (EvFetch r (Resolved response) :: EvSleep ms :: rest))
        with (ms + total_sleep rest)%Z.
      assert (Hcases : attempt = 0 \/ attempt = 1 \/ attempt = 2 \/ attempt = 3) by lia.
      destruct Hcases as [-> | [-> | [-> | ->]]]; simpl in *; lia.
Qed.

(** X12.  However the server answers, one call of [callNotion] sends
    between one and four requests, all of them the same request, pauses for
    at most 14 seconds in total, and touches neither the state manager nor
    the state file. *)
Theorem callNotion_worst_case (token endpoint method : string) (body : option Json)
    (w : World) :
  exists delta,
    snd (callNotion token endpoint method body 1 w) = after w delta /\
    only_requests (notion_request token endpoint method body) delta /\
    1 <= requests delta <= 4 /\
    (0 <= total_sleep delta <= 14000)%Z.
Proof.
  destruct (callNotion_run token endpoint method body 3 1 w eq_refl)
    as (delta & Hrun & Hschedule & _).
  exists delta. split; [exact Hrun |].
  split; [now apply (retry_schedule_only_requests _ _ 1) |].
  destruct (retry_schedule_bounds _ (length delta) delta 1 (le_n _) Hschedule)
    as (H1 & H2 & H3 & H4).
  simpl in H2, H4. lia.
Qed.


End NotionExtras.


(** The message of the error may be any value: it is printed as the
    template literal prints it. *)
Example callNotion_numeric_message :
  let body := JObj [ ("message", JNum 42) ] in
  let rt := Sample.runtime_knowing body in
  let response := {| status := 400; resp_text := Mock.stringify body; resp_json := None |} in
  let env := Sample.always (Resolved response) in
  fst (callNotion "test-notion-token" "/pages" "POST" None 1 Mock.empty_world) =
    Throw "Notion API error: 42".
Proof. vm_compute. reflexivity. Qed.

(** ** The Notion client: results of [createTask] and [syncTasks] *)

Section NotionResults.

Context {rt : Runtime} {env : Env}.

Lemma retry_schedule_network (req : Request) (attempt : nat) (delta : list Event) :
  retry_schedule req attempt delta -> Forall network_event delta.
Proof.
  intros H. eapply only_requests_network, retry_schedule_only_requests, H.
Qed.

(** [createTask] returns a result, sends requests and does nothing else;
    the result says whether it failed. *)
Lemma createTask_run (token databaseId : string) (t : TaskWithMeta) (w : World) :
  exists result delta,
    createTask token databaseId t w = (Ok result, after w delta) /\
    Forall network_event delta /\
    (success result = true -> error result = None) /\
    (success result = false ->
     pageId result = None /\ pageUrl result = None /\ exists e, error result = Some e).
Proof.
  rewrite createTask_eq.
  destruct (taskExists_run token databaseId (hash t) w)
    as (b & d1 & Hexists & Hschedule & _).
  rewrite Hexists. apply retry_schedule_network in Hschedule.
  destruct b.
  { exists existing, d1. repeat split; try assumption; discriminate. }
  destruct (callNotion_run token "/pages" "POST" (Some (pageData databaseId t)) 3 1
              (after w d1) eq_refl) as (d2 & Hcreate & Hschedule2 & _).
  apply retry_schedule_network in Hschedule2.
  assert (Hall : Forall network_event (d1 ++ d2)) by (apply Forall_app; now split).
  rewrite after_after in Hcreate.
  destruct (callNotion token "/pages" "POST" (Some (pageData databaseId t)) 1 (after w d1))
    as [[response | e] w2]; simpl in Hcreate; subst w2.
  - destruct response; eexists; exists (d1 ++ d2);
      (split; [reflexivity |]); (split; [exact Hall |]); simpl;
      (split; [try reflexivity; discriminate |]); intros; try discriminate; eauto.
  - eexists; exists (d1 ++ d2). split; [reflexivity |]. split; [exact Hall |]. simpl.
    split; [discriminate |]. eauto.
Qed.

(** X14.  [createTask] never throws: whatever the server does, it returns a
    result, after requests and pauses only (the state manager and the state
    file are left alone).  A failure is reported in the result: [success]
    is false exactly when [error] is set, and then there is no page id and
    no page url. *)
Theorem createTask_reports_in_band (token databaseId : string) (t : TaskWithMeta)
    (w : World) :
  exists result delta,
    createTask token databaseId t w = (Ok result, after w delta) /\
    Forall network_event delta /\
    (success result = true <-> error result = None) /\
    (success result = false ->
     pageId result = None /\ pageUrl result = None /\ exists e, error result = Some e).
Proof.
  destruct (createTask_run token databaseId t w) as (result & delta & Hrun & Hnet & Hok & Hko).
  exists result, delta. split; [exact Hrun |]. split; [exact Hnet |].
  split; [| exact Hko]. split; [exact Hok |].
  intros Hnone. destruct (success result); [reflexivity |].
  destruct (Hko eq_refl) as (_ & _ & e & He). congruence.
Qed.

(** X15.  [syncTasks] never throws and returns one result for each task, in
    the order of the tasks, in whatever order the calls of a batch go on
    once they have been started together.  The result at a position is the
    one that the call of [createTask] for the task at that position ends
    with, for the outcomes that its requests had.  The events of the run are
    those of the calls, batch after batch of [maxConcurrency] calls: those
    of the calls of a batch interleaved, each call's events in their order,
    and a pause of one second between two batches; every outcome is the one
    that the service gave at that point.  So [syncTasks] sends requests and
    pauses and does nothing else, it sends no request but those of the
    calls, and for no task it does nothing at all. *)
Theorem syncTasks_results_in_order (token databaseId : string)
    (tasks : list TaskWithMeta) (maxConcurrency : positive) (w : World) :
  exists results owns delta,
    syncTasks token databaseId tasks maxConcurrency w = (Ok results, after w delta) /\
    Forall3 (fun t own r =>
               yields (createTask_async token databaseId t) own r /\ sublist own delta)
      tasks owns results /\
    batched (Pos.to_nat maxConcurrency) 1000 owns delta /\
    served (w_trace w) delta /\
    Forall network_event delta /\
    requests delta = requests (concat owns) /\
    (tasks = [] -> delta = []).
Proof.
  destruct (syncTasks_loop_run token databaseId maxConcurrency tasks [] w)
    as (results & owns & delta & Hrun & Hall & Hbatched & Hserved).
  exists results, owns, delta. unfold syncTasks. rewrite Hrun.
  split; [reflexivity |]. split; [| split; [exact Hbatched |]].
  - assert (Hsub : forall i own, owns !! i = Some own -> sublist own delta).
    { intros i own. now apply (batched_sublist _ _ _ _ _ _ Hbatched). }
    clear Hrun Hbatched Hserved. revert Hsub.
    induction Hall as [|t own r tasks owns results Hy _ IH]; intros Hsub;
      [constructor |].
    constructor.
    + split; [exact Hy | apply (Hsub 0 own eq_refl)].
    + apply IH. intros i o Hi. apply (Hsub (S i) o Hi).
  - split; [exact Hserved |]. split; [| split].
    + apply (batched_Forall network_event _ _ _ _ I Hbatched).
      clear Hrun Hbatched Hserved.
      induction Hall as [|t own r tasks owns results Hy _ IH]; constructor;
        [eapply yields_network, Hy | exact IH].
    + eapply batched_requests, Hbatched.
    + intros ->. inversion Hall; subst. eapply batched_nil, Hbatched.
Qed.

(** X16.  When the database that the server returns lacks one of the six
    required properties, [healthCheck] of the client reports unhealthy after
    this one request: the query that would follow is not sent. *)
Theorem notion_healthCheck_missing_property (token databaseId : string) (w : World)
    (response : Response) (database : Json) (p : string) :
  let req := notion_request token ("/databases/" +:+ databaseId) "GET" None in
  server (w_trace w) req = Resolved response ->
  ok response = true ->
  resp_json response = Some database ->
  p ∈ requiredProperties ->
  (forall fields, json_get "properties" database = Some (JObj fields) ->
                  p ∉ map fst fields) ->
  exists message,
    notion_healthCheck token databaseId w =
      (Ok (false, message), after w [EvFetch req (Resolved response)]).
Proof.
  intros req Hserver Hok Hjson Hrequired Hmissing.
  unfold notion_healthCheck, try_catch. rewrite bind_run, callNotion_eq. cbv zeta.
  fold req. rewrite Hserver, Hok, Hjson.
  assert (Hfilter : forall existingProperties : list string,
            p ∉ existingProperties ->
            negb (length (List.filter
                            (fun q => negb (bool_decide (q ∈ existingProperties)))
                            requiredProperties) =? 0) = true).
  { intros existingProperties Hp.
    assert (Hin : In p (List.filter
                          (fun q => negb (bool_decide (q ∈ existingProperties)))
                          requiredProperties)).
    { apply filter_In. split; [now apply list_elem_of_In |].
      now rewrite bool_decide_eq_false_2. }
    destruct (List.filter _ requiredProperties); [contradiction | reflexivity]. }
  destruct database as [| b | n | s | items | fields]; cbv zeta;
    try (eexists; reflexivity);
    try (rewrite Hfilter by apply not_elem_of_nil; eexists; reflexivity).
  destruct (json_get "properties" (JObj fields)) as [[| | | | | properties] |] eqn:Hget;
    try (rewrite Hfilter by apply not_elem_of_nil; eexists; reflexivity).
  rewrite Hfilter by now apply Hmissing. eexists. reflexivity.
Qed.

End NotionResults.

Lemma notion_healthCheck_missing_property_witness :
  let rt := Mock.runtime in
  let database := JObj [ ("properties", JObj [ ("Name", JObj []); ("Tags", JObj []) ]) ] in
  let response := {| status := 200; resp_text := ""; resp_json := Some database |} in
  let env := Sample.always (Resolved response) in
  let req := notion_request "test-notion-token" "/databases/test-database-id" "GET" None in
  exists message,
    notion_healthCheck "test-notion-token" "test-database-id" Mock.empty_world =
      (Ok (false, message), after Mock.empty_world [EvFetch req (Resolved response)]).
Proof.
  intros rt database response env req.
  refine (notion_healthCheck_missing_property (rt := rt) (env := env)
            "test-notion-token" "test-database-id" Mock.empty_world response database
            "Status" eq_refl eq_refl eq_refl _ _).
  - unfold requiredProperties. apply elem_of_cons. right. apply elem_of_cons. now left.
  - intros fields [= <-]. simpl. intros Hin.
    apply elem_of_cons in Hin as [Hin | Hin]; [discriminate Hin |].
    apply elem_of_cons in Hin as [Hin | Hin]; [discriminate Hin |].
    inversion Hin.
Defined.

(** The message names the missing properties. *)
Example notion_healthCheck_message :
  let rt := Mock.runtime in
  let database := JObj [ ("properties", JObj [ ("Name", JObj []); ("Tags", JObj []) ]) ] in
  let response := {| status := 200; resp_text := ""; resp_json := Some database |} in
  let env := Sample.always (Resolved response) in
  fst (notion_healthCheck "test-notion-token" "test-database-id" Mock.empty_world) =
    Ok (false,
        "Missing required database properties: Status, Due Date, Task ID, Captured From. Please ensure your Notion database has these columns: Name (title), Status (select), Due Date (date), Tags (multi-select), Task ID (rich text), Captured From (rich text)").
Proof. vm_compute. reflexivity. Qed.

(** Two tasks with the same hash in one batch: when both existence queries
    are answered before a page is created, both calls create a page. *)
Example createTasks_same_hash_together :
  let rt := Mock.runtime in
  let env := Sample.with_order [0; 1]
               (Mock.store [Mock.query_empty; Mock.query_empty;
                            Mock.page_created; Mock.page_created]) in
  let t := Mock.buy_milk_task in
  let query := exists_request "test-notion-token" "test-database-id" (hash t) in
  let create := create_request "test-notion-token" "test-database-id" t in
  let run := syncTasks "test-notion-token" "test-database-id" [t; t] 3 Mock.empty_world in
  w_trace (snd run) =
    [EvFetch query (Resolved Mock.query_empty); EvFetch query (Resolved Mock.query_empty);
     EvFetch create (Resolved Mock.page_created);
     EvFetch create (Resolved Mock.page_created)] /\
  created_records (w_trace (snd run)) = 2 /\
  (exists results, fst run = Ok results /\ map success results = [true; true]).
Proof. vm_compute. repeat split. eexists. split; reflexivity. Qed.

(** The same two tasks when the first call ends before the second goes on,
    against a store that then holds the page: one page. *)
Example createTasks_same_hash_in_turn :
  let rt := Mock.runtime in
  let env := Mock.store [Mock.query_empty; Mock.page_created; Mock.query_found] in
  let t := Mock.buy_milk_task in
  let run := syncTasks "test-notion-token" "test-database-id" [t; t] 3 Mock.empty_world in
  created_records (w_trace (snd run)) = 1 /\
  (exists results, fst run = Ok results /\
     map pageId results = [Some "page-id-123"; Some "existing"]).
Proof. vm_compute. split; [reflexivity |]. eexists. split; reflexivity. Qed.

(** ** The hourly run: when it does nothing, what it forwards, how it ends *)

Section RunnerExtras.

Context {rt : Runtime} {env : Env}.

(** X17.  A run that is disabled, or that lacks one of its five settings,
    does nothing: no request is sent, no file is read, and the state
    manager and the state file stay as they are. *)
Theorem Command_skips (preferences : Preferences) (w : World) :
  enableScheduled preferences = false \/
  inboxDir preferences = EmptyString \/
  openaiKey preferences = EmptyString \/
  openaiModel preferences = EmptyString \/
  notionToken preferences = EmptyString \/
  notionDbId preferences = EmptyString ->
  Command preferences w = (Ok tt, w).
Proof.
  intros Hskip. unfold Command, try_catch.
  destruct (enableScheduled preferences) eqn:Henabled; [| reflexivity].
  destruct Hskip as [Hoff | Hunset]; [discriminate |]. cbn [negb].
  rewrite bind_run. unfold performHealthChecks.
  assert (Hissues : negb (length (configuration_issues preferences) =? 0) = true).
  { unfold configuration_issues.
    destruct Hunset as [H | [H | [H | [H | H]]]]; rewrite H; cbn [truthy];
      repeat match goal with
             | |- context [if truthy ?s then _ else _] => destruct (truthy s)
             end; reflexivity. }
  cbv zeta. rewrite Hissues. reflexivity.
Qed.

(** X18.  A run never throws: every failure inside it is caught.  When the
    health checks report an issue, the run stops after them: it has sent
    requests and paused, and has changed neither the state manager nor the
    state file. *)
Theorem Command_never_throws (preferences : Preferences) (w : World) :
  fst (Command preferences w) = Ok tt /\
  forall issues,
    fst (performHealthChecks preferences w) = Ok (false, issues) ->
    exists delta,
      Command preferences w = (Ok tt, after w delta) /\
      Forall network_event delta.
Proof.
  split.
  { unfold Command, try_catch.
    match goal with
    | |- fst (match ?m with _ => _ end) = _ => destruct m as [[[] | e] w1]
    end; reflexivity. }
  intros issues Hunhealthy. unfold Command, try_catch.
  destruct (enableScheduled preferences).
  2:{ exists []. rewrite after_nil. split; [reflexivity | constructor]. }
  cbn [negb]. rewrite bind_run.
  destruct (performHealthChecks_network_only preferences w) as (delta & Hafter).
  destruct (performHealthChecks_tracks preferences w) as (delta' & Htrace & _ & Hnet).
  rewrite Hafter in Htrace. cbn [after w_trace] in Htrace.
  apply app_inv_head in Htrace. subst delta'.
  destruct (performHealthChecks preferences w) as [[healthResults | e] w1];
    cbn [fst snd] in *; [| discriminate].
  injection Hunhealthy as ->. subst w1. cbn [fst negb].
  exists delta. split; [reflexivity | exact Hnet].
Qed.

Lemma collect_tasks_spec (s : AppState) (now filePath : string)
    (tasks : list ExtractedTask) (i : nat) (t : TaskWithMeta) :
  t ∈ collect_tasks s now filePath tasks i <->
  exists k extracted,
    tasks !! k = Some extracted /\
    isTaskProcessed s (generateTaskHash extracted filePath (i + k)) = false /\
    t = {| task := extracted;
           hash := generateTaskHash extracted filePath (i + k);
           task_filePath := filePath;
           lineIndex := i + k;
           extractedAt := now |}.
Proof.
  revert i. induction tasks as [| first rest IH]; intros i; simpl.
  - split; [intros H; now apply elem_of_nil in H | intros (k & e & H & _); discriminate].
  - destruct (isTaskProcessed s (generateTaskHash first filePath i)) eqn:Hknown.
    + rewrite IH. split.
      * intros (k & e & Hk & Hnew & ->). exists (S k), e.
        replace (i + S k) with (S i + k) by lia. auto.
      * intros ([| k] & e & Hk & Hnew & ->).
        -- simpl in Hk. injection Hk as <-. rewrite Nat.add_0_r in Hnew. congruence.
        -- exists k, e. replace (S i + k) with (i + S k) by lia. auto.
    + rewrite elem_of_cons, IH. split.
      * intros [-> | (k & e & Hk & Hnew & ->)].
        -- exists 0, first. rewrite Nat.add_0_r. auto.
        -- exists (S k), e. replace (i + S k) with (S i + k) by lia. auto.
      * intros ([| k] & e & Hk & Hnew & ->).
        -- simpl in Hk. injection Hk as <-. rewrite Nat.add_0_r. now left.
        -- right. exists k, e. replace (S i + k) with (i + S k) by lia. auto.
Qed.

(** The tasks collected from the results of the extraction. *)
Lemma elem_of_collect_all (s : AppState) (now : string)
    (extractionResults : list ExtractionResult) (t : TaskWithMeta) :
  t ∈ collect_all s now extractionResults <->
  exists result i extracted,
    result ∈ extractionResults /\
    er_tasks result !! i = Some extracted /\
    let filePath := chunk_filePath (er_chunk result) in
    isTaskProcessed s (generateTaskHash extracted filePath i) = false /\
    t = {| task := extracted;
           hash := generateTaskHash extracted filePath i;
           task_filePath := filePath;
           lineIndex := i;
           extractedAt := now |}.
Proof.
  unfold collect_all. rewrite list_elem_of_In, in_concat. split.
  - intros (ts & Hts & Ht). apply in_map_iff in Hts as (result & <- & Hresult).
    apply list_elem_of_In, collect_tasks_spec in Ht as (k & e & Hk & Hnew & ->).
    exists result, k, e. split; [now apply list_elem_of_In |]. auto.
  - intros (result & i & e & Hresult & Hi & Hnew & ->).
    eexists. split; [apply in_map_iff; exists result; split;
                     [reflexivity | now apply list_elem_of_In] |].
    apply list_elem_of_In, collect_tasks_spec. exists i, e. auto.
Qed.

(** X19.  In a run that reaches the sync, the tasks that the run forwards
    to [syncTasks] are exactly the extracted tasks whose hash is not in the
    processed set at that point: each one with the path of its chunk's file,
    its position in the task list of its chunk as [lineIndex], the hash of
    its title, that path and that position, and the time of the collection.
    From that point on the run does what [syncTasks] does for these tasks,
    then marks and saves: it sends no other request. *)
Theorem Command_forwards_unprocessed (preferences : Preferences) (w : World)
    (extractionResults : list ExtractionResult) (w3 : World) :
  reaches_sync preferences w extractionResults w3 ->
  exists allTasks syncResults dsync rest,
    syncTasks (notionToken preferences) (notionDbId preferences) allTasks 3 w3 =
      (Ok syncResults, after w3 dsync) /\
    w_trace (snd (Command preferences w)) = w_trace w3 ++ dsync ++ rest /\
    Forall (fun e => ~ network_event e) rest /\
    forall t,
      t ∈ allTasks <->
      exists result i extracted,
        result ∈ extractionResults /\
        er_tasks result !! i = Some extracted /\
        let filePath := chunk_filePath (er_chunk result) in
        isTaskProcessed (w_state w3) (generateTaskHash extracted filePath i) = false /\
        t = {| task := extracted;
               hash := generateTaskHash extracted filePath i;
               task_filePath := filePath;
               lineIndex := i;
               extractedAt := Date_toISOString (w_trace w3) |}.
Proof.
  intros Hreach.
  destruct (Command_sync_run preferences w extractionResults w3 Hreach)
    as (pre & syncResults & dsync & post & _ & _ & Hsync & Hlen & _ & Htrace & Hsaves).
  exists (collect_all (w_state w3) (Date_toISOString (w_trace w3)) extractionResults),
    syncResults, dsync,
    (concat (zip_with mark_calls
               (collect_all (w_state w3) (Date_toISOString (w_trace w3)) extractionResults)
               syncResults) ++ post).
  split; [exact Hsync |]. split; [exact Htrace |]. split.
  - apply Forall_app. split.
    + apply Forall_concat. clear.
      generalize (collect_all (w_state w3) (Date_toISOString (w_trace w3))
                    extractionResults) as allTasks.
      intros allTasks. revert syncResults.
      induction allTasks as [|t ts IH]; intros [|r rs]; simpl; try constructor;
        [| apply IH].
      unfold mark_calls. destruct (success r); repeat constructor. intros [].
    + eapply List.Forall_impl; [| exact Hsaves]. intros e. destruct e; simpl; auto;
        discriminate.
  - intros t. apply elem_of_collect_all.
Qed.

Lemma saveState_run (w : World) :
  stateFile_writable = true ->
  let content := JSON_stringify_indent (serialisableState (w_state w)) in
  saveState w =
    (Ok tt, {| w_state := w_state w;
               w_ledger := Content content;
               w_trace := w_trace w ++ [EvSave content] |}).
Proof. intros Hwritable. unfold saveState. now rewrite Hwritable. Qed.

Lemma cleanup_returns (maxEntries : Z) (w : World) :
  stateFile_writable = true -> fst (cleanup maxEntries w) = Ok tt.
Proof.
  intros Hwritable. unfold cleanup, bind, gets, modify_state, ret. simpl.
  match goal with
  | |- context [if ?b then saveState else _] => destruct b
  end; [| reflexivity].
  now rewrite saveState_run.
Qed.

Lemma updateLastRun_run (w : World) :
  stateFile_writable = true ->
  let s := {| lastRun := Some (Date_toISOString (w_trace w));
              processedTasks := processedTasks (w_state w);
              lastModifiedTimes := lastModifiedTimes (w_state w) |} in
  let content := JSON_stringify_indent (serialisableState s) in
  updateLastRun w =
    (Ok tt, {| w_state := s;
               w_ledger := Content content;
               w_trace := w_trace w ++ [EvSave content] |}).
Proof.
  intros Hwritable. unfold updateLastRun, bind, gets, modify_state. cbn.
  now rewrite saveState_run.
Qed.

(** X20.  With a writable state file, the part of a run that follows the
    extraction always completes, whatever the server answers: failures of
    the sync do not stop it.  At its end the last run is recorded and the
    state file holds the state of the state manager. *)
Theorem sync_extracted_records_run (preferences : Preferences)
    (extractionResults : list ExtractionResult) (w : World) :
  stateFile_writable = true ->
  let w' := snd (sync_extracted preferences extractionResults w) in
  fst (sync_extracted preferences extractionResults w) = Ok tt /\
  (exists now, getLastRun (w_state w') = Some now) /\
  w_ledger w' = Content (JSON_stringify_indent (serialisableState (w_state w'))).
Proof.
  intros Hwritable w'. subst w'.
  assert (Hlast : forall w0,
            fst (updateLastRun w0) = Ok tt /\
            (exists now, getLastRun (w_state (snd (updateLastRun w0))) = Some now) /\
            w_ledger (snd (updateLastRun w0)) =
              Content (JSON_stringify_indent
                         (serialisableState (w_state (snd (updateLastRun w0)))))).
  { intros w0. rewrite (updateLastRun_run w0 Hwritable). cbn. eauto. }
  assert (Hend : exists w0,
            sync_extracted preferences extractionResults w = updateLastRun w0).
  { unfold sync_extracted. rewrite bind_run. unfold gets at 1. cbn beta iota.
    rewrite bind_run. unfold gets at 1. cbn beta iota.
    set (allTasks :=
           collect_all (w_state w) (Date_toISOString (w_trace w)) extractionResults).
    destruct (length allTasks =? 0); [now exists w |].
    rewrite bind_run.
    destruct (syncTasks_length (notionToken preferences) (notionDbId preferences)
                allTasks 3 w) as (syncResults & Hsync & Hlen).
    destruct (syncTasks (notionToken preferences) (notionDbId preferences) allTasks 3 w)
      as [r w1]. cbn [fst] in Hsync. subst r.
    rewrite bind_run.
    destruct (mark_synced_from allTasks syncResults 0 w1) as (w2 & Hmark & _);
      [lia |].
    rewrite Hmark. rewrite bind_run. unfold cleanup_default.
    pose proof (cleanup_returns 10000 w2 Hwritable) as Hclean.
    destruct (cleanup 10000 w2) as [r w3]. cbn [fst] in Hclean. subst r.
    now exists w3. }
  destruct Hend as (w0 & ->). apply Hlast.
Qed.

End RunnerExtras.

Lemma Command_skips_witness :
  let rt := Mock.runtime in
  let env := Mock.healthy in
  let preferences := {| inboxDir := "/inbox"; openaiKey := ""; openaiModel := "test-model";
                        notionToken := "test-notion-token";
                        notionDbId := "test-database-id"; enableScheduled := true |} in
  Command preferences Mock.empty_world = (Ok tt, Mock.empty_world).
Proof.
  intros rt env preferences.
  refine (Command_skips (rt := rt) (env := env) preferences Mock.empty_world _).
  right. right. left. reflexivity.
Defined.

Lemma sync_extracted_records_run_witness :
  let rt := Mock.runtime in
  let env := Sample.always (Resolved Mock.bad_request) in
  let results := [ {| er_chunk := {| chunk_filePath := "/inbox/a.md";
                                     chunk_content := "- [ ] Buy milk";
                                     chunkIndex := 0; totalChunks := 1 |};
                      er_tasks := [Mock.buy_milk] |} ] in
  let w' := snd (sync_extracted Mock.preferences results Mock.empty_world) in
  fst (sync_extracted Mock.preferences results Mock.empty_world) = Ok tt /\
  (exists now, getLastRun (w_state w') = Some now) /\
  w_ledger w' = Content (JSON_stringify_indent (serialisableState (w_state w'))).
Proof.
  intros rt env results.
  exact (sync_extracted_records_run (rt := rt) (env := env) Mock.preferences results
           Mock.empty_world eq_refl).
Defined.

Lemma Command_forwards_unprocessed_witness :
  let rt := Mock.runtime in
  let env := Mock.healthy in
  let checked := performHealthChecks Mock.preferences Mock.empty_world in
  let ingested := ingestFiles fileIngester "/inbox" (snd checked) in
  let chunks := match fst ingested with Ok chunks => chunks | Throw _ => [] end in
  let extracted := extract chunks "test-openai-key" "test-model" (snd ingested) in
  let extractionResults := match fst extracted with Ok results => results | Throw _ => [] end in
  reaches_sync Mock.preferences Mock.empty_world extractionResults (snd extracted) /\
  exists allTasks syncResults dsync rest,
    syncTasks "test-notion-token" "test-database-id" allTasks 3 (snd extracted) =
      (Ok syncResults, after (snd extracted) dsync) /\
    w_trace (snd (Command Mock.preferences Mock.empty_world)) =
      w_trace (snd extracted) ++ dsync ++ rest /\
    {| task := Mock.buy_milk;
       hash := generateTaskHash Mock.buy_milk "/inbox/a.md" 0;
       task_filePath := "/inbox/a.md";
       lineIndex := 0;
       extractedAt := "2025-08-15T10:00:00.000Z" |} ∈ allTasks.
Proof.
  intros rt env checked ingested chunks extracted extractionResults.
  assert (Hreach : reaches_sync Mock.preferences Mock.empty_world extractionResults
                     (snd extracted)).
  { split; [reflexivity |]. exists [], (snd checked), chunks, (snd ingested).
    split; [vm_compute; reflexivity |]. split; [vm_compute; reflexivity |].
    split; [discriminate |]. vm_compute. reflexivity. }
  split; [exact Hreach |].
  destruct (Command_forwards_unprocessed (rt := rt) (env := env) Mock.preferences
              Mock.empty_world extractionResults (snd extracted) Hreach)
    as (allTasks & syncResults & dsync & rest & Hsync & Htrace & _ & Hforwarded).
  exists allTasks, syncResults, dsync, rest.
  split; [exact Hsync |]. split; [exact Htrace |].
  apply Hforwarded.
  exists {| er_chunk := {| chunk_filePath := "/inbox/a.md";
                           chunk_content := "- [ ] Buy milk";
                           chunkIndex := 0; totalChunks := 1 |};
            er_tasks := [Mock.buy_milk] |}, 0, Mock.buy_milk.
  split; [left |]. split; [reflexivity |]. split; reflexivity.
Defined.

(** ** The logger: redaction *)

(** Induction on a value, through the items of arrays and the entries of
    objects. *)
Lemma Json_induction (P : Json -> Prop) :
  P JNull ->
  (forall b, P (JBool b)) ->
  (forall n, P (JNum n)) ->
  (forall s, P (JStr s)) ->
  (forall items, Forall P items -> P (JArr items)) ->
  (forall fields, Forall (fun kv => P (snd kv)) fields -> P (JObj fields)) ->
  forall j, P j.
Proof.
  intros HNull HBool HNum HStr HArr HObj.
  fix IH 1. intros [| b | n | s | items | fields].
  - exact HNull.
  - apply HBool.
  - apply HNum.
  - apply HStr.
  - apply HArr. induction items as [| x items IHitems]; constructor; [apply IH | exact IHitems].
  - apply HObj. induction fields as [| [k v] fields IHfields]; constructor;
      [apply IH | exact IHfields].
Qed.

Lemma sanitiseObject_JObj (fields : list (string * Json)) :
  sanitiseObject (JObj fields) = JObj (sanitise_entries fields).
Proof.
  reflexivity.
Qed.

Lemma sanitise_entries_In (fields : list (string * Json)) (key : string) (value : Json) :
  In (key, value) (sanitise_entries fields) ->
  exists original,
    In (key, original) fields /\ assignable key = true /\
    value = sanitise_value key original.
Proof.
  induction fields as [| [k v] rest IH]; simpl; [contradiction |].
  destruct (assignable k) eqn:Hk.
  - intros [[= <- <-] | Hin].
    + exists v. auto.
    + destruct (IH Hin) as (original & H1 & H2 & H3). exists original. auto.
  - intros Hin. destruct (IH Hin) as (original & H1 & H2 & H3). exists original. auto.
Qed.

Lemma occurs_scalar (key : string) (value j : Json) :
  occurs key value j -> is_object j = true /\ j <> JNull.
Proof. intros H. destruct H; split; (reflexivity || discriminate). Qed.

Lemma sanitiseObject_redacts (key : string) (value : Json) :
  is_sensitive key = true ->
  forall obj, occurs key value (sanitiseObject obj) -> value = JStr "[REDACTED]".
Proof.
  intros Hkey obj. induction obj as [| b | n | s | items IH | fields IH] using Json_induction;
    intros Hoccurs; try (inversion Hoccurs; fail).
  - change (sanitiseObject (JArr items)) with (JArr (map sanitiseObject items)) in Hoccurs.
    inversion Hoccurs as [| | j items' Hin Hj]; subst.
    apply in_map_iff in Hin as (x & <- & Hx).
    rewrite List.Forall_forall in IH. now apply (IH x Hx).
  - rewrite sanitiseObject_JObj in Hoccurs.
    inversion Hoccurs as [fields' Hin | k j fields' Hin Hj |]; subst.
    + apply sanitise_entries_In in Hin as (original & _ & _ & ->).
      unfold sanitise_value. now rewrite Hkey.
    + apply sanitise_entries_In in Hin as (original & Horiginal & _ & ->).
      unfold sanitise_value in Hj.
      destruct (is_sensitive k); [inversion Hj |].
      destruct (is_object original) eqn:Hobject.
      * rewrite List.Forall_forall in IH. now apply (IH (k, original) Horiginal).
      * apply occurs_scalar in Hj as [Hj _]. congruence.
Qed.

(** X21.  In what [sanitiseData] returns, every entry whose key contains
    one of the five sensitive words, whatever the case of its letters and
    at whatever depth of objects and arrays, has the value [[REDACTED]]:
    nothing that was stored under such a key is left. *)
Theorem sanitiseData_redacts (data : Json) (key : string) (value : Json) :
  occurs key value (sanitiseData data) ->
  is_sensitive key = true ->
  value = JStr "[REDACTED]".
Proof.
  intros Hoccurs Hkey. destruct data; try (inversion Hoccurs; fail);
    now apply (sanitiseObject_redacts key value Hkey _ Hoccurs).
Qed.

Lemma sanitiseData_redacts_witness :
  let data := JObj [ ("file", JStr "/inbox/a.md");
                     ("request", JObj [ ("openaiKey", JStr "sk-live-123");
                                        ("model", JStr "gpt") ]) ] in
  occurs "openaiKey" (JStr "[REDACTED]") (sanitiseData data) /\
  is_sensitive "openaiKey" = true /\
  JStr "[REDACTED]" = JStr "[REDACTED]".
Proof.
  intros data.
  assert (Hoccurs : occurs "openaiKey" (JStr "[REDACTED]") (sanitiseData data)).
  { apply (occurs_in_field _ _ "request"
             (JObj [ ("openaiKey", JStr "[REDACTED]"); ("model", JStr "gpt") ])).
    - right. left. reflexivity.
    - apply occurs_here. left. reflexivity. }
  split; [exact Hoccurs |]. split; [reflexivity |].
  exact (sanitiseData_redacts data "openaiKey" (JStr "[REDACTED]") Hoccurs eq_refl).
Defined.

Lemma plain_field (fields : list (string * Json)) (k : string) (v : Json) :
  plain (JObj fields) -> In (k, v) fields ->
  is_sensitive k = false /\ assignable k = true /\ plain v.
Proof.
  intros Hplain Hin.
  destruct (Hplain k v (occurs_here k v fields Hin)) as [H1 H2].
  split; [exact H1 |]. split; [exact H2 |].
  intros key value Hoccurs. apply (Hplain key value).
  now apply (occurs_in_field key value k v).
Qed.

Lemma sanitiseObject_plain (obj : Json) : plain obj -> sanitiseObject obj = obj.
Proof.
  induction obj as [| b | n | s | items IH | fields IH] using Json_induction;
    intros Hplain; try reflexivity.
  - change (sanitiseObject (JArr items)) with (JArr (map sanitiseObject items)). f_equal.
    assert (Hitems : forall x, In x items -> plain x).
    { intros x Hx key value Hoccurs. apply (Hplain key value).
      now apply (occurs_in_item key value x). }
    clear Hplain. induction items as [| x items IHitems]; [reflexivity |].
    inversion IH as [| ? ? Hx Hrest]; subst. simpl.
    rewrite Hx by (apply Hitems; now left).
    rewrite IHitems; [reflexivity | exact Hrest |].
    intros y Hy. apply Hitems. now right.
  - rewrite sanitiseObject_JObj. f_equal.
    assert (Hfields : forall k v, In (k, v) fields ->
              is_sensitive k = false /\ assignable k = true /\ plain v).
    { intros k v. now apply plain_field. }
    clear Hplain. induction fields as [| [k v] fields IHfields]; [reflexivity |].
    inversion IH as [| ? ? Hv Hrest]; subst. simpl in Hv.
    destruct (Hfields k v (or_introl eq_refl)) as (Hk1 & Hk2 & Hk3).
    simpl. rewrite Hk2. unfold sanitise_value. rewrite Hk1, (Hv Hk3).
    rewrite IHfields; [| exact Hrest | intros k' v' Hin; apply Hfields; now right].
    now destruct (is_object v).
Qed.

(** X22.  Data in which no key is sensitive (and none is [__proto__]) is
    written as it is: [sanitiseData] changes nothing in it, at any depth.
    The one change of shape is at the top: an array given as the data
    itself is written as the object of its items under their indices. *)
Theorem sanitiseData_plain (data : Json) :
  plain (spread data) -> sanitiseData data = spread data.
Proof.
  intros Hplain. destruct data; try reflexivity;
    now apply (sanitiseObject_plain _ Hplain).
Qed.

Lemma sanitiseData_plain_witness :
  let data := JObj [ ("file", JStr "/inbox/a.md"); ("chunks", JArr [JNum 1; JNum 2]) ] in
  sanitiseData data = data.
Proof.
  intros data.
  refine (sanitiseData_plain data _).
  intros key value Hoccurs.
  inversion Hoccurs as [fields Hin | k j fields Hin Hj |]; subst.
  - destruct Hin as [[= <- <-] | [[= <- <-] | []]]; split; reflexivity.
  - destruct Hin as [[= <- <-] | [[= <- <-] | []]].
    + inversion Hj.
    + inversion Hj as [| | j items Hitem Hdeep]; subst.
      destruct Hitem as [<- | [<- | []]]; inversion Hdeep.
Defined.

(** ** The extractor: dates and validation *)

Section ExtractorDates.

Import TaskExtractor.

Lemma length_list_ascii_of_string (s : string) :
  length (String.list_ascii_of_string s) = String.length s.
Proof. induction s as [| c s IH]; [reflexivity |]. simpl. now rewrite IH. Qed.

Lemma is_iso_date_length (s : string) : is_iso_date s = true -> String.length s = 10.
Proof.
  unfold is_iso_date. rewrite <- length_list_ascii_of_string.
  destruct (String.list_ascii_of_string s) as [| ? [| ? [| ? [| ? [| ? [| ? [| ? [| ? [| ? [| ? [| ? ?]]]]]]]]]]];
    try discriminate.
  reflexivity.
Qed.

Lemma split_at_length (sep s before rest : string) :
  split_at sep s = Some (before, rest) ->
  String.length s = String.length before + 1 + String.length rest.
Proof.
  revert before. induction s as [| c s IH]; intros before; simpl; [discriminate |].
  destruct (is_char sep c).
  - intros [= <- <-]. reflexivity.
  - destruct (split_at sep s) as [[b r] |]; [| discriminate].
    intros [= <- <-]. simpl. now rewrite (IH b eq_refl).
Qed.

Lemma one_or_two_digits_padStart2 (s : string) :
  one_or_two_digits s = true ->
  two_digits (padStart2 s) = true /\ String.length s <= 2.
Proof.
  destruct s as [| a [| b [| c s]]]; simpl; try discriminate.
  - intros Ha. unfold padStart2. simpl. split; [| lia].
    change (two_digits (String "0" (String a EmptyString))) with (true && is_digit a).
    exact Ha.
  - intros Hab. unfold padStart2. simpl. split; [exact Hab | lia].
Qed.

Lemma four_digit_years :
  forallb (fun n => four_digits (string_of_Z (Z.of_nat n + 1000))) (seq 0 (90 * 100)) = true.
Proof. vm_compute. reflexivity. Qed.

Lemma string_of_year (currentYear : Z) :
  (1000 <= currentYear <= 9999)%Z -> four_digits (string_of_Z currentYear) = true.
Proof.
  intros Hyear. pose proof four_digit_years as Hall.
  rewrite List.forallb_forall in Hall.
  specialize (Hall (Z.to_nat (currentYear - 1000))).
  replace (Z.of_nat (Z.to_nat (currentYear - 1000)) + 1000)%Z with currentYear in Hall by lia.
  apply Hall. apply in_seq. lia.
Qed.

Lemma is_iso_date_built (year month day : string) :
  four_digits year = true -> two_digits month = true -> two_digits day = true ->
  is_iso_date (year +:+ "-" +:+ month +:+ "-" +:+ day) = true.
Proof.
  destruct year as [| y1 [| y2 [| y3 [| y4 [| ? ?]]]]]; try discriminate.
  destruct month as [| m1 [| m2 [| ? ?]]]; try discriminate.
  destruct day as [| d1 [| d2 [| ? ?]]]; try discriminate.
  simpl. unfold is_iso_date. simpl.
  change (is_char "-" "-") with true.
  intros Hy Hm Hd. rewrite !andb_true_iff in *. tauto.
Qed.

(** On a string, [normaliseDate] returns [null] or a date. *)
Lemma normaliseDate_on_string (currentYear : Z) (s : string) :
  (1000 <= currentYear <= 9999)%Z ->
  exists r, normaliseDate currentYear (JStr s) = Ok r /\ normalised r.
Proof.
  intros Hyear. unfold normaliseDate. cbn [js_truthy js_String].
  destruct (truthy s); cbn [negb]; [| exists JNull; split; [reflexivity | now left]].
  destruct (is_iso_date s) eqn:Hiso.
  { exists (JStr s). split; [reflexivity | right; eauto]. }
  destruct (ddmmMatch s) as [[day month] |] eqn:Hmatch;
    [| exists JNull; split; [reflexivity | now left]].
  eexists. split; [reflexivity |]. unfold ddmmMatch in Hmatch.
  destruct (split_at "/" s) as [[d m] |]; [| discriminate].
  destruct (one_or_two_digits d && one_or_two_digits m) eqn:Hdigits; [| discriminate].
  injection Hmatch as <- <-. apply andb_true_iff in Hdigits as [Hd Hm].
  apply one_or_two_digits_padStart2 in Hd as [Hd _].
  apply one_or_two_digits_padStart2 in Hm as [Hm _].
  right. eexists. split; [reflexivity |].
  apply is_iso_date_built; [now apply string_of_year | exact Hm | exact Hd].
Qed.

(** X23.  On a string, [normaliseDate] returns [null] or a string of the
    form YYYY-MM-DD (the current year having four digits): the string
    itself when it has this form, the current year with the month and the
    day padded to two digits for D/M, and [null] for every other string,
    whatever its length.  In particular every string of more than ten
    characters, such as a date with a time (YYYY-MM-DDTHH:MM), gives
    [null]. *)
Theorem normaliseDate_string (currentYear : Z) (s : string) :
  (1000 <= currentYear <= 9999)%Z ->
  exists r,
    normaliseDate currentYear (JStr s) = Ok r /\
    normalised r /\
    (is_iso_date s = true -> r = JStr s) /\
    (forall day month,
       ddmmMatch s = Some (day, month) ->
       r = JStr (string_of_Z currentYear +:+ "-" +:+ padStart2 month
                 +:+ "-" +:+ padStart2 day)) /\
    (is_iso_date s = false -> ddmmMatch s = None -> r = JNull) /\
    (10 < String.length s -> r = JNull).
Proof.
  intros Hyear. unfold normaliseDate. cbn [js_truthy js_String].
  destruct (truthy s) eqn:Hs; cbn [negb].
  2:{ apply truthy_false in Hs. subst s. exists JNull.
      split; [reflexivity |]. split; [now left |].
      split; [discriminate |]. split; [discriminate |].
      split; reflexivity. }
  destruct (is_iso_date s) eqn:Hiso.
  - exists (JStr s). split; [reflexivity |]. split; [right; eauto |].
    split; [reflexivity |]. split.
    + intros day month Hmatch. exfalso. unfold ddmmMatch in Hmatch.
      destruct (split_at "/" s) as [[d m] |] eqn:Hsplit; [| discriminate].
      destruct (one_or_two_digits d && one_or_two_digits m) eqn:Hdigits; [| discriminate].
      apply andb_true_iff in Hdigits as [Hd Hm].
      apply one_or_two_digits_padStart2 in Hd as [_ Hd].
      apply one_or_two_digits_padStart2 in Hm as [_ Hm].
      apply split_at_length in Hsplit. apply is_iso_date_length in Hiso. lia.
    + split; [discriminate |].
      intros Hlong. apply is_iso_date_length in Hiso. lia.
  - destruct (ddmmMatch s) as [[day month] |] eqn:Hmatch.
    + eexists. split; [reflexivity |]. unfold ddmmMatch in Hmatch.
      destruct (split_at "/" s) as [[d m] |] eqn:Hsplit; [| discriminate].
      destruct (one_or_two_digits d && one_or_two_digits m) eqn:Hdigits; [| discriminate].
      injection Hmatch as <- <-.
      apply andb_true_iff in Hdigits as [Hd Hm].
      apply one_or_two_digits_padStart2 in Hd as [Hd Hdlen].
      apply one_or_two_digits_padStart2 in Hm as [Hm Hmlen].
      split; [right; eexists; split; [reflexivity |];
              apply is_iso_date_built; [now apply string_of_year | exact Hm | exact Hd] |].
      split; [discriminate |]. split; [now intros ? ? [= <- <-] |].
      split; [intros _ Hnone; discriminate Hnone |].
      intros Hlong. apply split_at_length in Hsplit. lia.
    + exists JNull. split; [reflexivity |]. split; [now left |].
      split; [discriminate |]. split; [discriminate |].
      split; reflexivity.
Qed.

End ExtractorDates.

Lemma normaliseDate_string_witness :
  exists r,
    TaskExtractor.normaliseDate 2025 (JStr "2025-08-16T09:00") = Ok r /\
    normalised r /\
    (TaskExtractor.is_iso_date "2025-08-16T09:00" = true -> r = JStr "2025-08-16T09:00") /\
    (forall day month,
       TaskExtractor.ddmmMatch "2025-08-16T09:00" = Some (day, month) ->
       r = JStr (string_of_Z 2025 +:+ "-" +:+ TaskExtractor.padStart2 month
                 +:+ "-" +:+ TaskExtractor.padStart2 day)) /\
    (TaskExtractor.is_iso_date "2025-08-16T09:00" = false ->
     TaskExtractor.ddmmMatch "2025-08-16T09:00" = None -> r = JNull) /\
    (10 < String.length "2025-08-16T09:00" -> r = JNull).
Proof.
  refine (normaliseDate_string 2025 "2025-08-16T09:00" _). lia.
Defined.

(** ** The extractor: validation *)

Section ExtractorValidation.

Import TaskExtractor.

Lemma clean_task_well_typed (currentYear : Z) (task : Json) :
  (1000 <= currentYear <= 9999)%Z ->
  is_valid_task task = true ->
  due_well_typed task ->
  exists cleaned,
    clean_task currentYear task = Ok cleaned /\
    ct_title cleaned = trim (raw_title task) /\
    ct_title cleaned <> EmptyString /\
    normalised (ct_due cleaned).
Proof.
  intros Hyear Hvalid Hdue. unfold clean_task, raw_title. unfold due_well_typed in Hdue.
  destruct task as [| | | | | fields]; try discriminate Hvalid.
  cbn [json_get] in *. cbn [is_valid_task] in Hvalid.
  destruct (assoc "title" fields) as [[| | | t | |] |]; try discriminate Hvalid.
  assert (Htitle : trim t <> EmptyString).
  { intros Hempty. rewrite Hempty in Hvalid. discriminate Hvalid. }
  destruct (assoc "due" fields) as [[| | | d | |] |]; try contradiction;
    try (eexists; split; [reflexivity |]; cbn; repeat split; try assumption; now left).
  destruct (js_truthy (JStr d)).
  - destruct (normaliseDate_on_string currentYear d Hyear) as (r & -> & Hr).
    eexists. split; [reflexivity |]. cbn. auto.
  - eexists. split; [reflexivity |]. cbn. repeat split; try assumption. now left.
Qed.

Lemma clean_tasks_well_typed (currentYear : Z) (tasks : list Json) :
  (1000 <= currentYear <= 9999)%Z ->
  Forall (fun task => is_valid_task task = true /\ due_well_typed task) tasks ->
  exists cleaned,
    clean_tasks currentYear tasks = Ok cleaned /\
    map ct_title cleaned = map (fun task => trim (raw_title task)) tasks /\
    Forall (fun t => ct_title t <> EmptyString /\ normalised (ct_due t)) cleaned.
Proof.
  intros Hyear. induction tasks as [| task rest IH]; intros Hall.
  - exists []. repeat split; constructor.
  - inversion Hall as [| ? ? [Hvalid Hdue] Hrest]; subst.
    destruct (clean_task_well_typed currentYear task Hyear Hvalid Hdue)
      as (first & Hfirst & Htitle & Hnonempty & Hnormal).
    destruct (IH Hrest) as (others & Hothers & Htitles & Hshape).
    exists (first :: others). simpl. rewrite Hfirst, Hothers.
    split; [reflexivity |]. split; [now rewrite Htitle, Htitles |].
    constructor; auto.
Qed.

(** X24.  When every task of the response has a [due] that is absent,
    [null] or a string, [validateAndCleanTasks] returns one task for each
    item that is an object with a string title that is not blank, in the
    order of the response: its title is the trimmed title and is not empty,
    and its [due] is [null] or a string of the form YYYY-MM-DD.  A response
    whose tasks are not an array gives no task. *)
Theorem validateAndCleanTasks_well_typed (currentYear : Z) (items : list Json) :
  (1000 <= currentYear <= 9999)%Z ->
  Forall due_well_typed items ->
  (exists tasks,
     validateAndCleanTasks currentYear (JArr items) = Ok tasks /\
     map ct_title tasks =
       map (fun task => trim (raw_title task)) (List.filter is_valid_task items) /\
     Forall (fun t => ct_title t <> EmptyString /\ normalised (ct_due t)) tasks) /\
  (forall rawTasks,
     (forall l, rawTasks <> JArr l) -> validateAndCleanTasks currentYear rawTasks = Ok []).
Proof.
  intros Hyear Hdue. split.
  - apply clean_tasks_well_typed; [exact Hyear |].
    apply List.Forall_forall. intros task Hin. apply filter_In in Hin as [Hin Hvalid].
    split; [exact Hvalid |]. rewrite List.Forall_forall in Hdue. now apply Hdue.
  - intros rawTasks Hnot. destruct rawTasks; try reflexivity. now contradiction (Hnot items0).
Qed.

Lemma string_of_uint_digits (d : Decimal.uint) :
  Forall (fun c => is_digit c = true)
    (String.list_ascii_of_string (DecimalString.NilEmpty.string_of_uint d)).
Proof. induction d; simpl; constructor; (reflexivity || assumption). Qed.

Lemma is_iso_date_dash (s : string) :
  is_iso_date s = true ->
  nth_error (String.list_ascii_of_string s) 4 = Some "-"%char.
Proof.
  unfold is_iso_date.
  destruct (String.list_ascii_of_string s) as [| ? [| ? [| ? [| ? [| c [| ? [| ? [| ? [| ? [| ? [| ? ?]]]]]]]]]]];
    try discriminate.
  intros H. rewrite !andb_true_iff in H.
  destruct H as [[[[[[_ H] _] _] _] _] _]. simpl.
  unfold is_char in H. apply String.eqb_eq in H. now injection H as <-.
Qed.

Lemma digits_no_dash (l : list ascii) (n : nat) :
  Forall (fun c => is_digit c = true) l -> nth_error l n <> Some "-"%char.
Proof.
  intros Hall Hn. apply nth_error_In in Hn.
  rewrite List.Forall_forall in Hall. specialize (Hall _ Hn). discriminate Hall.
Qed.

Lemma string_of_uint_NilZero_digits (d : Decimal.uint) :
  Forall (fun c => is_digit c = true)
    (String.list_ascii_of_string (DecimalString.NilZero.string_of_uint d)).
Proof.
  destruct d; try (repeat constructor; fail);
    lazymatch goal with
    | |- context [DecimalString.NilZero.string_of_uint ?x] =>
        exact (string_of_uint_digits x)
    end.
Qed.

Lemma is_iso_date_number (n : Z) : is_iso_date (string_of_Z n) = false.
Proof.
  destruct (is_iso_date (string_of_Z n)) eqn:Hiso; [| reflexivity].
  apply is_iso_date_dash in Hiso. exfalso. revert Hiso.
  unfold string_of_Z, DecimalString.NilZero.string_of_int.
  destruct (Z.to_int n) as [d | d].
  - apply digits_no_dash, string_of_uint_NilZero_digits.
  - change (nth_error (String.list_ascii_of_string
                          (DecimalString.NilZero.string_of_uint d)) 3 <> Some "-"%char).
    apply digits_no_dash, string_of_uint_NilZero_digits.
Qed.

Lemma normaliseDate_unusable (currentYear : Z) (d : Json) :
  due_unusable d ->
  js_truthy d = true /\ exists e, normaliseDate currentYear d = Throw e.
Proof.
  unfold due_unusable, normaliseDate.
  destruct d as [| b | n | s | items | fields]; try contradiction.
  - intros ->. split; [reflexivity |]. eexists. reflexivity.
  - intros Hn. cbn [js_truthy js_String].
    destruct (Z.eqb_spec n 0) as [| _]; [contradiction |]. cbn [negb].
    rewrite is_iso_date_number. split; [reflexivity |]. eexists. reflexivity.
  - intros _. split; [reflexivity |]. eexists. reflexivity.
Qed.

Lemma clean_tasks_unusable (currentYear : Z) (tasks : list Json) (task d : Json) :
  In task tasks ->
  json_get "due" task = Some d ->
  due_unusable d ->
  exists e, clean_tasks currentYear tasks = Throw e.
Proof.
  intros Hin Hdue Hbad. induction tasks as [| first rest IH]; [contradiction |].
  simpl. destruct Hin as [-> | Hin].
  - unfold clean_task. rewrite Hdue.
    destruct (normaliseDate_unusable currentYear d Hbad) as (-> & e & ->).
    eexists. reflexivity.
  - destruct (clean_task currentYear first); [| eexists; reflexivity].
    destruct (IH Hin) as (e & ->). eexists. reflexivity.
Qed.

Lemma validateAndCleanTasks_unusable (currentYear : Z) (items : list Json) (task d : Json) :
  In task items ->
  is_valid_task task = true ->
  json_get "due" task = Some d ->
  due_unusable d ->
  exists e, validateAndCleanTasks currentYear (JArr items) = Throw e.
Proof.
  intros Hin Hvalid Hdue Hbad. unfold validateAndCleanTasks.
  apply (clean_tasks_unusable currentYear _ task d); [| exact Hdue | exact Hbad].
  apply filter_In. now split.
Qed.

End ExtractorValidation.

Lemma validateAndCleanTasks_well_typed_witness :
  let items := [ JObj [ ("title", JStr "  Buy milk "); ("due", JStr "16/08") ];
                 JObj [ ("title", JStr "   ") ];
                 JStr "call John" ] in
  (exists tasks,
     TaskExtractor.validateAndCleanTasks 2025 (JArr items) = Ok tasks /\
     map ct_title tasks =
       map (fun task => trim (raw_title task))
         (List.filter TaskExtractor.is_valid_task items) /\
     Forall (fun t => ct_title t <> EmptyString /\ normalised (ct_due t)) tasks) /\
  (forall rawTasks,
     (forall l, rawTasks <> JArr l) ->
     TaskExtractor.validateAndCleanTasks 2025 rawTasks = Ok []).
Proof.
  intros items.
  refine (validateAndCleanTasks_well_typed 2025 items _ _); [lia |].
  repeat constructor.
Defined.

(** ** The extractor: requests *)

Section ExtractorRequests.

Context {rt : Runtime} {env : Env} {clock : Clock}.

Import TaskExtractor.

(** [callOpenAI], one attempt at a time. *)
Lemma callOpenAI_eq (apiKey model systemPrompt userPrompt : string) (attempt : nat)
    (w : World) :
  callOpenAI apiKey model systemPrompt userPrompt attempt w =
    let req := openai_request apiKey model systemPrompt userPrompt in
    let w1 := after w [EvFetch req (server (w_trace w) req)] in
    match server (w_trace w) req with
    | Rejected reason => (Throw reason, w1)
    | Resolved response =>
        if ok response then (choice_content (resp_json response), w1)
        else if decide (status response = 429%Z /\ attempt <= 3) then
          callOpenAI apiKey model systemPrompt userPrompt (S attempt)
            (after w1 [EvSleep (2 ^ Z.of_nat attempt * 1000)])
        else (Throw ("OpenAI API error: " +:+ errorMessage response), w1)
    end.
Proof.
  simp callOpenAI. rewrite fetch_run. cbv zeta.
  destruct (server (w_trace w) (openai_request apiKey model systemPrompt userPrompt))
    as [reason | response]; simpl; [reflexivity |].
  destruct (ok response); simpl; [reflexivity |].
  destruct (decide (status response = 429%Z /\ attempt <= 3)); reflexivity.
Qed.

(** One call of [callOpenAI] sends requests and pauses and does nothing
    else; from the first attempt on it sends at most four requests. *)
Lemma callOpenAI_run (apiKey model systemPrompt userPrompt : string) (k attempt : nat)
    (w : World) :
  4 - attempt = k ->
  exists delta,
    snd (callOpenAI apiKey model systemPrompt userPrompt attempt w) = after w delta /\
    Forall network_event delta /\
    1 <= requests delta <= S (4 - attempt) /\
    (0 <= total_sleep delta <= (16 - 2 ^ Z.of_nat (Nat.min attempt 4)) * 1000)%Z.
Proof.
  revert attempt w. induction k as [| k IH]; intros attempt w Hk;
    rewrite callOpenAI_eq; cbv zeta;
    set (req := openai_request apiKey model systemPrompt userPrompt);
    assert (Hpow : (2 ^ Z.of_nat (Nat.min attempt 4) <= 16)%Z)
      by (change 16%Z with (2 ^ 4)%Z; apply Z.pow_le_mono_r; lia);
    (destruct (server (w_trace w) req) as [reason | response];
     [exists [EvFetch req (Rejected reason)]; unfold requests; simpl;
      repeat split; try lia; repeat constructor |]);
    (destruct (ok response);
     [exists [EvFetch req (Resolved response)]; unfold requests; simpl;
      repeat split; try lia; repeat constructor |]);
    (destruct (decide (status response = 429%Z /\ attempt <= 3)) as [[Hs Ha] | Hno];
     [| exists [EvFetch req (Resolved response)]; unfold requests; simpl;
        repeat split; try lia; repeat constructor]).
  - lia.
  - rewrite after_after. simpl app.
    destruct (IH (S attempt)
                (after w [EvFetch req (Resolved response);
                          EvSleep (2 ^ Z.of_nat attempt * 1000)]))
      as (delta & Hrun & Hnet & Hreq & Hsleep); [lia |].
    exists (EvFetch req (Resolved response) :: EvSleep (2 ^ Z.of_nat attempt * 1000) :: delta).
    rewrite Hrun, after_after. split; [reflexivity |].
    split; [repeat constructor; exact Hnet |].
    change (requests (EvFetch req (Resolved response)
                      :: EvSleep (2 ^ Z.of_nat attempt * 1000) :: delta))
      with (S (requests delta)).
    change (total_sleep (EvFetch req (Resolved response)
                         :: EvSleep (2 ^ Z.of_nat attempt * 1000) :: delta))
      with (2 ^ Z.of_nat attempt * 1000 + total_sleep delta)%Z.
    assert (Hcases : attempt = 0 \/ attempt = 1 \/ attempt = 2 \/ attempt = 3) by lia.
    destruct Hcases as [-> | [-> | [-> | ->]]]; simpl in *; lia.
Qed.


(** [parseJsonResponse] always returns. *)
Lemma parseJsonResponse_run (content apiKey model : string) (chunk : FileChunk)
    (w : World) :
  exists parsed delta,
    parseJsonResponse content apiKey model chunk w = (Ok parsed, after w delta) /\
    Forall network_event delta /\
    requests delta <= 4 /\
    (forall j, JSON_parse content = Some j -> parsed = j /\ delta = []).
Proof.
  unfold parseJsonResponse.
  destruct (JSON_parse content) as [parsed |].
  { exists parsed, []. rewrite after_nil. unfold requests. simpl.
    repeat split; try constructor; try lia; now injection H as <-. }
  unfold try_catch. rewrite bind_run.
  destruct (callOpenAI_run apiKey model strictPrompt
              ("Extract tasks from: " +:+ substring0 1000 (chunk_content chunk)) 3 1 w
              eq_refl) as (delta & Hrun & Hnet & Hreq & _).
  destruct (callOpenAI apiKey model strictPrompt _ 1 w) as [[retryContent | e] w1];
    cbn [snd] in Hrun; subst w1.
  - destruct (JSON_parse_value retryContent) as [parsed |];
      eexists; exists delta; (split; [reflexivity |]);
      (split; [exact Hnet |]); (split; [simpl in Hreq; lia | discriminate]).
  - eexists; exists delta. split; [reflexivity |].
    split; [exact Hnet |]. split; [simpl in Hreq; lia | discriminate].
Qed.

(** The tasks that [extractTasks] validates: [parsedResponse.tasks || []]. *)
Lemma extractTasks_eq (chunk : FileChunk) (apiKey model : string) (w : World) :
  extractTasks chunk apiKey model w =
    let nothing := {| ex_tasks := []; ex_chunk := chunk |} in
    match callOpenAI apiKey model (buildSystemPrompt (w_trace w))
            (buildUserPrompt (w_trace w) chunk) 1 w with
    | (Ok (Some (JStr content)), w1) =>
        match parseJsonResponse content apiKey model chunk w1 with
        | (Ok parsedResponse, w2) =>
            match js_get "tasks" (Some parsedResponse) with
            | Ok tasks_ =>
                let rawTasks :=
                  if falsy tasks_ then JArr [] else default (JArr []) tasks_ in
                match validateAndCleanTasks (Date_getFullYear (w_trace w2)) rawTasks with
                | Ok validTasks =>
                    (Ok {| ex_tasks := validTasks; ex_chunk := chunk |}, w2)
                | Throw _ => (Ok nothing, w2)
                end
            | Throw _ => (Ok nothing, w2)
            end
        | (Throw _, w2) => (Ok nothing, w2)
        end
    | (_, w1) => (Ok nothing, w1)
    end.
Proof.
  unfold extractTasks, try_catch. rewrite bind_run. unfold gets at 1. cbn beta iota.
  rewrite bind_run. unfold gets at 1. cbn beta iota. rewrite bind_run. cbv zeta.
  destruct (callOpenAI apiKey model (buildSystemPrompt (w_trace w))
              (buildUserPrompt (w_trace w) chunk) 1 w) as [[[content |] | e] w1];
    try reflexivity.
  destruct content; try reflexivity.
  rewrite bind_run.
  destruct (parseJsonResponse s apiKey model chunk w1) as [[parsedResponse | e] w2];
    [| reflexivity].
  rewrite bind_run. unfold lift at 1.
  destruct (js_get "tasks" (Some parsedResponse)) as [tasks_ | e]; [| reflexivity].
  rewrite bind_run. unfold gets at 1. cbn beta iota. rewrite bind_run. unfold lift.
  destruct (validateAndCleanTasks _ _); reflexivity.
Qed.

(** [extractTasks] returns a result for its chunk, after requests and
    pauses only. *)
Lemma extractTasks_run (chunk : FileChunk) (apiKey model : string) (w : World) :
  exists tasks delta,
    extractTasks chunk apiKey model w =
      (Ok {| ex_tasks := tasks; ex_chunk := chunk |}, after w delta) /\
    Forall network_event delta /\
    requests delta <= 8.
Proof.
  rewrite extractTasks_eq. cbv zeta.
  destruct (callOpenAI_run apiKey model (buildSystemPrompt (w_trace w))
              (buildUserPrompt (w_trace w) chunk) 3 1 w eq_refl)
    as (d1 & Hrun1 & Hnet1 & Hreq1 & _).
  simpl in Hreq1.
  destruct (callOpenAI apiKey model (buildSystemPrompt (w_trace w))
              (buildUserPrompt (w_trace w) chunk) 1 w) as [[[content |] | e] w1];
    cbn [snd] in Hrun1; subst w1;
    try (exists [], d1; split; [reflexivity |]; split; [exact Hnet1 | lia]).
  destruct content;
    try (exists [], d1; split; [reflexivity |]; split; [exact Hnet1 | lia]).
  destruct (parseJsonResponse_run s apiKey model chunk (after w d1))
    as (parsed & d2 & Hrun2 & Hnet2 & Hreq2 & _).
  rewrite Hrun2, after_after.
  assert (Hnet : Forall network_event (d1 ++ d2)) by (apply Forall_app; now split).
  assert (Hreq : requests (d1 ++ d2) <= 8).
  { unfold requests in *. rewrite List.filter_app, length_app. lia. }
  destruct (js_get "tasks" (Some parsed)) as [tasks_ | e];
    [| exists [], (d1 ++ d2); auto].
  destruct (validateAndCleanTasks _ _) as [validTasks | e];
    eexists; exists (d1 ++ d2); auto.
Qed.

(** X27.  [extractTasks] never throws: whatever the server answers, it
    returns a result that carries the chunk it was given, with the tasks it
    could validate or with none.  It sends at most eight requests (two
    calls of at most four attempts), pauses, and leaves the state manager
    and the state file alone. *)
Theorem extractTasks_never_throws (chunk : FileChunk) (apiKey model : string)
    (w : World) :
  exists tasks delta,
    extractTasks chunk apiKey model w =
      (Ok {| ex_tasks := tasks; ex_chunk := chunk |}, after w delta) /\
    Forall network_event delta /\
    1 <= requests delta <= 8.
Proof.
  destruct (extractTasks_run chunk apiKey model w) as (tasks & delta & Hrun & Hnet & Hreq).
  exists tasks, delta. split; [exact Hrun |]. split; [exact Hnet |].
  split; [| exact Hreq].
  pose proof (f_equal snd Hrun) as Hworld. cbn [snd] in Hworld.
  rewrite extractTasks_eq in Hworld. cbv zeta in Hworld.
  destruct (callOpenAI_run apiKey model (buildSystemPrompt (w_trace w))
              (buildUserPrompt (w_trace w) chunk) 3 1 w eq_refl)
    as (d1 & Hrun1 & _ & Hreq1 & _).
  assert (Hext : exists d2, after w delta = after (after w d1) d2).
  { rewrite <- Hworld.
    destruct (callOpenAI apiKey model (buildSystemPrompt (w_trace w))
                (buildUserPrompt (w_trace w) chunk) 1 w) as [[[content |] | e] w1];
      cbn [snd] in Hrun1; subst w1;
      try (exists []; now rewrite after_nil).
    destruct content; try (exists []; now rewrite after_nil).
    destruct (parseJsonResponse_run s apiKey model chunk (after w d1))
      as (parsed & d2 & Hrun2 & _).
    rewrite Hrun2. exists d2.
    destruct (js_get "tasks" (Some parsed)); [| reflexivity].
    destruct (validateAndCleanTasks _ _); reflexivity. }
  destruct Hext as (d2 & Hext). rewrite after_after in Hext.
  apply (f_equal w_trace) in Hext. cbn [after w_trace] in Hext.
  apply app_inv_head in Hext. subst delta.
  unfold requests in *. rewrite List.filter_app, length_app. lia.
Qed.

(** X25.  One task with a [due] that is a number other than 0, [true] or
    an object is enough to lose every task of its chunk: when the response
    parses to tasks among which a valid one has such a [due],
    [extractTasks] returns no task at all for the chunk, after its one
    request. *)
Theorem extractTasks_unusable_due (chunk : FileChunk) (apiKey model : string)
    (w : World) (response : Response) (content : string) (parsed : Json)
    (items : list Json) (task d : Json) :
  let req := openai_request apiKey model (buildSystemPrompt (w_trace w))
               (buildUserPrompt (w_trace w) chunk) in
  server (w_trace w) req = Resolved response ->
  ok response = true ->
  choice_content (resp_json response) = Ok (Some (JStr content)) ->
  JSON_parse content = Some parsed ->
  json_get "tasks" parsed = Some (JArr items) ->
  In task items ->
  is_valid_task task = true ->
  json_get "due" task = Some d ->
  due_unusable d ->
  extractTasks chunk apiKey model w =
    (Ok {| ex_tasks := []; ex_chunk := chunk |},
     after w [EvFetch req (Resolved response)]).
Proof.
  intros req Hserver Hok Hcontent Hparse Htasks Hin Hvalid Hdue Hbad.
  rewrite extractTasks_eq, callOpenAI_eq. cbv zeta. fold req.
  rewrite Hserver, Hok, Hcontent.
  unfold parseJsonResponse. rewrite Hparse. unfold ret.
  destruct parsed as [| | | | | fields]; try discriminate Htasks.
  cbn [js_get]. cbn [json_get] in Htasks. rewrite Htasks. cbn [falsy js_truthy negb default].
  change (id (JArr items)) with (JArr items).
  destruct (validateAndCleanTasks_unusable
              (Date_getFullYear (w_trace (after w [EvFetch req (Resolved response)])))
              items task d Hin Hvalid Hdue Hbad) as (e & ->).
  reflexivity.
Qed.

(** The loop of [extractTasksFromChunks], one batch at a time. *)
Lemma extractTasksFromChunks_loop_eq (apiKey model : string) (maxConcurrency : positive)
    (chunks : list FileChunk) (results : list Extraction) (w : World) :
  extractTasksFromChunks_loop apiKey model maxConcurrency chunks results w =
    match chunks with
    | [] => (Ok results, w)
    | _ :: _ =>
        match extractBatch (take (Pos.to_nat maxConcurrency) chunks) apiKey model w with
        | (Throw e, w1) => (Throw e, w1)
        | (Ok batchResults, w1) =>
            match drop (Pos.to_nat maxConcurrency) chunks with
            | [] => (Ok (results ++ batchResults), w1)
            | c' :: cs' =>
                extractTasksFromChunks_loop apiKey model maxConcurrency
                  (c' :: cs') (results ++ batchResults) (snd (sleep 500 w1))
            end
        end
    end.
Proof.
  destruct chunks as [| c cs]; simp extractTasksFromChunks_loop; [reflexivity |].
  destruct (extractBatch (take (Pos.to_nat maxConcurrency) (c :: cs)) apiKey model w)
    as [[batchResults | e] w1]; simpl; [| reflexivity].
  destruct (drop (Pos.to_nat maxConcurrency) (c :: cs)) as [| c' cs'] eqn:Hdrop;
    [reflexivity |].
  match goal with |- _ = ?r => remember r as rhs eqn:Hrhs end.
  simp extractTasksFromChunks_loop. simpl. rewrite Hdrop. now subst rhs.
Qed.

(** *** The calls of a batch *)

(** With nothing else running, the calls are the functions. *)
Lemma callOpenAI_alone (apiKey model systemPrompt userPrompt : string) (attempt : nat)
    (w : World) :
  await (callOpenAI_async apiKey model systemPrompt userPrompt attempt) w =
  callOpenAI apiKey model systemPrompt userPrompt attempt w.
Proof.
  remember (4 - attempt) as n eqn:Hn.
  assert (Hle : 4 - attempt <= n) by lia. clear Hn.
  revert attempt w Hle. induction n as [|n IH]; intros attempt w Hle;
    rewrite callOpenAI_eq, callOpenAI_async_equation_1; cbn [await]; cbv zeta;
    destruct (server (w_trace w) (openai_request apiKey model systemPrompt userPrompt))
      as [reason | response]; try reflexivity;
    (destruct (ok response); [reflexivity |]);
    (destruct (decide (status response = 429%Z /\ attempt <= 3)) as [[_ H3] | _];
     [try (exfalso; lia); cbn [await]; rewrite IH by lia; reflexivity |]);
    reflexivity.
Qed.

Lemma parseJsonResponse_alone (content apiKey model : string) (chunk : FileChunk)
    (w : World) :
  parseJsonResponse content apiKey model chunk w =
  let (parsed, w1) := await (parseJsonResponse_async content apiKey model chunk) w in
  (Ok parsed, w1).
Proof.
  unfold parseJsonResponse, parseJsonResponse_async.
  destruct (JSON_parse content) as [parsed |]; [reflexivity |].
  unfold try_catch, async_catch, async_try. rewrite bind_run, !await_bind, callOpenAI_alone.
  destruct (callOpenAI apiKey model strictPrompt _ 1 w) as [[retryContent | e] w1];
    [| reflexivity].
  cbn [await]. now destruct (JSON_parse_value retryContent).
Qed.

Lemma extractTasks_alone (chunk : FileChunk) (apiKey model : string) (w : World) :
  extractTasks chunk apiKey model w =
  let (result, w1) := await (extractTasks_async chunk apiKey model) w in
  (Ok result, w1).
Proof.
  rewrite extractTasks_eq. unfold extractTasks_async, async_catch, async_try.
  rewrite await_bind. cbn [await]. cbv zeta. rewrite await_bind, callOpenAI_alone.
  destruct (callOpenAI apiKey model (buildSystemPrompt (w_trace w))
              (buildUserPrompt (w_trace w) chunk) 1 w) as [[[content |] | e] w1];
    try reflexivity.
  destruct content; try reflexivity.
  rewrite await_bind, parseJsonResponse_alone.
  destruct (await (parseJsonResponse_async s apiKey model chunk) w1) as [parsed w2].
  destruct (js_get "tasks" (Some parsed)) as [tasks_ | e]; [| reflexivity].
  cbn [await]. now destruct (validateAndCleanTasks _ _).
Qed.

(** The requests of a call, whatever their outcomes. *)
Lemma yields_callOpenAI (apiKey model systemPrompt userPrompt : string) (attempt : nat)
    (own : list Event) (r : Result (option Json)) :
  yields (callOpenAI_async apiKey model systemPrompt userPrompt attempt) own r ->
  requests own <= S (4 - attempt).
Proof.
  remember (4 - attempt) as n eqn:Hn.
  assert (Hle : 4 - attempt <= n) by lia.
  assert (Hgoal : yields (callOpenAI_async apiKey model systemPrompt userPrompt attempt)
                    own r -> requests own <= S n); [| subst n; exact Hgoal].
  clear Hn. revert attempt own Hle.
  induction n as [|n IH]; intros attempt own Hle; rewrite callOpenAI_async_equation_1;
    intros Hy; inversion Hy as [| ? ? out own' ? Hrest | |]; subst;
    (destruct out as [reason | response];
     [apply yields_resolve_inv in Hrest as [-> _]; unfold requests; simpl; lia |]);
    (destruct (ok response);
     [apply yields_resolve_inv in Hrest as [-> _]; unfold requests; simpl; lia |]);
    (destruct (decide (status response = 429%Z /\ attempt <= 3)) as [[_ H3] | _];
     [| apply yields_resolve_inv in Hrest as [-> _]; unfold requests; simpl; lia]).
  - exfalso. lia.
  - inversion Hrest as [| | ? ? own'' ? Hnext |]; subst.
    apply IH in Hnext; [| lia].
    change (requests (EvFetch (openai_request apiKey model systemPrompt userPrompt)
                        (Resolved response) :: EvSleep (2 ^ Z.of_nat attempt * 1000)
                      :: own''))
      with (S (requests own'')). lia.
Qed.

Lemma yields_parseJsonResponse (content apiKey model : string) (chunk : FileChunk)
    (own : list Event) (parsed : Json) :
  yields (parseJsonResponse_async content apiKey model chunk) own parsed ->
  requests own <= 4.
Proof.
  unfold parseJsonResponse_async.
  destruct (JSON_parse content) as [j |].
  { intros Hy. apply yields_resolve_inv in Hy as [-> _]. unfold requests. simpl. lia. }
  unfold async_catch, async_try. intros Hy.
  apply yields_bind_inv in Hy as (own1 & r & own2 & -> & Hy & Hend).
  apply yields_bind_inv in Hy as (own0 & r0 & own1' & -> & Hcall & Hparse).
  apply yields_callOpenAI in Hcall. simpl in Hcall.
  assert (H1 : own1' = []).
  { destruct r0; now apply yields_resolve_inv in Hparse as [-> _]. }
  assert (H2 : own2 = []).
  { destruct r; now apply yields_resolve_inv in Hend as [-> _]. }
  subst. now rewrite !app_nil_r.
Qed.

(** A call of [extractTasks] ends with a result for its chunk, after at most
    eight requests. *)
Lemma yields_extractTasks (chunk : FileChunk) (apiKey model : string)
    (own : list Event) (result : Extraction) :
  yields (extractTasks_async chunk apiKey model) own result ->
  ex_chunk result = chunk /\ requests own <= 8.
Proof.
  unfold extractTasks_async, async_catch, async_try. intros Hy.
  apply yields_bind_inv in Hy as (own1 & r & own2 & -> & Hy & Hend).
  assert (Hlast : own2 = [] /\
                  (forall e, r = Throw e -> result = {| ex_tasks := []; ex_chunk := chunk |}) /\
                  (forall a, r = Ok a -> result = a)).
  { destruct r; apply yields_resolve_inv in Hend as [-> ->];
      repeat split; congruence. }
  destruct Hlast as (-> & Hthrown & Hreturned). rewrite app_nil_r.
  assert (Hbody : (forall a, r = Ok a -> ex_chunk a = chunk) /\ requests own1 <= 8).
  { clear Hend Hthrown Hreturned.
    inversion Hy as [| | | ? trace ? ? Hrest]; subst. cbv zeta in Hrest.
    apply yields_bind_inv in Hrest as (own0 & r0 & own1' & -> & Hcall & Hrest).
    apply yields_callOpenAI in Hcall. simpl in Hcall. rewrite requests_app.
    assert (Hnone : forall e, yields (Resolve (Throw e)) own1' r ->
                      (forall a, r = Ok a -> ex_chunk a = chunk) /\
                      requests own0 + requests own1' <= 8).
    { intros e H. apply yields_resolve_inv in H as [-> ->].
      split; [discriminate | unfold requests at 2; simpl; lia]. }
    destruct r0 as [[content |] | e]; try (eapply Hnone, Hrest).
    destruct content; try (eapply Hnone, Hrest).
    apply yields_bind_inv in Hrest as (own2 & parsed & own3 & -> & Hparse & Hrest).
    apply yields_parseJsonResponse in Hparse. rewrite requests_app.
    match type of Hrest with
    | yields (match ?x with _ => _ end) _ _ => destruct x as [tasks_ | e]
    end.
    - cbv zeta in Hrest.
      inversion Hrest as [| | | ? trace' ? ? Hresult]; subst. cbv zeta in Hresult.
      apply yields_resolve_inv in Hresult as [-> ->].
      split; [| unfold requests at 3; simpl; lia].
      intros a. destruct (validateAndCleanTasks _ _); [| discriminate].
      now intros [= <-].
    - apply yields_resolve_inv in Hrest as [-> ->].
      split; [discriminate | unfold requests at 3; simpl; lia]. }
  destruct Hbody as (Hchunk & Hreq). split; [| exact Hreq].
  destruct r as [a | e].
  - rewrite (Hreturned a eq_refl). now apply Hchunk.
  - now rewrite (Hthrown e eq_refl).
Qed.

Lemma extractBatch_run (batch : list FileChunk) (apiKey model : string) (w : World) :
  exists results delta,
    extractBatch batch apiKey model w = (Ok results, after w delta) /\
    map ex_chunk results = batch /\
    Forall network_event delta /\
    requests delta <= 8 * length batch.
Proof.
  unfold extractBatch.
  destruct (Promise_all_run
              (map (fun chunk => extractTasks_async chunk apiKey model) batch) w)
    as (results & delta & Hrun & Hsettled).
  apply settled_calls in Hsettled as (owns & Hall & _ & Hnet & Hreq & _).
  exists results, delta. split; [exact Hrun |].
  rewrite Hreq. clear Hrun Hreq.
  assert (Heach : map ex_chunk results = batch /\
                  requests (concat owns) <= 8 * length batch).
  { induction Hall as [|chunk own result batch owns results [Hy _] _ IH].
    - split; [reflexivity | unfold requests; simpl; lia].
    - apply yields_extractTasks in Hy as [Hchunk Hown].
      destruct IH as [IHchunks IHreq]. simpl. rewrite requests_app, Hchunk, IHchunks.
      split; [reflexivity | lia]. }
  destruct Heach as [Hchunks Hbound].
  split; [exact Hchunks |]. split; [exact Hnet | exact Hbound].
Qed.

Lemma extractTasksFromChunks_loop_run (apiKey model : string) (maxConcurrency : positive)
    (chunks : list FileChunk) (results : list Extraction) (w : World) :
  exists new delta,
    extractTasksFromChunks_loop apiKey model maxConcurrency chunks results w =
      (Ok (results ++ new), after w delta) /\
    map ex_chunk new = chunks /\
    Forall network_event delta /\
    requests delta <= 8 * length chunks /\
    (chunks = [] -> delta = []).
Proof.
  assert (Hle : length chunks <= length chunks) by lia.
  revert Hle. generalize (length chunks) at 2. intros n. revert chunks results w.
  induction n as [| n IH]; intros chunks results w Hle;
    rewrite extractTasksFromChunks_loop_eq.
  - destruct chunks; [| simpl in Hle; lia].
    exists [], []. rewrite after_nil, app_nil_r. repeat split; try constructor; try (simpl; lia).
  - destruct chunks as [| c cs].
    { exists [], []. rewrite after_nil, app_nil_r. repeat split; try constructor;
        try (simpl; lia). }
    destruct (extractBatch_run (take (Pos.to_nat maxConcurrency) (c :: cs)) apiKey model w)
      as (rs & d1 & Hrs & Hchunks & Hnet1 & Hreq1).
    rewrite Hrs.
    pose proof (take_drop (Pos.to_nat maxConcurrency) (c :: cs)) as Hsplit.
    pose proof (f_equal (@length _) Hsplit) as Hlen. rewrite length_app in Hlen.
    destruct (drop (Pos.to_nat maxConcurrency) (c :: cs)) as [| c' cs'] eqn:Hdrop.
    + exists rs, d1. split; [reflexivity |].
      rewrite app_nil_r in Hsplit. rewrite Hsplit in Hchunks, Hreq1.
      split; [exact Hchunks |]. split; [exact Hnet1 |]. split; [exact Hreq1 | discriminate].
    + assert (Hshorter : length (c' :: cs') <= n).
      { rewrite <- Hdrop, length_drop. simpl in *. lia. }
      destruct (IH (c' :: cs') (results ++ rs) (snd (sleep 500 (after w d1))) Hshorter)
        as (new & d2 & Hrest & Hchunks2 & Hnet2 & Hreq2 & _).
      rewrite Hrest. rewrite sleep_run. cbn [snd]. rewrite !after_after.
      exists (rs ++ new), (d1 ++ [EvSleep 500] ++ d2). rewrite <- app_assoc.
      split; [reflexivity |].
      split; [rewrite map_app, Hchunks, Hchunks2; exact Hsplit |].
      split.
      * apply Forall_app. split; [exact Hnet1 |].
        apply Forall_app. split; [repeat constructor | exact Hnet2].
      * split; [| discriminate].
        rewrite !requests_app. change (requests [EvSleep 500]) with 0. lia.
Qed.

(** X28.  [extractTasksFromChunks] never throws and returns one result for
    each chunk, in the order of the chunks, each result carrying its chunk.
    It sends at most eight requests for each chunk, pauses, and does
    nothing else; for no chunk it does nothing at all. *)
Theorem extractTasksFromChunks_results_in_order (chunks : list FileChunk)
    (apiKey model : string) (maxConcurrency : positive) (w : World) :
  exists results delta,
    extractTasksFromChunks chunks apiKey model maxConcurrency w =
      (Ok results, after w delta) /\
    map ex_chunk results = chunks /\
    Forall network_event delta /\
    requests delta <= 8 * length chunks /\
    (chunks = [] -> delta = []).
Proof.
  destruct (extractTasksFromChunks_loop_run apiKey model maxConcurrency chunks [] w)
    as (new & delta & Hrun & H).
  exists new, delta. unfold extractTasksFromChunks. rewrite Hrun. auto.
Qed.

(** X29.  [healthCheck] of the extractor never throws and sends at most
    four requests.  It reports healthy only when its call of [callOpenAI]
    returned a content that parses to an object whose [test] is [true];
    every failure of the request or of the parsing is reported as
    unhealthy. *)
Theorem healthCheck_healthy_only_on_test (apiKey model : string) (w : World) :
  exists healthy message delta,
    healthCheck apiKey model w = (Ok (healthy, message), after w delta) /\
    Forall network_event delta /\
    1 <= requests delta <= 4 /\
    (healthy = true ->
     exists content parsed,
       fst (callOpenAI apiKey model
              "You are a test assistant. Return only the requested JSON." testPrompt 1 w)
         = Ok content /\
       JSON_parse_value content = Some parsed /\
       json_get "test" parsed = Some (JBool true)).
Proof.
  unfold healthCheck, try_catch. rewrite bind_run.
  destruct (callOpenAI_run apiKey model
              "You are a test assistant. Return only the requested JSON." testPrompt 3 1 w
              eq_refl) as (delta & Hrun & Hnet & Hreq & _).
  simpl in Hreq.
  destruct (callOpenAI apiKey model
              "You are a test assistant. Return only the requested JSON." testPrompt 1 w)
    as [[content | e] w1]; cbn [snd] in Hrun; subst w1.
  2:{ eexists _, _, delta. split; [reflexivity |].
      repeat split; try assumption; try lia; discriminate. }
  destruct (JSON_parse_value content) as [parsed |] eqn:Hparse.
  2:{ eexists _, _, delta. split; [reflexivity |].
      repeat split; try assumption; try lia; discriminate. }
  rewrite bind_run. unfold lift at 1.
  destruct parsed as [| b | n | s | items | fields]; cbn [js_get];
    try (eexists _, _, delta; split; [reflexivity |]; repeat split;
         try assumption; try lia; discriminate).
  destruct (assoc "test" fields) as [[| [|] | | | |] |] eqn:Htest;
    eexists _, _, delta; (split; [reflexivity |]); repeat split;
      try assumption; try lia; try discriminate.
  intros _. exists content, (JObj fields). auto.
Qed.

End ExtractorRequests.


Lemma extractTasks_unusable_due_witness :
  let rt := Sample.runtime_knowing Sample.tasks_with_numeric_due in
  let clock := Sample.clock in
  let content := Mock.stringify Sample.tasks_with_numeric_due in
  let response := Sample.chat_response (JStr content) in
  let env := Sample.always (Resolved response) in
  let chunk := {| chunk_filePath := "/inbox/a.md"; chunk_content := "- [ ] Buy milk";
                  chunkIndex := 0; totalChunks := 1 |} in
  let req := TaskExtractor.openai_request "test-openai-key" "test-model"
               (TaskExtractor.buildSystemPrompt []) (TaskExtractor.buildUserPrompt [] chunk) in
  TaskExtractor.extractTasks chunk "test-openai-key" "test-model" Mock.empty_world =
    (Ok {| ex_tasks := []; ex_chunk := chunk |},
     after Mock.empty_world [EvFetch req (Resolved response)]).
Proof.
  intros rt clock content response env chunk req.
  refine (extractTasks_unusable_due (rt := rt) (env := env) (clock := clock)
            chunk "test-openai-key" "test-model" Mock.empty_world response content
            Sample.tasks_with_numeric_due
            [ JObj [ ("title", JStr "Buy milk"); ("due", JNull) ];
              JObj [ ("title", JStr "Pay rent"); ("due", JNum 20250816) ] ]
            (JObj [ ("title", JStr "Pay rent"); ("due", JNum 20250816) ])
            (JNum 20250816) eq_refl eq_refl eq_refl _ eq_refl _ eq_refl eq_refl _).
  - vm_compute. reflexivity.
  - right. left. reflexivity.
  - discriminate.
Defined.
